(** * Multi-RPC gas soundness checker: a verified model of [app.py]

    The development embeds the functions of [src/app.py] as Rocq
    definitions and proves the properties that the specification states
    about them.

    Modelling conventions.
    - In the first part, Python [float] values are idealised as exact
      rationals ([Q]); the built-in [round(x, n)] is rounding to [n]
      decimals, ties to even.  The outlier flag and the reported
      consensus and deviation depend on how each operation is rounded;
      for them the grouping pass is modelled a second time, over
      binary64 numbers (module [Binary64]).
    - Python [int] values are [Z].
    - A Python [str] is a [string], read as a sequence of code points
      below 256.
    - The run starts from the arguments as [parse_args] returns them;
      the exits of [parse_args] itself and an interrupt from the
      keyboard are not part of the model.
    - An RPC endpoint is a remote party: what it answers may change from
      one call to the next.  The program therefore runs in a state monad
      over the log of everything it has done so far, and the network is a
      family of oracles that read this log.
    - [sys.exit] and ordinary exceptions are the two kinds of abrupt
      termination; [except Exception] catches only the second.
    - [group_by_chain] writes into the dictionaries it is given.  The
      caller's list is the store, a group refers to its members by their
      position in that list, and the function returns the groups together
      with the list as it stands afterwards. *)

From Stdlib Require Import ZArith QArith Qround Qabs Lia Lqa DecimalString Sorted.
From stdpp Require Import base list strings.

(** ** Numbers *)

Module PyNum.

Definition Qltb (a b : Q) : bool := negb (Qle_bool b a).

Fixpoint pow10 (n : nat) : positive :=
  match n with
  | O => 1%positive
  | S n' => (10 * pow10 n')%positive
  end.

(** Nearest integer, ties to the even neighbour. *)
Definition round_half_even (y : Q) : Z :=
  let f := Qfloor y in
  match (y - inject_Z f ?= 1 # 2)%Q with
  | Lt => f
  | Gt => (f + 1)%Z
  | Eq => if Z.even f then f else (f + 1)%Z
  end.

(** [round(x, ndigits)] *)
Definition py_round (x : Q) (ndigits : nat) : Q :=
  Qmake (round_half_even (x * inject_Z (Zpos (pow10 ndigits)))) (pow10 ndigits).

(** [sorted(data)]: a stable sort. *)
Fixpoint insert_sorted (x : Q) (l : list Q) : list Q :=
  match l with
  | [] => [x]
  | y :: l' => if Qle_bool x y then x :: l else y :: insert_sorted x l'
  end.

Definition sorted (data : list Q) : list Q := fold_right insert_sorted [] data.

(** [statistics.median]; [None] stands for [StatisticsError]. *)
Definition median (data : list Q) : option Q :=
  let data := sorted data in
  let n := length data in
  if Nat.eqb n 0 then None
  else if Nat.eqb (n mod 2) 1 then data !! (n / 2)%nat
  else
    let i := (n / 2)%nat in
    match data !! (i - 1)%nat, data !! i with
    | Some a, Some b => Some ((a + b) / 2)%Q
    | _, _ => None
    end.

(** [min(xs)] and [max(xs)]; [None] stands for [ValueError]. *)
Definition py_min (xs : list Q) : option Q :=
  match xs with
  | [] => None
  | x :: rest => Some (fold_left (fun m y => if Qltb y m then y else m) rest x)
  end.

Definition py_max (xs : list Q) : option Q :=
  match xs with
  | [] => None
  | x :: rest => Some (fold_left (fun m y => if Qltb m y then y else m) rest x)
  end.

(** Number of elements of [range(start, stop, step)] for [step <> 0]. *)
Definition range_len (start stop step : Z) : Z :=
  if (0 <? step)%Z then
    if (start <? stop)%Z then ((stop - start - 1) / step + 1)%Z else 0%Z
  else
    if (stop <? start)%Z then ((start - stop - 1) / (- step) + 1)%Z else 0%Z.

(** [range(start, stop, step)]; [None] stands for the [ValueError]
    raised when [step] is zero. *)
Definition py_range (start stop step : Z) : option (list Z) :=
  if (step =? 0)%Z then None
  else Some (map (fun i => (start + Z.of_nat i * step)%Z)
                 (seq 0 (Z.to_nat (range_len start stop step)))).

(** [str(n)] for an integer. *)
Definition str_of_Z (z : Z) : string := NilZero.string_of_int (Z.to_int z).

End PyNum.
Import PyNum.

(** ** [pct_diff] (lines 54-57) *)

Definition pct_diff (a b : Q) : Q :=
  if Qeq_bool b 0 then 0%Q else ((a - b) / b * 100)%Q.

(** ** Abrupt termination, the event log and the program monad *)

(** [Exception] stands for every exception that [except Exception]
    catches; [SystemExit] is what [sys.exit] raises.  An interrupt from
    the keyboard is an asynchronous signal and is not part of the model. *)
Inductive exn : Type :=
| Exception (msg : string)
| SystemExit (code : Z).

Inductive result (A : Type) : Type :=
| Ret (a : A)
| Raise (e : exn).
Arguments Ret {A} a.
Arguments Raise {A} e.

Inductive Request : Type :=
| ReqIsConnected
| ReqChainId
| ReqBlockNumber
| ReqGetBlock (n : Z).

(** The messages written to the standard error stream, by source line. *)
Inductive Diag : Type :=
| FailedToConnect (rpc : string)                      (* line 38 *)
| ConnectedTo (cid head : Z) (client : string)        (* line 45 *)
| ChainInfoFailed (e : string)                        (* line 50 *)
| SamplingRange (start head step : Z)                 (* line 66 *)
| BlockFetchFailed (n : Z) (e : string)               (* line 75 *)
| NoBaseFeeData (rpc : string)                        (* line 94 *)
| BadBlocksOrStep                                     (* line 218 *)
| NoRpcEndpoints                                      (* line 230 *)
| Starting (n_rpcs : nat) (blocks step : Z) (tol : Q) (* lines 236-244 *)
| AnalyzeFailed (rpc : string) (e : string)           (* line 258 *)
| NoEndpointsAnalyzed.                                (* line 261 *)

Inductive Event : Type :=
| Net (rpc : string) (req : Request)
| Stderr (d : Diag).

Definition Log := list Event.

Definition M (A : Type) : Type := Log -> result A * Log.

Definition ret {A} (a : A) : M A := fun log => (Ret a, log).

Definition bind {A B} (m : M A) (k : A -> M B) : M B :=
  fun log =>
    match m log with
    | (Ret a, log') => k a log'
    | (Raise e, log') => (Raise e, log')
    end.

Definition raise {A} (e : exn) : M A := fun log => (Raise e, log).

Definition sys_exit {A} (code : Z) : M A := raise (SystemExit code).

Definition print (d : Diag) : M unit := fun log => (Ret tt, log ++ [Stderr d]).

(** [try: body  except Exception as e: handler e] *)
Definition try_except {A} (body : M A) (handler : string -> M A) : M A :=
  fun log =>
    match body log with
    | (Raise (Exception msg), log') => handler msg log'
    | r => r
    end.

Definition lift_option {A} (o : option A) (msg : string) : M A :=
  match o with
  | Some a => ret a
  | None => raise (Exception msg)
  end.

Declare Scope prog_scope.
Delimit Scope prog_scope with prog.
Notation "x <- m ;; k" := (bind m (fun x => k))
  (at level 100, m at next level, right associativity) : prog_scope.
Notation "m ;;; k" := (bind m (fun _ => k))
  (at level 100, right associativity) : prog_scope.
Local Open Scope prog_scope.

(** For a monadic [for x in xs: acc = body acc x]. *)
Fixpoint for_each {A B} (body : A -> B -> M A) (xs : list B) (acc : A) : M A :=
  match xs with
  | [] => ret acc
  | x :: rest => acc' <- body acc x ;; for_each body rest acc'
  end.

(** ** The block source *)

Record Block : Type := { baseFeePerGas : option Z }.

(** What the endpoints answer.  Every oracle reads the log of the run so
    far, so an endpoint may answer two equal requests differently.
    [inl msg] is a transport or protocol error raised as an exception. *)
Record Network : Type := {
  net_is_connected : Log -> string -> bool;
  net_chain_id : Log -> string -> string + Z;
  net_block_number : Log -> string -> string + Z;
  net_get_block : Log -> string -> Z -> string + Block
}.

(** [Web3(Web3.HTTPProvider(rpc, request_kwargs={"timeout": timeout}))] *)
Record Web3 : Type := { provider : string; request_timeout : Q }.

(** [Web3.from_wei(number, "gwei")] followed by [float]: zero is returned
    as it is, a value below zero or above [2**256 - 1] raises
    [ValueError], anything else is divided by [10**9]. *)
Definition MAX_WEI : Z := 2 ^ 256 - 1.

Definition from_wei_gwei (number : Z) : option Q :=
  if (number =? 0)%Z then Some 0%Q
  else if (number <? 0)%Z || (MAX_WEI <? number)%Z then None
  else Some (number # 1000000000)%Q.

(** [NETWORKS] and [network_name] (lines 16-27) *)
Definition NETWORKS : list (Z * string) :=
  [ (1%Z, "Ethereum Mainnet"); (11155111%Z, "Sepolia Testnet"); (10%Z, "Optimism");
    (137%Z, "Polygon"); (42161%Z, "Arbitrum One"); (8453%Z, "Base") ].

Definition network_name (chain_id : Z) : string :=
  match find (fun kv => (fst kv =? chain_id)%Z) NETWORKS with
  | Some kv => snd kv
  | None => "Unknown (chainId " +:+ str_of_Z chain_id +:+ ")"
  end.

(** An endpoint summary: the dictionary built at lines 117-131, with the
    two keys that [group_by_chain] adds later. *)
Record Endpoint : Type := {
  rpcUrl : string;
  chainId : Z;
  network : string;
  clientVersion : string;
  head : Z;
  start : Z;
  requestedSpan : Z;
  step : Z;
  sampledBlocks : Z;
  baseFeeMedianGwei : Q;
  baseFeeMinGwei : Q;
  baseFeeMaxGwei : Q;
  headBaseFeeGwei : option Q;
  deviationPct : option Q;
  isOutlier : option bool
}.

Section Program.

Variable net : Network.

Definition call {A} (rpc : string) (req : Request) (answer : Log -> string + A) : M A :=
  fun log =>
    match answer log with
    | inr v => (Ret v, log ++ [Net rpc req])
    | inl msg => (Raise (Exception msg), log ++ [Net rpc req])
    end.

(** [w3.is_connected()]: the library turns every failure into [False]. *)
Definition is_connected (w3 : Web3) : M bool :=
  call (provider w3) ReqIsConnected (fun log => inr (net_is_connected net log (provider w3))).

(** [w3.eth.chain_id], [w3.eth.block_number], [w3.eth.get_block(n)] *)
Definition eth_chain_id (w3 : Web3) : M Z :=
  call (provider w3) ReqChainId (fun log => net_chain_id net log (provider w3)).

Definition eth_block_number (w3 : Web3) : M Z :=
  call (provider w3) ReqBlockNumber (fun log => net_block_number net log (provider w3)).

Definition eth_get_block (w3 : Web3) (n : Z) : M Block :=
  call (provider w3) (ReqGetBlock n) (fun log => net_get_block net log (provider w3) n).

(** [getattr(w3, "clientVersion", lambda: "unknown")()]: a [Web3] object
    that has [is_connected] has no attribute of that name, so the
    default is what is called. *)
Definition client_version (w3 : Web3) : string := "unknown".

(** [connect] (lines 34-51) *)
Definition connect (rpc : string) (timeout : Q) : M Web3 :=
  let w3 := {| provider := rpc; request_timeout := timeout |} in
  ok <- is_connected w3 ;;
  (if negb ok then print (FailedToConnect rpc) ;;; sys_exit 1 else ret tt) ;;;
  try_except
    (cid <- eth_chain_id w3 ;;
     head <- eth_block_number w3 ;;
     print (ConnectedTo cid head (client_version w3)))
    (fun e => print (ChainInfoFailed e)) ;;;
  ret w3.

(** [int(blk.get("baseFeePerGas", 0) or 0)] *)
Definition base_fee_wei (blk : Block) : Z := default 0%Z (baseFeePerGas blk).

Definition from_wei (number : Z) : M Q :=
  lift_option (from_wei_gwei number) "value must be between 1 and 2**256 - 1".

(** The body of the loop at lines 71-82. *)
Definition sample_block (w3 : Web3) (acc : list Q * Z) (n : Z) : M (list Q * Z) :=
  let '(base_fees, sampled) := acc in
  fetched <- try_except (blk <- eth_get_block w3 n ;; ret (Some blk))
                        (fun e => print (BlockFetchFailed n e) ;;; ret None) ;;
  match fetched with
  | None => ret (base_fees, sampled)
  | Some blk =>
      let bf_wei := base_fee_wei blk in
      if (bf_wei =? 0)%Z then ret (base_fees, sampled)
      else
        gwei <- from_wei bf_wei ;;
        ret (base_fees ++ [gwei], (sampled + 1)%Z)
  end.

(** [sample_base_fees] (lines 60-84) *)
Definition sample_base_fees (w3 : Web3) (blocks step : Z) : M (list Q * Z * Z * Z) :=
  head <- eth_block_number w3 ;;
  let start := Z.max 0 (head - blocks + 1) in
  print (SamplingRange start head step) ;;;
  rng <- lift_option (py_range head (start - 1) (- step)) "range() arg 3 must not be zero" ;;
  acc <- for_each (sample_block w3) rng ([], 0%Z) ;;
  ret (fst acc, head, start, snd acc).

(** The [try] block at lines 100-108. *)
Definition head_base_fee (w3 : Web3) (head : Z) : M (option Q) :=
  try_except
    (head_blk <- eth_get_block w3 head ;;
     gwei <- from_wei (base_fee_wei head_blk) ;;
     ret (Some gwei))
    (fun _ => ret None).

(** [analyze_endpoint] (lines 87-131) *)
Definition analyze_endpoint (rpc : string) (blocks step : Z) (timeout : Q) : M Endpoint :=
  w3 <- connect rpc timeout ;;
  chain_id <- eth_chain_id w3 ;;
  let client := client_version w3 in
  sampled4 <- sample_base_fees w3 blocks step ;;
  let '(base_fees, head, start, sampled) := sampled4 in
  (if (sampled =? 0)%Z then print (NoBaseFeeData rpc) else ret tt) ;;;
  head_bf_gwei <- head_base_fee w3 head ;;
  stats <- match base_fees with
           | [] => ret (0%Q, 0%Q, 0%Q)
           | _ :: _ =>
               med_bf <- lift_option (median base_fees) "no median for empty data" ;;
               min_bf <- lift_option (py_min base_fees) "min() arg is an empty sequence" ;;
               max_bf <- lift_option (py_max base_fees) "max() arg is an empty sequence" ;;
               ret (med_bf, min_bf, max_bf)
           end ;;
  let '(med_bf, min_bf, max_bf) := stats in
  ret {| rpcUrl := rpc;
         chainId := chain_id;
         network := network_name chain_id;
         clientVersion := client;
         head := head;
         start := start;
         requestedSpan := blocks;
         step := step;
         sampledBlocks := sampled;
         baseFeeMedianGwei := py_round med_bf 3;
         baseFeeMinGwei := py_round min_bf 3;
         baseFeeMaxGwei := py_round max_bf 3;
         headBaseFeeGwei := (fun x => py_round x 3) <$> head_bf_gwei;
         deviationPct := None;
         isOutlier := None |}.

End Program.

(** ** [group_by_chain] (lines 134-156) *)

(** A group refers to its members by their position in the caller's
    list: the dictionaries in a group are the caller's own objects. *)
Record Group : Type := {
  endpoints : list nat;
  globalMedianBaseFeeGwei : Q
}.

(** A dictionary keyed by chain id, in insertion order. *)
Definition Groups := list (Z * Group).

Definition has_key (cid : Z) (groups : Groups) : bool :=
  existsb (fun kv => (fst kv =? cid)%Z) groups.

(** [groups.setdefault(cid, grp)] *)
Definition setdefault (cid : Z) (grp : Group) (groups : Groups) : Groups :=
  if has_key cid groups then groups else groups ++ [(cid, grp)].

(** [groups[cid]["endpoints"].append(ep)]; the key is present, line 138
    has just made sure of it. *)
Definition append_member (cid : Z) (ep : nat) (groups : Groups) : Groups :=
  map (fun kv =>
         if (fst kv =? cid)%Z
         then (fst kv, {| endpoints := endpoints (snd kv) ++ [ep];
                          globalMedianBaseFeeGwei := globalMedianBaseFeeGwei (snd kv) |})
         else kv)
      groups.

(** The loop at lines 136-139; [i] is the position of the first element
    of [eps] in the caller's list. *)
Fixpoint collect (eps : list Endpoint) (i : nat) (groups : Groups) : Groups :=
  match eps with
  | [] => groups
  | ep :: rest =>
      let cid := chainId ep in
      let groups := setdefault cid {| endpoints := []; globalMedianBaseFeeGwei := 0 |} groups in
      collect rest (S i) (append_member cid i groups)
  end.

Definition set_annotation (dev : Q) (outlier : bool) (ep : Endpoint) : Endpoint :=
  {| rpcUrl := rpcUrl ep;
     chainId := chainId ep;
     network := network ep;
     clientVersion := clientVersion ep;
     head := head ep;
     start := start ep;
     requestedSpan := requestedSpan ep;
     step := step ep;
     sampledBlocks := sampledBlocks ep;
     baseFeeMedianGwei := baseFeeMedianGwei ep;
     baseFeeMinGwei := baseFeeMinGwei ep;
     baseFeeMaxGwei := baseFeeMaxGwei ep;
     headBaseFeeGwei := headBaseFeeGwei ep;
     deviationPct := Some dev;
     isOutlier := Some outlier |}.

(** Lines 143-147: the consensus of a group, before it is rounded. *)
Definition group_median (store : list Endpoint) (members : list nat) : Q :=
  let med_values :=
    List.filter (Qltb 0) (omap (fun i => baseFeeMedianGwei <$> store !! i) members) in
  match med_values with
  | [] => 0%Q
  | _ :: _ => default 0%Q (median med_values)
  end.

(** Lines 150-153: the deviation of a member, before it is rounded. *)
Definition deviation (g_med : Q) (ep : Endpoint) : Q :=
  if Qltb 0 g_med && Qltb 0 (baseFeeMedianGwei ep)
  then pct_diff (baseFeeMedianGwei ep) g_med
  else 0%Q.

(** Lines 150-155 for one member. *)
Definition annotate (g_med tolerance_pct : Q) (ep : Endpoint) : Endpoint :=
  let dev := deviation g_med ep in
  set_annotation (py_round dev 2) (Qle_bool tolerance_pct (Qabs dev)) ep.

(** The body of the loop at lines 142-155. *)
Definition process_group (tolerance_pct : Q) (store : list Endpoint) (grp : Group)
  : Group * list Endpoint :=
  let g_med := group_median store (endpoints grp) in
  ({| endpoints := endpoints grp; globalMedianBaseFeeGwei := py_round g_med 3 |},
   foldl (fun st i => alter (annotate g_med tolerance_pct) i st) store (endpoints grp)).

Fixpoint process_groups (tolerance_pct : Q) (groups : Groups) (store : list Endpoint)
  : Groups * list Endpoint :=
  match groups with
  | [] => ([], store)
  | (cid, grp) :: rest =>
      let '(grp', store') := process_group tolerance_pct store grp in
      let '(rest', store'') := process_groups tolerance_pct rest store' in
      ((cid, grp') :: rest', store'')
  end.

(** The result is the dictionary of groups and the caller's list as the
    call leaves it. *)
Definition group_by_chain (endpoints : list Endpoint) (tolerance_pct : Q)
  : Groups * list Endpoint :=
  process_groups tolerance_pct (collect endpoints 0 []) endpoints.

(** ** Command line, environment and [main] *)

Module PyStr.

(** A string is a sequence of code points below 256.  The white space
    that [str.strip] removes among these: U+0009 to U+000D, U+001C to
    U+0020, the next-line control U+0085 and the no-break space U+00A0. *)
Definition is_space (c : Ascii.ascii) : bool :=
  let n := Ascii.nat_of_ascii c in
  ((9 <=? n) && (n <=? 13) || (28 <=? n) && (n <=? 32) || (n =? 133) || (n =? 160))%nat.

Fixpoint lstrip (s : string) : string :=
  match s with
  | EmptyString => EmptyString
  | String c s' => if is_space c then lstrip s' else s
  end.

Definition strip (s : string) : string :=
  String.rev (lstrip (String.rev (lstrip s))).

(** [s.split(",")] *)
Fixpoint split_comma_go (cur : string) (s : string) : list string :=
  match s with
  | EmptyString => [String.rev cur]
  | String c s' =>
      if Ascii.eqb c (Ascii.ascii_of_nat 44) then String.rev cur :: split_comma_go EmptyString s'
      else split_comma_go (String c cur) s'
  end.

Definition split_comma (s : string) : list string := split_comma_go EmptyString s.

Definition nonempty (s : string) : bool :=
  match s with EmptyString => false | _ => true end.

End PyStr.

(** What [parse_args] returns (lines 159-204); [args_rpc] is [None] when
    no [--rpc] option is given. *)
Record Args : Type := {
  args_rpc : option (list string);
  args_blocks : Z;
  args_step : Z;
  args_tolerance_pct : Q;
  args_timeout : Q;
  args_json : bool
}.

(** [load_rpcs_from_env] (lines 207-211), from the value of [RPC_URLS]. *)
Definition load_rpcs_from_env (rpc_urls : string) : list string :=
  let env_val := PyStr.strip rpc_urls in
  if negb (PyStr.nonempty env_val) then []
  else map PyStr.strip
           (List.filter (fun chunk => PyStr.nonempty (PyStr.strip chunk))
                        (PyStr.split_comma env_val)).

(** Lines 221-227. *)
Definition rpc_list_of (args : Args) (rpc_urls : string) : list string :=
  let rpc_list :=
    match args_rpc args with
    | Some (r :: rs) => r :: rs
    | _ => load_rpcs_from_env rpc_urls
    end in
  map PyStr.strip
      (List.filter (fun r => PyStr.nonempty r && PyStr.nonempty (PyStr.strip r)) rpc_list).

Section Main.

Variable net : Network.

(** The body of the loop at lines 248-258.  [sys.exit] inside the
    analysis is not an [Exception]: line 255 lets it through. *)
Definition analyze_into (args : Args) (endpoints : list Endpoint) (rpc : string)
  : M (list Endpoint) :=
  try_except
    (ep_summary <- analyze_endpoint net rpc (args_blocks args) (args_step args)
                                    (args_timeout args) ;;
     ret (endpoints ++ [ep_summary]))
    (fun e => print (AnalyzeFailed rpc e) ;;; ret endpoints).

(** Lines 260-264. *)
Definition aggregate (args : Args) (endpoints : list Endpoint) : M (Groups * list Endpoint) :=
  (match endpoints with
   | [] => print NoEndpointsAnalyzed ;;; sys_exit 2
   | _ :: _ => ret tt
   end) ;;;
  ret (group_by_chain endpoints (args_tolerance_pct args)).

(** [main] (lines 214-265), up to the value handed to the renderer:
    the groups and the annotated summaries.  Rendering is not
    modelled. *)
Definition main (args : Args) (rpc_urls : string) : M (Groups * list Endpoint) :=
  (if (args_blocks args <=? 0)%Z || (args_step args <=? 0)%Z
   then print BadBlocksOrStep ;;; sys_exit 1 else ret tt) ;;;
  let rpc_list := rpc_list_of args rpc_urls in
  (match rpc_list with
   | [] => print NoRpcEndpoints ;;; sys_exit 1
   | _ :: _ => ret tt
   end) ;;;
  print (Starting (length rpc_list) (args_blocks args) (args_step args)
                  (args_tolerance_pct args)) ;;;
  endpoints <- for_each (analyze_into args) rpc_list [] ;;
  aggregate args endpoints.

End Main.

(** ** Reading the log *)

(** The block numbers requested from endpoint [rpc], in the order of the
    requests. *)
Definition fetched_blocks (rpc : string) (evs : Log) : list Z :=
  omap (fun ev =>
          match ev with
          | Net r (ReqGetBlock n) => if String.eqb r rpc then Some n else None
          | _ => None
          end) evs.

(** What holds of every summary that [analyze_endpoint] returns. *)
Definition summary_ok (s : Endpoint) : Prop :=
  (0 <= sampledBlocks s)%Z /\
  (0 <= baseFeeMedianGwei s)%Q /\
  (baseFeeMinGwei s <= baseFeeMedianGwei s <= baseFeeMaxGwei s)%Q /\
  ((sampledBlocks s = 0)%Z ->
   baseFeeMedianGwei s = py_round 0 3 /\ baseFeeMinGwei s = py_round 0 3 /\
   baseFeeMaxGwei s = py_round 0 3).

(** The positions at which [cid] occurs in a list of chain ids. *)
Definition positions (cids : list Z) (cid : Z) : list nat :=
  List.filter (fun i => match cids !! i with
                        | Some c => (c =? cid)%Z
                        | None => false
                        end)
              (seq 0 (length cids)).

(** The positions in [eps] of the endpoints on chain [cid]. *)
Definition members_of (eps : list Endpoint) (cid : Z) : list nat :=
  positions (map chainId eps) cid.

(** The consensus of chain [cid] among [eps], at full precision. *)
Definition consensus (eps : list Endpoint) (cid : Z) : Q :=
  group_median eps (members_of eps cid).

(** The two keys that [group_by_chain] writes. *)
Definition annotation (ep : Endpoint) : option Q * option bool :=
  (deviationPct ep, isOutlier ep).

(** The positions below [n] of the endpoints on chain [cid]: what the
    loop at lines 136-139 has put into the group of [cid] after [n]
    turns. *)
Definition seen (eps : list Endpoint) (cid : Z) (n : nat) : list nat :=
  List.filter (fun i => match map chainId eps !! i with
                        | Some c => (c =? cid)%Z
                        | None => false
                        end) (seq 0 n).

(** The state of that loop after [n] turns. *)
Definition collected (eps : list Endpoint) (n : nat) (groups : Groups) : Prop :=
  List.NoDup (map fst groups) /\
  (forall cid g, In (cid, g) groups -> endpoints g = seen eps cid n /\ endpoints g <> []) /\
  (forall i ep, (i < n)%nat -> eps !! i = Some ep -> In (chainId ep) (map fst groups)).

(** ** Sample inputs *)

Module Samples.

(** Every endpoint is on chain 1 at height 100, and block [n] has a
    base fee of [n] gwei. *)
Definition healthy : Network :=
  {| net_is_connected := fun _ _ => true;
     net_chain_id := fun _ _ => inr 1%Z;
     net_block_number := fun _ _ => inr 100%Z;
     net_get_block := fun _ _ n => inr {| baseFeePerGas := Some (n * 1000000000)%Z |} |}.

(** As [healthy], but endpoint ["a"] cannot be reached. *)
Definition a_unreachable : Network :=
  {| net_is_connected := fun _ rpc => negb (String.eqb rpc "a");
     net_chain_id := net_chain_id healthy;
     net_block_number := net_block_number healthy;
     net_get_block := net_get_block healthy |}.

(** As [healthy], but endpoint ["a"] does not give its chain id. *)
Definition a_anonymous : Network :=
  {| net_is_connected := fun _ _ => true;
     net_chain_id := fun _ rpc => if String.eqb rpc "a" then inl "timeout" else inr 1%Z;
     net_block_number := net_block_number healthy;
     net_get_block := net_get_block healthy |}.

(** No endpoint gives its chain id. *)
Definition all_anonymous : Network :=
  {| net_is_connected := fun _ _ => true;
     net_chain_id := fun _ _ => inl "timeout";
     net_block_number := net_block_number healthy;
     net_get_block := net_get_block healthy |}.

(** As [healthy], but a block that is requested a second time comes
    back with a base fee of -1. *)
Definition fickle : Network :=
  {| net_is_connected := fun _ _ => true;
     net_chain_id := fun _ _ => inr 1%Z;
     net_block_number := fun _ _ => inr 100%Z;
     net_get_block := fun log rpc n =>
       if existsb (Z.eqb n) (fetched_blocks rpc log)
       then inr {| baseFeePerGas := Some (-1)%Z |}
       else inr {| baseFeePerGas := Some (n * 1000000000)%Z |} |}.

(** As [healthy], but no block carries a base fee. *)
Definition feeless : Network :=
  {| net_is_connected := fun _ _ => true;
     net_chain_id := fun _ _ => inr 1%Z;
     net_block_number := fun _ _ => inr 100%Z;
     net_get_block := fun _ _ _ => inr {| baseFeePerGas := None |} |}.

(** As [healthy], but every block carries a base fee of [2**256] wei,
    one more than [from_wei] accepts. *)
Definition overpriced : Network :=
  {| net_is_connected := fun _ _ => true;
     net_chain_id := fun _ _ => inr 1%Z;
     net_block_number := fun _ _ => inr 100%Z;
     net_get_block := fun _ _ _ => inr {| baseFeePerGas := Some (2 ^ 256)%Z |} |}.

(** A summary on chain [cid] whose median, minimum and maximum are [m]. *)
Definition summary_with (cid : Z) (m : Q) : Endpoint :=
  {| rpcUrl := "a"; chainId := cid; network := network_name cid;
     clientVersion := "unknown"; head := 100; start := 100; requestedSpan := 1;
     step := 1; sampledBlocks := 1;
     baseFeeMedianGwei := m; baseFeeMinGwei := m; baseFeeMaxGwei := m;
     headBaseFeeGwei := Some m; deviationPct := None; isOutlier := None |}.

Definition args_of (rpcs : list string) (blocks step : Z) (tol : Q) : Args :=
  {| args_rpc := Some rpcs; args_blocks := blocks; args_step := step;
     args_tolerance_pct := tol; args_timeout := 20; args_json := true |}.

End Samples.

(** Decimal notation, for what [str] does to an integer. *)
From Stdlib Require DecimalZ DecimalPos.

(** ** Which endpoints a run talks to *)

(** Every request among [evs] goes to an endpoint in [allowed]. *)
Definition only_contacts (allowed : string -> Prop) (evs : Log) : Prop :=
  Forall (fun ev => match ev with
                    | Net rpc _ => allowed rpc
                    | Stderr _ => True
                    end) evs.

(** Whatever its outcome, the program [m] only adds to the log, and the
    requests it adds go to endpoints in [allowed]. *)
Definition confined {A} (allowed : string -> Prop) (m : M A) : Prop :=
  forall log r log',
    m log = (r, log') -> exists evs, log' = log ++ evs /\ only_contacts allowed evs.

(** The program [m] never ends by leaving the process. *)
Definition no_exit {A} (m : M A) : Prop :=
  forall log c log', m log <> (Raise (SystemExit c), log').

(** ** The report (lines 267-327) *)

(** What is written to the standard output, by source line.  The clock
    is read by the caller: [elapsed] is the rounded running time of
    line 265 and [now] the result of [utc_now]. *)
Record JsonGroup : Type := {
  json_chainId : Z;
  json_network : string;
  json_globalMedianBaseFeeGwei : Q;
  json_endpoints : list Endpoint
}.

Record Payload : Type := {
  generatedAtUtc : string;
  timingSec : Q;
  params_blocks : Z;
  params_step : Z;
  params_tolerancePct : Q;
  params_timeoutSec : Q;
  payload_groups : list (string * JsonGroup)
}.

Inductive OutLine : Type :=
| OutBlank                                             (* lines 294, 301, 320, 324 *)
| OutTitle (elapsed : Q)                               (* line 295 *)
| OutChain (name : string) (cid : Z)                   (* line 302 *)
| OutGroupMedian (g : Q)                               (* line 303 *)
| OutEndpoint (flag : bool) (rpc client : string)
              (sampled first last stride : Z)
              (med mn mx head_bf dev : Q)              (* lines 309-318 *)
| OutLegend                                            (* lines 321-323 *)
| OutNote                                              (* lines 325-326 *)
| OutFinished (now : string)                           (* line 327 *)
| OutJson (payload : Payload).                         (* line 290 *)

(** [grp["endpoints"]]: the dictionaries of the members. *)
Definition members (store : list Endpoint) (grp : Group) : list Endpoint :=
  omap (fun i => store !! i) (endpoints grp).

(** Lines 305-318 for one endpoint: the keys are read, then the whole
    text is formatted and printed at once.  A key that is missing
    raises [KeyError]; a head fee that is [None] cannot be formatted
    with [.3f] and raises [TypeError]. *)
Definition render_endpoint (ep : Endpoint) : string + OutLine :=
  match isOutlier ep with
  | None => inl "KeyError: 'isOutlier'"
  | Some outlier =>
      match deviationPct ep with
      | None => inl "KeyError: 'deviationPct'"
      | Some dev =>
          match headBaseFeeGwei ep with
          | None => inl "TypeError: unsupported format string passed to NoneType.__format__"
          | Some head_bf =>
              inr (OutEndpoint outlier (rpcUrl ep) (clientVersion ep)
                               (sampledBlocks ep) (start ep) (head ep) (step ep)
                               (baseFeeMedianGwei ep) (baseFeeMinGwei ep) (baseFeeMaxGwei ep)
                               head_bf dev)
          end
      end
  end.

(** The loop at lines 304-318: what was printed, and the exception that
    stopped the loop, if any. *)
Fixpoint render_endpoints (eps : list Endpoint) : list OutLine * option string :=
  match eps with
  | [] => ([], None)
  | ep :: rest =>
      match render_endpoint ep with
      | inl e => ([], Some e)
      | inr line =>
          let '(lines, err) := render_endpoints rest in (line :: lines, err)
      end
  end.

(** The loop at lines 296-318. *)
Fixpoint render_groups (store : list Endpoint) (groups : Groups) : list OutLine * option string :=
  match groups with
  | [] => ([], None)
  | (cid, grp) :: rest =>
      match members store grp with
      | [] => render_groups store rest
      | eps =>
          let header := [OutBlank; OutChain (network_name cid) cid;
                         OutGroupMedian (globalMedianBaseFeeGwei grp)] in
          match render_endpoints eps with
          | (lines, Some e) => (header ++ lines, Some e)
          | (lines, None) =>
              let '(more, err) := render_groups store rest in
              (header ++ lines ++ more, err)
          end
      end
  end.

(** Lines 293-327: the human-readable report. *)
Definition render_text (elapsed : Q) (now : string) (report : Groups * list Endpoint)
  : list OutLine * option string :=
  let '(groups, store) := report in
  match render_groups store groups with
  | (lines, Some e) => ([OutBlank; OutTitle elapsed] ++ lines, Some e)
  | (lines, None) =>
      ([OutBlank; OutTitle elapsed] ++ lines
         ++ [OutBlank; OutLegend; OutBlank; OutNote; OutFinished now], None)
  end.

(** Lines 268-289: the payload of the JSON report. *)
Definition payload (elapsed : Q) (now : string) (args : Args) (report : Groups * list Endpoint)
  : Payload :=
  let '(groups, store) := report in
  {| generatedAtUtc := now;
     timingSec := elapsed;
     params_blocks := args_blocks args;
     params_step := args_step args;
     params_tolerancePct := args_tolerance_pct args;
     params_timeoutSec := args_timeout args;
     payload_groups :=
       map (fun kv =>
              let '(cid, grp) := kv in
              (str_of_Z cid,
               {| json_chainId := cid;
                  json_network := match members store grp with
                                  | ep :: _ => network ep
                                  | [] => network_name cid
                                  end;
                  json_globalMedianBaseFeeGwei := globalMedianBaseFeeGwei grp;
                  json_endpoints := members store grp |}))
           groups |}.

(** Lines 267-327. *)
Definition render (elapsed : Q) (now : string) (args : Args) (report : Groups * list Endpoint)
  : list OutLine * option string :=
  if args_json args then ([OutJson (payload elapsed now args report)], None)
  else render_text elapsed now report.

Module MoreSamples.

(** As [Samples.healthy], but the block at the head cannot be fetched. *)
Definition headless : Network :=
  {| net_is_connected := fun _ _ => true;
     net_chain_id := fun _ _ => inr 1%Z;
     net_block_number := fun _ _ => inr 100%Z;
     net_get_block := fun _ _ n =>
       if (n =? 100)%Z then inl "timeout"
       else inr {| baseFeePerGas := Some (n * 1000000000)%Z |} |}.

End MoreSamples.

(** ** The order of the groups *)

(** The keys that the loop at lines 136-139 creates for a list of chain
    ids, in the order in which [setdefault] inserts them. *)
Fixpoint first_seen (cids : list Z) : list Z :=
  match cids with
  | [] => []
  | c :: rest => c :: List.filter (fun d => negb (d =? c)%Z) (first_seen rest)
  end.

(** Binary64 numbers: the primitive floats and their specification. *)
From Stdlib Require Floats.

(** * The grouping pass in binary64 arithmetic

    At the boundary of the tolerance, and where a value lies half way
    between two decimals, the outcome of lines 142-155 depends on the
    rounding of every single operation.  This part models the pass,
    with [pct_diff], [statistics.median] and [round], over IEEE 754
    binary64 numbers, which are Python's [float]: the operations are
    those of the kernel's primitive floats, and the statements about
    flags and reported numbers are made here.  The summaries are
    arbitrary; [analyzed] singles out those whose median is computed
    as lines 81, 113-118 and 128 compute it. *)

Module Binary64.

Import PrimFloat SpecFloat FloatOps.
Local Open Scope float_scope.

(** A float, as its specification sees it, is not negative: a zero, a
    positive number or plus infinity. *)
Definition SFnonneg (x : spec_float) : Prop :=
  match x with
  | S754_zero _ | S754_infinity false | S754_finite false _ _ => True
  | _ => False
  end.

(** The float nearest to [n / d], ties to even: what [float] makes of
    a decimal numeral. *)
Definition of_ratio (n : Z) (d : positive) : float :=
  match n with
  | Z0 => 0
  | Zpos p => SF2Prim (SFdiv prec emax (S754_finite false p 0) (S754_finite false d 0))
  | Zneg p => SF2Prim (SFdiv prec emax (S754_finite true p 0) (S754_finite false d 0))
  end.

(** [round(x, ndigits)] on a float, for [ndigits >= 0]: the exact value
    of [x] is rounded to [ndigits] decimals, ties to even, and the
    decimal is read back as a float; the sign is kept when the result
    is zero; zeros, infinities and NaN are returned as they are. *)
Definition py_round (x : float) (ndigits : nat) : float :=
  match Prim2SF x with
  | S754_finite s m e =>
      let scale := PyNum.pow10 ndigits in
      let magnitude := (inject_Z (Zpos m) * Qpower 2 e * inject_Z (Zpos scale))%Q in
      match PyNum.round_half_even magnitude with
      | Zpos k =>
          SF2Prim (SFdiv prec emax (S754_finite s k 0) (S754_finite false scale 0))
      | _ => if s then (- 0) else 0
      end
  | _ => x
  end.

(** [sorted(data)]: a stable sort that compares with [<] only. *)
Fixpoint insert_sorted (x : float) (l : list float) : list float :=
  match l with
  | [] => [x]
  | y :: l' => if y <? x then y :: insert_sorted x l' else x :: l
  end.

Definition sorted (data : list float) : list float := fold_right insert_sorted [] data.

(** [statistics.median]; [None] stands for [StatisticsError]. *)
Definition median (data : list float) : option float :=
  let data := sorted data in
  let n := length data in
  if Nat.eqb n 0 then None
  else if Nat.eqb (n mod 2) 1 then data !! (n / 2)%nat
  else
    let i := (n / 2)%nat in
    match data !! (i - 1)%nat, data !! i with
    | Some a, Some b => Some ((a + b) / 2)
    | _, _ => None
    end.

(** [pct_diff] (lines 54-57) *)
Definition pct_diff (a b : float) : float :=
  if b =? 0 then 0 else (a - b) / b * 100.

(** The float [100.0]. *)
Definition hundred : float := 100.

(** An endpoint summary, as in the first part, with floats. *)
Record Endpoint : Type := {
  rpcUrl : string;
  chainId : Z;
  network : string;
  clientVersion : string;
  head : Z;
  start : Z;
  requestedSpan : Z;
  step : Z;
  sampledBlocks : Z;
  baseFeeMedianGwei : float;
  baseFeeMinGwei : float;
  baseFeeMaxGwei : float;
  headBaseFeeGwei : option float;
  deviationPct : option float;
  isOutlier : option bool
}.

Record Group : Type := {
  endpoints : list nat;
  globalMedianBaseFeeGwei : float
}.

Definition Groups := list (Z * Group).

Definition has_key (cid : Z) (groups : Groups) : bool :=
  existsb (fun kv => (fst kv =? cid)%Z) groups.

(** [groups.setdefault(cid, grp)] *)
Definition setdefault (cid : Z) (grp : Group) (groups : Groups) : Groups :=
  if has_key cid groups then groups else groups ++ [(cid, grp)].

(** [groups[cid]["endpoints"].append(ep)] *)
Definition append_member (cid : Z) (ep : nat) (groups : Groups) : Groups :=
  map (fun kv =>
         if (fst kv =? cid)%Z
         then (fst kv, {| endpoints := endpoints (snd kv) ++ [ep];
                          globalMedianBaseFeeGwei := globalMedianBaseFeeGwei (snd kv) |})
         else kv)
      groups.

(** The loop at lines 136-139; [i] is the position of the first element
    of [eps] in the caller's list. *)
Fixpoint collect (eps : list Endpoint) (i : nat) (groups : Groups) : Groups :=
  match eps with
  | [] => groups
  | ep :: rest =>
      let cid := chainId ep in
      let groups := setdefault cid {| endpoints := []; globalMedianBaseFeeGwei := 0 |} groups in
      collect rest (S i) (append_member cid i groups)
  end.

Definition set_annotation (dev : float) (outlier : bool) (ep : Endpoint) : Endpoint :=
  {| rpcUrl := rpcUrl ep;
     chainId := chainId ep;
     network := network ep;
     clientVersion := clientVersion ep;
     head := head ep;
     start := start ep;
     requestedSpan := requestedSpan ep;
     step := step ep;
     sampledBlocks := sampledBlocks ep;
     baseFeeMedianGwei := baseFeeMedianGwei ep;
     baseFeeMinGwei := baseFeeMinGwei ep;
     baseFeeMaxGwei := baseFeeMaxGwei ep;
     headBaseFeeGwei := headBaseFeeGwei ep;
     deviationPct := Some dev;
     isOutlier := Some outlier |}.

(** Lines 143-147: the consensus of a group, before it is rounded. *)
Definition group_median (store : list Endpoint) (members : list nat) : float :=
  let med_values :=
    List.filter (fun m => 0 <? m) (omap (fun i => baseFeeMedianGwei <$> store !! i) members) in
  match med_values with
  | [] => 0
  | _ :: _ => default 0 (median med_values)
  end.

(** Lines 150-153: the deviation of a member, before it is rounded. *)
Definition deviation (g_med : float) (ep : Endpoint) : float :=
  if (0 <? g_med) && (0 <? baseFeeMedianGwei ep)
  then pct_diff (baseFeeMedianGwei ep) g_med
  else 0.

(** Lines 150-155 for one member. *)
Definition annotate (g_med tolerance_pct : float) (ep : Endpoint) : Endpoint :=
  let dev := deviation g_med ep in
  set_annotation (py_round dev 2) (tolerance_pct <=? abs dev) ep.

(** The body of the loop at lines 142-155. *)
Definition process_group (tolerance_pct : float) (store : list Endpoint) (grp : Group)
  : Group * list Endpoint :=
  let g_med := group_median store (endpoints grp) in
  ({| endpoints := endpoints grp; globalMedianBaseFeeGwei := py_round g_med 3 |},
   foldl (fun st i => alter (annotate g_med tolerance_pct) i st) store (endpoints grp)).

Fixpoint process_groups (tolerance_pct : float) (groups : Groups) (store : list Endpoint)
  : Groups * list Endpoint :=
  match groups with
  | [] => ([], store)
  | (cid, grp) :: rest =>
      let '(grp', store') := process_group tolerance_pct store grp in
      let '(rest', store'') := process_groups tolerance_pct rest store' in
      ((cid, grp') :: rest', store'')
  end.

(** [group_by_chain] (lines 134-156): the groups, and the caller's list
    as the call leaves it. *)
Definition group_by_chain (endpoints : list Endpoint) (tolerance_pct : float)
  : Groups * list Endpoint :=
  process_groups tolerance_pct (collect endpoints 0 []) endpoints.

(** The positions in [eps] of the endpoints on chain [cid]. *)
Definition members_of (eps : list Endpoint) (cid : Z) : list nat :=
  positions (map chainId eps) cid.

(** The consensus of chain [cid] among [eps], before it is rounded. *)
Definition consensus (eps : list Endpoint) (cid : Z) : float :=
  group_median eps (members_of eps cid).

(** The state of the loop at lines 136-139 after [n] turns. *)
Definition seen (eps : list Endpoint) (cid : Z) (n : nat) : list nat :=
  List.filter (fun i => match map chainId eps !! i with
                        | Some c => (c =? cid)%Z
                        | None => false
                        end) (seq 0 n).

Definition collected (eps : list Endpoint) (n : nat) (groups : Groups) : Prop :=
  List.NoDup (map fst groups) /\
  (forall cid g, In (cid, g) groups -> endpoints g = seen eps cid n /\ endpoints g <> []) /\
  (forall i ep, (i < n)%nat -> eps !! i = Some ep -> In (chainId ep) (map fst groups)).

(** [float(Web3.from_wei(number, "gwei"))] (line 81); [None] where
    [from_wei] raises. *)
Definition from_wei_gwei (number : Z) : option float :=
  if (number =? 0)%Z then Some 0
  else if (number <? 0)%Z || (MAX_WEI <? number)%Z then None
  else Some (of_ratio number 1000000000).

(** Lines 113-118 and 128: the median that a summary carries, from the
    fees that the sampler has returned. *)
Definition summary_median (base_fees : list float) : float :=
  match base_fees with
  | [] => py_round 0 3
  | _ :: _ => py_round (default 0 (median base_fees)) 3
  end.

(** A summary whose median is the one that [analyze_endpoint] computes
    from the fees of some blocks: fees that are not zero (line 78) and
    that [from_wei] has converted (line 81). *)
Definition analyzed (ep : Endpoint) : Prop :=
  exists fees_wei : list Z,
    Forall (fun wei => wei <> 0%Z /\ is_Some (from_wei_gwei wei)) fees_wei /\
    baseFeeMedianGwei ep = summary_median (omap from_wei_gwei fees_wei).

(** A summary on chain [cid] whose median, minimum and maximum are the
    float that the numeral [n / 1000] denotes. *)
Definition summary_with (cid : Z) (n : Z) : Endpoint :=
  let m := of_ratio n 1000 in
  {| rpcUrl := "a"; chainId := cid; network := network_name cid;
     clientVersion := "unknown"; head := 100; start := 100; requestedSpan := 1;
     step := 1; sampledBlocks := 1;
     baseFeeMedianGwei := m; baseFeeMinGwei := m; baseFeeMaxGwei := m;
     headBaseFeeGwei := Some m; deviationPct := None; isOutlier := None |}.

End Binary64.
(** * Properties *)

(** ** The program monad *)

Lemma bind_Ret_inv {A B} (m : M A) (k : A -> M B) log b log' :
  bind m k log = (Ret b, log') ->
  exists a log1, m log = (Ret a, log1) /\ k a log1 = (Ret b, log').
Proof.
  unfold bind. destruct (m log) as [[a|e] log1]; intros H; [eauto | discriminate].
Qed.

Lemma bind_Ret {A B} (m : M A) (k : A -> M B) log a log1 :
  m log = (Ret a, log1) -> bind m k log = k a log1.
Proof. unfold bind. intros ->. reflexivity. Qed.

Lemma bind_Raise {A B} (m : M A) (k : A -> M B) log e log1 :
  m log = (Raise e, log1) -> bind m k log = (Raise e, log1).
Proof. unfold bind. intros ->. reflexivity. Qed.

Lemma for_each_app {A B} (body : A -> B -> M A) xs ys acc :
  forall log,
    for_each body (xs ++ ys) acc log
    = bind (for_each body xs acc) (fun acc' => for_each body ys acc') log.
Proof.
  revert acc. induction xs as [|x xs IH]; intros acc log; simpl.
  - reflexivity.
  - unfold bind. destruct (body acc x log) as [[a|e] log1]; [|reflexivity].
    rewrite IH. reflexivity.
Qed.

Section MainFacts.

Variable net : Network.

Lemma analyze_into_Ret args acc r log s log1 :
  analyze_endpoint net r (args_blocks args) (args_step args) (args_timeout args) log
  = (Ret s, log1) ->
  analyze_into net args acc r log = (Ret (acc ++ [s]), log1).
Proof. intros H. unfold analyze_into, try_except. rewrite (bind_Ret _ _ _ _ _ H). reflexivity. Qed.

Lemma analyze_into_Exception args acc r log e log1 :
  analyze_endpoint net r (args_blocks args) (args_step args) (args_timeout args) log
  = (Raise (Exception e), log1) ->
  analyze_into net args acc r log = (Ret acc, log1 ++ [Stderr (AnalyzeFailed r e)]).
Proof. intros H. unfold analyze_into, try_except. rewrite (bind_Raise _ _ _ _ _ H). reflexivity. Qed.

Lemma analyze_into_SystemExit args acc r log c log1 :
  analyze_endpoint net r (args_blocks args) (args_step args) (args_timeout args) log
  = (Raise (SystemExit c), log1) ->
  analyze_into net args acc r log = (Raise (SystemExit c), log1).
Proof. intros H. unfold analyze_into, try_except. rewrite (bind_Raise _ _ _ _ _ H). reflexivity. Qed.

Lemma analyze_unreachable r blocks step timeout log :
  net_is_connected net log r = false ->
  analyze_endpoint net r blocks step timeout log
  = (Raise (SystemExit 1), log ++ [Net r ReqIsConnected] ++ [Stderr (FailedToConnect r)]).
Proof.
  intros H. unfold analyze_endpoint, connect, bind, is_connected, call. simpl.
  rewrite H. simpl. unfold print, sys_exit, raise. rewrite <- app_assoc. reflexivity.
Qed.

End MainFacts.

(** ** Numbers *)

Lemma Qltb_lt (a b : Q) : Qltb a b = true <-> (a < b)%Q.
Proof.
  unfold Qltb. rewrite negb_true_iff. split.
  - intros H. apply Qnot_le_lt. intros Hle. apply Qle_bool_iff in Hle. congruence.
  - intros H. destruct (Qle_bool b a) eqn:E; [|reflexivity].
    apply Qle_bool_iff in E. exfalso. exact (Qlt_not_le _ _ H E).
Qed.

Lemma Qltb_ge (a b : Q) : Qltb a b = false <-> (b <= a)%Q.
Proof.
  unfold Qltb. rewrite negb_false_iff. apply Qle_bool_iff.
Qed.

Lemma round_half_even_bounds (y : Q) :
  (Qfloor y <= round_half_even y <= Qfloor y + 1)%Z.
Proof.
  unfold round_half_even.
  destruct (y - inject_Z (Qfloor y) ?= 1 # 2)%Q; [destruct (Z.even (Qfloor y))| |]; lia.
Qed.

Lemma round_half_even_mono (x y : Q) :
  (x <= y)%Q -> (round_half_even x <= round_half_even y)%Z.
Proof.
  intros Hxy.
  pose proof (Qfloor_resp_le x y Hxy) as Hf.
  pose proof (round_half_even_bounds x) as Bx.
  pose proof (round_half_even_bounds y) as By.
  destruct (Z.eq_dec (Qfloor x) (Qfloor y)) as [E|NE]; [|lia].
  clear Bx By. unfold round_half_even. rewrite <- E.
  destruct (Qcompare_spec (x - inject_Z (Qfloor x)) (1 # 2)) as [Hx|Hx|Hx];
    destruct (Qcompare_spec (y - inject_Z (Qfloor x)) (1 # 2)) as [Hy|Hy|Hy];
    try destruct (Z.even (Qfloor x)); try lia; exfalso; lra.
Qed.

Lemma py_round_mono (x y : Q) (n : nat) :
  (x <= y)%Q -> (py_round x n <= py_round y n)%Q.
Proof.
  intros Hxy. unfold py_round, Qle. simpl.
  apply Z.mul_le_mono_nonneg_r; [lia|].
  apply round_half_even_mono.
  apply Qmult_le_compat_r; [exact Hxy|].
  unfold Qle. simpl. lia.
Qed.

Lemma py_round_nonneg (x : Q) (n : nat) : (0 <= x)%Q -> (0 <= py_round x n)%Q.
Proof.
  intros Hx. unfold py_round, Qle. simpl. rewrite Z.mul_1_r.
  assert (0 <= x * inject_Z (Z.pos (pow10 n)))%Q as H.
  { apply Qmult_le_0_compat; [exact Hx|]. unfold Qle. simpl. lia. }
  pose proof (round_half_even_mono 0 _ H) as H'. exact H'.
Qed.

Lemma In_insert_sorted (x y : Q) (l : list Q) :
  In y (insert_sorted x l) <-> y = x \/ In y l.
Proof.
  induction l as [|z l IH]; simpl.
  - intuition.
  - destruct (Qle_bool x z); simpl; [intuition|]. rewrite IH. intuition.
Qed.

Lemma In_sorted (y : Q) (l : list Q) : In y (sorted l) <-> In y l.
Proof.
  induction l as [|x l IH]; simpl; [tauto|].
  rewrite In_insert_sorted, IH. intuition.
Qed.

Lemma length_insert_sorted (x : Q) (l : list Q) :
  length (insert_sorted x l) = S (length l).
Proof.
  induction l as [|z l IH]; simpl; [reflexivity|].
  destruct (Qle_bool x z); simpl; congruence.
Qed.

Lemma length_sorted (l : list Q) : length (sorted l) = length l.
Proof.
  induction l as [|x l IH]; simpl; [reflexivity|].
  rewrite length_insert_sorted. congruence.
Qed.

(** The median of a non-empty list exists and lies within any bounds
    that hold for all the elements. *)
Lemma median_between (l : list Q) (a b : Q) :
  l <> [] ->
  (forall x, In x l -> (a <= x <= b)%Q) ->
  exists m, median l = Some m /\ (a <= m <= b)%Q.
Proof.
  intros Hne Hall. unfold median.
  pose proof (length_sorted l) as Hlen.
  assert (Hall' : forall i x, sorted l !! i = Some x -> (a <= x <= b)%Q).
  { intros i x Hi. apply Hall, In_sorted. apply list_elem_of_In.
    apply list_elem_of_lookup. eauto. }
  set (s := sorted l) in *. set (n := length s) in *.
  assert (0 < n)%nat as Hn by (rewrite Hlen; destruct l; simpl; [congruence|lia]).
  destruct (Nat.eqb_spec n 0) as [|_]; [lia|].
  assert (n / 2 < n)%nat as Hhalf by (apply Nat.Div0.div_lt_upper_bound; lia).
  destruct (lookup_lt_is_Some_2 s (n / 2)%nat Hhalf) as [xb Hb].
  destruct (Nat.eqb_spec (n mod 2) 1) as [_|_].
  - exists xb. split; [exact Hb|]. eauto.
  - assert (n / 2 - 1 < n)%nat as Hhalf' by lia.
    destruct (lookup_lt_is_Some_2 s (n / 2 - 1)%nat Hhalf') as [xa Ha].
    rewrite Ha, Hb. eexists. split; [reflexivity|].
    pose proof (Hall' _ _ Ha). pose proof (Hall' _ _ Hb).
    split.
    + apply Qle_shift_div_l; lra.
    + apply Qle_shift_div_r; lra.
Qed.

(** When every element is positive, so is the median. *)
Lemma median_positive (l : list Q) (m : Q) :
  (forall x, In x l -> (0 < x)%Q) -> median l = Some m -> (0 < m)%Q.
Proof.
  intros Hall. unfold median.
  assert (Hall' : forall i x, sorted l !! i = Some x -> (0 < x)%Q).
  { intros i x Hi. apply Hall, In_sorted. apply list_elem_of_In.
    apply list_elem_of_lookup. eauto. }
  destruct (length (sorted l) =? 0)%nat; [discriminate|].
  destruct (length (sorted l) mod 2 =? 1)%nat.
  - intros H. eauto.
  - destruct (sorted l !! (length (sorted l) / 2 - 1)%nat) as [xa|] eqn:Ha; [|discriminate].
    destruct (sorted l !! (length (sorted l) / 2)%nat) as [xb|] eqn:Hb; [|discriminate].
    intros [= <-]. pose proof (Hall' _ _ Ha). pose proof (Hall' _ _ Hb).
    apply Qlt_shift_div_l; lra.
Qed.

Lemma fold_min_spec (rest : list Q) (x : Q) :
  let m := fold_left (fun m y => if Qltb y m then y else m) rest x in
  In m (x :: rest) /\ forall y, In y (x :: rest) -> (m <= y)%Q.
Proof.
  revert x. induction rest as [|z rest IH]; intros x; simpl.
  - split; [by left|]. intros y [<-|[]]. lra.
  - destruct (IH (if Qltb z x then z else x)) as [Hin Hle].
    split.
    + destruct Hin as [Hin|Hin]; [|by right; right].
      rewrite <- Hin. destruct (Qltb z x); [right; by left | by left].
    + intros y Hy.
      assert (forall w, (w <= (if Qltb z x then z else x))%Q -> (w <= x)%Q /\ (w <= z)%Q) as Hw.
      { intros w Hw. destruct (Qltb z x) eqn:E.
        - apply Qltb_lt in E. split; lra.
        - apply Qltb_ge in E. split; lra. }
      pose proof (Hle _ (or_introl eq_refl)) as H0. apply Hw in H0 as [H1 H2].
      destruct Hy as [<-|[<-|Hy]]; [exact H1 | exact H2 |].
      apply Hle. by right.
Qed.

Lemma fold_max_spec (rest : list Q) (x : Q) :
  let m := fold_left (fun m y => if Qltb m y then y else m) rest x in
  In m (x :: rest) /\ forall y, In y (x :: rest) -> (y <= m)%Q.
Proof.
  revert x. induction rest as [|z rest IH]; intros x; simpl.
  - split; [by left|]. intros y [<-|[]]. lra.
  - destruct (IH (if Qltb x z then z else x)) as [Hin Hle].
    split.
    + destruct Hin as [Hin|Hin]; [|by right; right].
      rewrite <- Hin. destruct (Qltb x z); [right; by left | by left].
    + intros y Hy.
      assert (forall w, ((if Qltb x z then z else x) <= w)%Q -> (x <= w)%Q /\ (z <= w)%Q) as Hw.
      { intros w Hw. destruct (Qltb x z) eqn:E.
        - apply Qltb_lt in E. split; lra.
        - apply Qltb_ge in E. split; lra. }
      pose proof (Hle _ (or_introl eq_refl)) as H0. apply Hw in H0 as [H1 H2].
      destruct Hy as [<-|[<-|Hy]]; [exact H1 | exact H2 |].
      apply Hle. by right.
Qed.

Lemma py_min_spec (l : list Q) (m : Q) :
  py_min l = Some m -> In m l /\ forall y, In y l -> (m <= y)%Q.
Proof.
  destruct l as [|x rest]; [discriminate|]. intros [= <-]. apply fold_min_spec.
Qed.

Lemma py_max_spec (l : list Q) (m : Q) :
  py_max l = Some m -> In m l /\ forall y, In y l -> (y <= m)%Q.
Proof.
  destruct l as [|x rest]; [discriminate|]. intros [= <-]. apply fold_max_spec.
Qed.

(** ** The sampler *)

Lemma fetched_blocks_app rpc (xs ys : Log) :
  fetched_blocks rpc (xs ++ ys) = fetched_blocks rpc xs ++ fetched_blocks rpc ys.
Proof. unfold fetched_blocks. apply omap_app. Qed.

Lemma from_wei_gwei_positive (n : Z) (q : Q) :
  n <> 0%Z -> from_wei_gwei n = Some q -> (0 < q)%Q.
Proof.
  unfold from_wei_gwei. intros Hn.
  destruct (Z.eqb_spec n 0); [contradiction|].
  destruct (Z.ltb_spec n 0); simpl; [discriminate|].
  destruct (MAX_WEI <? n)%Z; [discriminate|].
  intros [= <-]. unfold Qlt. simpl. lia.
Qed.

Section SamplerFacts.

Variable net : Network.
Variable w3 : Web3.

(** One turn of the loop: exactly one request, for block [n], and
    either the accumulator grows by at most one positive observation or
    the conversion of the fee has raised. *)
Lemma sample_block_spec base_fees sampled n log r log1 :
  sample_block net w3 (base_fees, sampled) n log = (r, log1) ->
  exists evs,
    log1 = log ++ evs /\ fetched_blocks (provider w3) evs = [n] /\
    match r with
    | Ret (base_fees', sampled') =>
        exists new, base_fees' = base_fees ++ new /\
                    sampled' = (sampled + Z.of_nat (length new))%Z /\
                    Forall (fun q => (0 < q)%Q) new
    | Raise e =>
        exists blk, net_get_block net log (provider w3) n = inr blk /\
                    from_wei_gwei (base_fee_wei blk) = None
    end.
Proof.
  unfold sample_block, try_except, bind, eth_get_block, call, from_wei, lift_option.
  assert (Hf : forall tl, fetched_blocks (provider w3) (Net (provider w3) (ReqGetBlock n) :: tl)
                          = n :: fetched_blocks (provider w3) tl).
  { intros tl. unfold fetched_blocks. simpl. by rewrite String.eqb_refl. }
  destruct (net_get_block net log (provider w3) n) as [e|blk] eqn:Hget.
  - unfold print, ret. intros [= <- <-].
    exists [Net (provider w3) (ReqGetBlock n); Stderr (BlockFetchFailed n e)].
    split; [by rewrite <- app_assoc|]. split; [by rewrite Hf|].
    exists []. rewrite app_nil_r. split; [done|]. split; [simpl; lia|constructor].
  - unfold ret. destruct (Z.eqb_spec (base_fee_wei blk) 0) as [Hz|Hnz].
    + intros [= <- <-]. exists [Net (provider w3) (ReqGetBlock n)].
      split; [done|]. split; [by rewrite Hf|].
      exists []. rewrite app_nil_r. split; [done|]. split; [simpl; lia|constructor].
    + destruct (from_wei_gwei (base_fee_wei blk)) as [q|] eqn:Hq; unfold ret, raise.
      * intros [= <- <-]. exists [Net (provider w3) (ReqGetBlock n)].
        split; [done|]. split; [by rewrite Hf|].
        exists [q]. split; [done|]. split; [simpl; lia|].
        constructor; [|constructor]. eapply from_wei_gwei_positive; eauto.
      * intros [= <- <-]. exists [Net (provider w3) (ReqGetBlock n)].
        split; [done|]. split; [by rewrite Hf|]. eauto.
Qed.

Lemma sample_loop_Ret rng :
  forall base_fees sampled log base_fees' sampled' log',
    for_each (sample_block net w3) rng (base_fees, sampled) log
    = (Ret (base_fees', sampled'), log') ->
    exists evs new,
      log' = log ++ evs /\ fetched_blocks (provider w3) evs = rng /\
      base_fees' = base_fees ++ new /\
      sampled' = (sampled + Z.of_nat (length new))%Z /\
      Forall (fun q => (0 < q)%Q) new.
Proof.
  induction rng as [|n rng IH]; simpl; intros bf s log bf' s' log' H.
  - inversion H; subst. exists [], []. rewrite !app_nil_r.
    repeat split; [simpl; lia | constructor].
  - apply bind_Ret_inv in H as ([bf1 s1] & log1 & H1 & H2).
    apply sample_block_spec in H1 as (evs1 & -> & Hf1 & new1 & -> & -> & Hpos1).
    apply IH in H2 as (evs2 & new2 & -> & Hf2 & -> & -> & Hpos2).
    exists (evs1 ++ evs2), (new1 ++ new2).
    rewrite fetched_blocks_app, Hf1, Hf2, !app_assoc, length_app.
    repeat split; [lia | by apply Forall_app].
Qed.

(** A turn of the loop that raises has asked for block [n], has got
    it, and could not convert its fee. *)
Lemma sample_block_Raise base_fees sampled n log e log1 :
  sample_block net w3 (base_fees, sampled) n log = (Raise e, log1) ->
  log1 = log ++ [Net (provider w3) (ReqGetBlock n)] /\
  e = Exception "value must be between 1 and 2**256 - 1" /\
  exists blk, net_get_block net log (provider w3) n = inr blk /\
              base_fee_wei blk <> 0%Z /\
              from_wei_gwei (base_fee_wei blk) = None.
Proof.
  unfold sample_block, try_except, bind, eth_get_block, call, from_wei, lift_option.
  destruct (net_get_block net log (provider w3) n) as [msg|blk] eqn:Hget.
  - unfold print, ret. discriminate.
  - unfold ret. destruct (Z.eqb_spec (base_fee_wei blk) 0) as [Hz|Hnz]; [discriminate|].
    destruct (from_wei_gwei (base_fee_wei blk)) as [q|] eqn:Hq; unfold ret, raise;
      [discriminate|].
    intros [= <- <-]. split; [done|]. split; [done|]. by exists blk.
Qed.

(** The loop, whatever its outcome: the blocks are requested in the
    order of the range, once each; a loop that returns has gone through
    the whole range, and a loop that raises has stopped at the first
    block whose fee could not be converted. *)
Lemma sample_loop_trace rng :
  forall base_fees sampled log r log',
    for_each (sample_block net w3) rng (base_fees, sampled) log = (r, log') ->
    exists evs,
      log' = log ++ evs /\
      match r with
      | Ret _ => fetched_blocks (provider w3) evs = rng
      | Raise e =>
          exists pre n rest evs0 blk,
            rng = pre ++ n :: rest /\
            fetched_blocks (provider w3) evs = pre ++ [n] /\
            evs = evs0 ++ [Net (provider w3) (ReqGetBlock n)] /\
            net_get_block net (log ++ evs0) (provider w3) n = inr blk /\
            base_fee_wei blk <> 0%Z /\
            from_wei_gwei (base_fee_wei blk) = None /\
            e = Exception "value must be between 1 and 2**256 - 1"
      end.
Proof.
  induction rng as [|n rng IH]; simpl; intros bf s log r log' H.
  - inversion H; subst. exists []. by rewrite app_nil_r.
  - destruct (sample_block net w3 (bf, s) n log) as [[[bf1 s1]|e] log1] eqn:H1.
    + rewrite (bind_Ret _ _ _ _ _ H1) in H.
      apply sample_block_spec in H1 as (evs1 & -> & Hf1 & _).
      apply IH in H as (evs2 & -> & Hr). exists (evs1 ++ evs2).
      split; [by rewrite app_assoc|]. destruct r as [acc|e].
      * by rewrite fetched_blocks_app, Hf1, Hr.
      * destruct Hr as (pre & m & rest & evs0 & blk & -> & Hf & -> & Hg & Hnz & Hn & ->).
        exists (n :: pre), m, rest, (evs1 ++ evs0), blk.
        split; [done|]. split.
        { rewrite fetched_blocks_app, Hf1, Hf. done. }
        split; [by rewrite app_assoc|]. split; [by rewrite app_assoc|]. done.
    + rewrite (bind_Raise _ _ _ _ _ H1) in H. inversion H; subst r log'; clear H.
      apply sample_block_Raise in H1 as (-> & -> & blk & Hg & Hnz & Hn).
      exists [Net (provider w3) (ReqGetBlock n)]. split; [done|].
      exists [], n, rng, [], blk. rewrite app_nil_r.
      split; [done|]. split.
      { unfold fetched_blocks. simpl. by rewrite String.eqb_refl. }
      done.
Qed.

Lemma sample_base_fees_Ret blocks step log base_fees h st sampled log' :
  sample_base_fees net w3 blocks step log = (Ret (base_fees, h, st, sampled), log') ->
  net_block_number net log (provider w3) = inr h /\
  st = Z.max 0 (h - blocks + 1) /\
  sampled = Z.of_nat (length base_fees) /\
  Forall (fun q => (0 < q)%Q) base_fees /\
  exists rng evs,
    py_range h (st - 1) (- step) = Some rng /\
    log' = log ++ [Net (provider w3) ReqBlockNumber] ++ [Stderr (SamplingRange st h step)] ++ evs /\
    fetched_blocks (provider w3) evs = rng.
Proof.
  unfold sample_base_fees. intros H.
  apply bind_Ret_inv in H as (h0 & log1 & Hh & H).
  unfold eth_block_number, call in Hh.
  destruct (net_block_number net log (provider w3)) as [e|hh]; [discriminate|].
  inversion Hh; subst h0 log1; clear Hh.
  apply bind_Ret_inv in H as ([] & log2 & Hp & H). inversion Hp; subst log2; clear Hp.
  apply bind_Ret_inv in H as (rng & log3 & Hr & H).
  unfold lift_option in Hr.
  destruct (py_range hh (Z.max 0 (hh - blocks + 1) - 1) (- step)) as [rng0|] eqn:Hrng;
    [|discriminate].
  inversion Hr; subst rng0 log3; clear Hr.
  apply bind_Ret_inv in H as ([bf s] & log4 & Hloop & H).
  inversion H; subst; clear H. simpl.
  apply sample_loop_Ret in Hloop as (evs & new & -> & Hf & -> & -> & Hpos).
  simpl. split; [done|]. split; [done|]. split; [lia|]. split; [exact Hpos|].
  exists rng, evs. rewrite <- !app_assoc. done.
Qed.

End SamplerFacts.



Lemma sample_base_fees_trace (net : Network) (w3 : Web3) (blocks step : Z) (log : Log) (h : Z) :
  step <> 0%Z ->
  net_block_number net log (provider w3) = inr h ->
  let st := Z.max 0 (h - blocks + 1) in
  let log0 := log ++ [Net (provider w3) ReqBlockNumber] ++ [Stderr (SamplingRange st h step)] in
  exists rng r evs,
    py_range h (st - 1) (- step) = Some rng /\
    sample_base_fees net w3 blocks step log = (r, log0 ++ evs) /\
    match r with
    | Ret (base_fees, h', st', sampled) =>
        h' = h /\ st' = st /\ fetched_blocks (provider w3) evs = rng
    | Raise e =>
        exists pre n rest evs0 blk,
          rng = pre ++ n :: rest /\
          fetched_blocks (provider w3) evs = pre ++ [n] /\
          evs = evs0 ++ [Net (provider w3) (ReqGetBlock n)] /\
          net_get_block net (log0 ++ evs0) (provider w3) n = inr blk /\
          base_fee_wei blk <> 0%Z /\
          from_wei_gwei (base_fee_wei blk) = None /\
          e = Exception "value must be between 1 and 2**256 - 1"
    end.
Proof.
  intros Hstep Hh st log0. unfold sample_base_fees.
  unfold bind at 1. unfold eth_block_number, call. rewrite Hh.
  unfold bind at 1. unfold print.
  unfold bind at 1. unfold lift_option. fold st.
  destruct (py_range h (st - 1) (- step)) as [rng|] eqn:Hrng.
  2: { unfold py_range in Hrng. destruct (Z.eqb_spec (- step) 0); [lia | discriminate]. }
  unfold ret at 1.
  replace ((log ++ [Net (provider w3) ReqBlockNumber]) ++ [Stderr (SamplingRange st h step)])
    with log0 by (unfold log0; by rewrite <- app_assoc).
  destruct (for_each (sample_block net w3) rng ([], 0%Z) log0) as [r1 log1] eqn:Hloop.
  pose proof (sample_loop_trace net w3 rng _ _ _ _ _ Hloop) as (evs & -> & Hr).
  unfold bind. rewrite Hloop. destruct r1 as [[bf s]|e].
  - exists rng, (Ret (bf, h, st, s)), evs. by repeat split.
  - exists rng, (Raise e), evs. by repeat split.
Qed.




(** ** The endpoint summary *)

Section SummaryFacts.

Variable net : Network.

Lemma connect_Ret rpc timeout log w3 log1 :
  connect net rpc timeout log = (Ret w3, log1) ->
  w3 = {| provider := rpc; request_timeout := timeout |}.
Proof.
  unfold connect. intros H.
  apply bind_Ret_inv in H as (ok & l1 & _ & H).
  apply bind_Ret_inv in H as (? & l2 & _ & H).
  apply bind_Ret_inv in H as (? & l3 & _ & H).
  by inversion H.
Qed.

(** The head fee is fetched with one request and never raises. *)
Lemma head_base_fee_spec w3 h log :
  head_base_fee net w3 h log
  = (Ret match net_get_block net log (provider w3) h with
         | inl _ => None
         | inr blk => from_wei_gwei (base_fee_wei blk)
         end,
     log ++ [Net (provider w3) (ReqGetBlock h)]).
Proof.
  unfold head_base_fee, try_except, bind, eth_get_block, call, from_wei, lift_option.
  destruct (net_get_block net log (provider w3) h) as [e|blk]; [reflexivity|].
  destruct (from_wei_gwei (base_fee_wei blk)); reflexivity.
Qed.

Lemma analyze_endpoint_Ret rpc blocks step timeout log s log' :
  analyze_endpoint net rpc blocks step timeout log = (Ret s, log') ->
  exists base_fees log1,
    rpcUrl s = rpc /\
    sampledBlocks s = Z.of_nat (length base_fees) /\
    Forall (fun q => (0 < q)%Q) base_fees /\
    match base_fees with
    | [] => baseFeeMedianGwei s = py_round 0 3 /\
            baseFeeMinGwei s = py_round 0 3 /\
            baseFeeMaxGwei s = py_round 0 3
    | _ :: _ => exists med mn mx,
            median base_fees = Some med /\ py_min base_fees = Some mn /\
            py_max base_fees = Some mx /\
            baseFeeMedianGwei s = py_round med 3 /\
            baseFeeMinGwei s = py_round mn 3 /\
            baseFeeMaxGwei s = py_round mx 3
    end /\
    log' = log1 ++ [Net rpc (ReqGetBlock (head s))] /\
    headBaseFeeGwei s
    = (fun x => py_round x 3)
        <$> match net_get_block net log1 rpc (head s) with
            | inl _ => None
            | inr blk => from_wei_gwei (base_fee_wei blk)
            end /\
    deviationPct s = None /\ isOutlier s = None.
Proof.
  unfold analyze_endpoint. intros H.
  apply bind_Ret_inv in H as (w3 & l1 & Hc & H).
  apply connect_Ret in Hc. subst w3.
  apply bind_Ret_inv in H as (cid & l2 & _ & H).
  apply bind_Ret_inv in H as ([[[bf h] st] sampled] & l3 & Hs & H).
  apply sample_base_fees_Ret in Hs as (_ & _ & Hsampled & Hpos & _).
  apply bind_Ret_inv in H as ([] & l4 & _ & H).
  apply bind_Ret_inv in H as (hf & l5 & Hh & H).
  rewrite head_base_fee_spec in Hh. inversion Hh; subst hf l5; clear Hh.
  apply bind_Ret_inv in H as ([[med mn] mx] & l6 & Hstats & H).
  inversion H; subst s log'; clear H. simpl in *.
  exists bf, l4. split; [done|]. split; [done|]. split; [done|].
  destruct bf as [|q bf].
  - inversion Hstats; subst. done.
  - apply bind_Ret_inv in Hstats as (med' & l7 & Hmed & Hstats).
    apply bind_Ret_inv in Hstats as (mn' & l8 & Hmn & Hstats).
    apply bind_Ret_inv in Hstats as (mx' & l9 & Hmx & Hstats).
    inversion Hstats; subst; clear Hstats.
    unfold lift_option in *.
    destruct (median (q :: bf)) as [m0|]; [|discriminate].
    destruct (py_min (q :: bf)) as [m1|]; [|discriminate].
    destruct (py_max (q :: bf)) as [m2|]; [|discriminate].
    inversion Hmed; inversion Hmn; inversion Hmx; subst.
    split; [|done]. exists med, mn, mx. done.
Qed.

Lemma analyze_endpoint_ok rpc blocks step timeout log s log' :
  analyze_endpoint net rpc blocks step timeout log = (Ret s, log') -> summary_ok s.
Proof.
  intros H. apply analyze_endpoint_Ret in H
    as (bf & l1 & _ & Hn & Hpos & Hstats & _).
  unfold summary_ok. rewrite Hn. split; [lia|].
  destruct bf as [|q bf].
  - destruct Hstats as (-> & -> & ->). split; [done|]. split; [split; apply Qle_refl|done].
  - destruct Hstats as (med & mn & mx & Hmed & Hmn & Hmx & -> & -> & ->).
    apply py_min_spec in Hmn as [_ Hmn]. apply py_max_spec in Hmx as [_ Hmx].
    destruct (median_between (q :: bf) mn mx) as (m & Hm & Hlo & Hhi); [done| |].
    { intros x Hx. split; [by apply Hmn | by apply Hmx]. }
    rewrite Hmed in Hm. inversion Hm; subst m; clear Hm.
    assert (0 < med)%Q as Hmedpos.
    { apply (median_positive (q :: bf)); [|done].
      intros x Hx. rewrite Forall_forall in Hpos. apply Hpos. by apply list_elem_of_In. }
    split; [apply py_round_nonneg; lra|].
    split; [split; by apply py_round_mono|].
    simpl. lia.
Qed.

End SummaryFacts.

(** C7.  In every summary that [analyze_endpoint] returns, the minimum
    is at most the median and the median at most the maximum when at
    least one block gave an observation, and all three are zero when
    none did. *)
Theorem C7_min_median_max (net : Network) (rpc : string) (blocks step : Z) (timeout : Q)
    (log : Log) (s : Endpoint) (log' : Log) :
  analyze_endpoint net rpc blocks step timeout log = (Ret s, log') ->
  ((0 < sampledBlocks s)%Z ->
   (baseFeeMinGwei s <= baseFeeMedianGwei s)%Q /\ (baseFeeMedianGwei s <= baseFeeMaxGwei s)%Q)
  /\ ((sampledBlocks s = 0)%Z ->
      (baseFeeMedianGwei s == 0)%Q /\ (baseFeeMinGwei s == 0)%Q /\ (baseFeeMaxGwei s == 0)%Q).
Proof.
  intros H. apply analyze_endpoint_ok in H as (_ & _ & Hord & Hzero).
  split; [intros _; exact Hord|].
  intros Hz. destruct (Hzero Hz) as (-> & -> & ->). repeat split; reflexivity.
Qed.

Lemma C7_min_median_max_witness :
  exists s log',
    analyze_endpoint Samples.healthy "a" 10 5 20 [] = (Ret s, log') /\
    (0 < sampledBlocks s)%Z /\
    (baseFeeMinGwei s <= baseFeeMedianGwei s)%Q /\ (baseFeeMedianGwei s <= baseFeeMaxGwei s)%Q.
Proof.
  assert (exists s log',
             analyze_endpoint Samples.healthy "a" 10 5 20 [] = (Ret s, log') /\
             (0 < sampledBlocks s)%Z) as (s & log' & H & Hpos).
  { eexists _, _. split; vm_compute; reflexivity. }
  exists s, log'. split; [exact H|]. split; [exact Hpos|].
  exact (proj1 (C7_min_median_max _ _ _ _ _ _ _ _ H) Hpos).
Defined.

(** C10, as amended.  The last thing [analyze_endpoint] does on the
    network is to request the head block.  The reported head fee is
    absent exactly when that request fails or the fee it brings cannot
    be converted (it is negative or above [2**256 - 1]); when the
    request succeeds and the fee is missing or zero, the reported value
    is zero, the same in both cases; any other fee is reported in gwei,
    rounded to three decimals. *)
Theorem C10_head_fee (net : Network) (rpc : string) (blocks step : Z) (timeout : Q)
    (log : Log) (s : Endpoint) (log' : Log) :
  analyze_endpoint net rpc blocks step timeout log = (Ret s, log') ->
  exists log1,
    log' = log1 ++ [Net rpc (ReqGetBlock (head s))] /\
    let answer := net_get_block net log1 rpc (head s) in
    (headBaseFeeGwei s = None <->
     (exists e, answer = inl e) \/
     (exists blk, answer = inr blk /\
                  ((base_fee_wei blk < 0)%Z \/ (2 ^ 256 - 1 < base_fee_wei blk)%Z))) /\
    (forall blk, answer = inr blk ->
                 baseFeePerGas blk = None \/ baseFeePerGas blk = Some 0%Z ->
                 headBaseFeeGwei s = Some (py_round 0 3)) /\
    (forall blk, answer = inr blk ->
                 (0 < base_fee_wei blk <= 2 ^ 256 - 1)%Z ->
                 headBaseFeeGwei s = Some (py_round (base_fee_wei blk # 1000000000) 3)).
Proof.
  intros H. apply analyze_endpoint_Ret in H
    as (bf & log1 & _ & _ & _ & _ & -> & Hhead & _).
  exists log1. split; [done|]. simpl. rewrite Hhead. clear Hhead.
  assert (Hconv : forall n,
             from_wei_gwei n
             = if (n =? 0)%Z then Some 0%Q
               else if (n <? 0)%Z || (2 ^ 256 - 1 <? n)%Z then None
                    else Some (n # 1000000000)%Q) by reflexivity.
  destruct (net_get_block net log1 rpc (head s)) as [e|blk].
  - split; [|split].
    + split; [intros _; left; eauto | done].
    + discriminate.
    + discriminate.
  - rewrite Hconv. split; [|split].
    + destruct (Z.eqb_spec (base_fee_wei blk) 0) as [E|NE].
      * simpl. split; [discriminate|]. intros [[e He]|(b & Hb & Hr)]; [discriminate|].
        inversion Hb; subst b. lia.
      * destruct (Z.ltb_spec (base_fee_wei blk) 0) as [Hneg|Hnn]; simpl.
        -- split; [|done]. intros _. right. exists blk. split; [done|]. by left.
        -- destruct (Z.ltb_spec (2 ^ 256 - 1) (base_fee_wei blk)) as [Hbig|Hok]; simpl.
           ++ split; [|done]. intros _. right. exists blk. split; [done|]. by right.
           ++ split; [discriminate|]. intros [[e He]|(b & Hb & Hr)]; [discriminate|].
              inversion Hb; subst b. lia.
    + intros b [= <-] Hfee.
      assert (base_fee_wei blk = 0%Z) as -> by (unfold base_fee_wei; by destruct Hfee as [->| ->]).
      reflexivity.
    + intros b [= <-] [Hpos Hmax].
      destruct (Z.eqb_spec (base_fee_wei blk) 0); [lia|].
      destruct (Z.ltb_spec (base_fee_wei blk) 0); [lia|].
      destruct (Z.ltb_spec (2 ^ 256 - 1) (base_fee_wei blk)); [lia|].
      reflexivity.
Qed.

Lemma C10_head_fee_witness :
  exists s log1,
    analyze_endpoint Samples.feeless "a" 10 5 20 []
    = (Ret s, log1 ++ [Net "a" (ReqGetBlock (head s))]) /\
    headBaseFeeGwei s = Some (py_round 0 3).
Proof.
  assert (exists s log',
             analyze_endpoint Samples.feeless "a" 10 5 20 [] = (Ret s, log')) as (s & log' & H).
  { eexists _, _. vm_compute. reflexivity. }
  destruct (C10_head_fee _ _ _ _ _ _ _ _ H) as (log1 & Hlog & _ & Hzero & _).
  exists s, log1. split; [by rewrite <- Hlog|].
  apply (Hzero {| baseFeePerGas := None |}); [reflexivity | by left].
Defined.

(** C10 as stated fails: the request for the head block succeeds and
    brings a block, yet the reported head fee is absent, because the
    base fee of that block is negative. *)
Lemma C10_head_fee_absent_after_fetch :
  exists s log1 blk,
    analyze_endpoint Samples.fickle "a" 10 5 20 []
    = (Ret s, log1 ++ [Net "a" (ReqGetBlock (head s))]) /\
    net_get_block Samples.fickle log1 "a" (head s) = inr blk /\
    headBaseFeeGwei s = None.
Proof.
  set (run := analyze_endpoint Samples.fickle "a" 10 5 20 []).
  vm_compute in run. subst run.
  eexists _,
    [Net "a" ReqIsConnected; Net "a" ReqChainId; Net "a" ReqBlockNumber;
     Stderr (ConnectedTo 1 100 "unknown"); Net "a" ReqChainId; Net "a" ReqBlockNumber;
     Stderr (SamplingRange 91 100 5); Net "a" (ReqGetBlock 100); Net "a" (ReqGetBlock 95)],
    _.
  split; [|split]; [apply (f_equal2 pair); reflexivity | reflexivity | reflexivity].
Qed.

(** ** Grouping by chain *)

Lemma has_key_In (cid : Z) (groups : Groups) :
  has_key cid groups = true <-> In cid (map fst groups).
Proof.
  unfold has_key. rewrite existsb_exists, in_map_iff. split.
  - intros (kv & Hin & Heq). apply Z.eqb_eq in Heq. eauto.
  - intros (kv & Heq & Hin). exists kv. split; [done|]. by apply Z.eqb_eq.
Qed.

Lemma keys_append_member (cid : Z) (i : nat) (groups : Groups) :
  map fst (append_member cid i groups) = map fst groups.
Proof.
  unfold append_member. rewrite map_map. apply map_ext.
  intros [k g]. simpl. by destruct (k =? cid)%Z.
Qed.

Lemma In_append_member (cid : Z) (i : nat) (groups : Groups) (k : Z) (g' : Group) :
  In (k, g') (append_member cid i groups) ->
  exists g, In (k, g) groups /\
            endpoints g' = endpoints g ++ (if (k =? cid)%Z then [i] else []).
Proof.
  unfold append_member. rewrite in_map_iff. intros ([k0 g] & Heq & Hin). simpl in Heq.
  destruct (Z.eqb_spec k0 cid) as [->|Hne]; inversion Heq; subst.
  - exists g. split; [done|]. simpl. by rewrite Z.eqb_refl.
  - exists g'. split; [done|]. destruct (Z.eqb_spec k cid); [done|]. by rewrite app_nil_r.
Qed.

Lemma positions_spec (cids : list Z) (cid : Z) (j : nat) :
  In j (positions cids cid) <-> cids !! j = Some cid.
Proof.
  unfold positions. rewrite filter_In, in_seq. split.
  - intros [_ H]. destruct (cids !! j) as [c|]; [|discriminate].
    apply Z.eqb_eq in H. by subst.
  - intros H. split; [|by rewrite H, Z.eqb_refl].
    apply lookup_lt_Some in H. lia.
Qed.

Lemma NoDup_positions (cids : list Z) (cid : Z) : List.NoDup (positions cids cid).
Proof. unfold positions. apply List.NoDup_filter, seq_NoDup. Qed.

(** The positions below [n]: what the first loop has seen after [n]
    endpoints. *)
Lemma filter_seq_snoc (p : nat -> bool) (n : nat) :
  List.filter p (seq 0 (S n)) = List.filter p (seq 0 n) ++ (if p n then [n] else []).
Proof. rewrite seq_S, List.filter_app. simpl. by destruct (p n). Qed.

Section Collect.

Variable eps : list Endpoint.

Lemma collect_step (n : nat) (ep : Endpoint) (groups : Groups) :
  eps !! n = Some ep ->
  collected eps n groups ->
  collected eps (S n)
      (append_member (chainId ep) n
         (setdefault (chainId ep) {| endpoints := []; globalMedianBaseFeeGwei := 0 |} groups)).
Proof.
  intros Hn (Hnd & Hmem & Hcov).
  assert (Hseen : forall c, seen eps c (S n) = seen eps c n ++ (if (chainId ep =? c)%Z then [n] else [])).
  { intros c. unfold seen. rewrite filter_seq_snoc, list_lookup_fmap, Hn. done. }
  unfold setdefault. destruct (has_key (chainId ep) groups) eqn:Hk.
  - split; [by rewrite keys_append_member|]. split.
    + intros c g' Hin. apply In_append_member in Hin as (g & Hin & ->).
      destruct (Hmem _ _ Hin) as [Hg Hne]. rewrite Hseen, Hg.
      rewrite (Z.eqb_sym (chainId ep) c). split; [done|].
      intros E. apply app_eq_nil in E as [E _]. rewrite <- Hg in E. done.
    + intros i e Hi He. rewrite keys_append_member.
      destruct (Nat.eq_dec i n) as [->|Hne].
      * rewrite Hn in He. inversion He; subst. by apply has_key_In.
      * apply (Hcov i); [lia|done].
  - assert (Hfresh : ~ In (chainId ep) (map fst groups)).
    { intros H. apply has_key_In in H. congruence. }
    assert (Hnone : seen eps (chainId ep) n = []).
    { unfold seen. destruct (List.filter _ (seq 0 n)) as [|j l] eqn:E; [done|].
      exfalso. assert (In j (j :: l)) as Hj by (by left). rewrite <- E in Hj.
      apply filter_In in Hj as [Hj Hc]. apply in_seq in Hj.
      rewrite list_lookup_fmap in Hc. destruct (eps !! j) as [e|] eqn:He; [|discriminate].
      simpl in Hc. apply Z.eqb_eq in Hc. apply Hfresh. rewrite <- Hc.
      apply (Hcov j); [lia|done]. }
    split; [|split].
    + rewrite keys_append_member, map_app. simpl.
      apply NoDup_ListNoDup, NoDup_app. split; [by apply NoDup_ListNoDup|]. split.
      * intros x Hx [<-|[]]%list_elem_of_In. by apply Hfresh, list_elem_of_In.
      * apply NoDup_singleton.
    + intros c g' Hin. apply In_append_member in Hin as (g & Hin & ->).
      rewrite Hseen, (Z.eqb_sym (chainId ep) c).
      apply in_app_or in Hin as [Hin|[Heq|[]]].
      * destruct (Hmem _ _ Hin) as [Hg Hne]. rewrite Hg. split; [done|].
        intros E. apply app_eq_nil in E as [E _]. rewrite <- Hg in E. done.
      * inversion Heq; subst. rewrite Hnone, Z.eqb_refl. done.
    + intros i e Hi He. rewrite keys_append_member, map_app. apply in_or_app.
      destruct (Nat.eq_dec i n) as [->|Hne].
      * rewrite Hn in He. inversion He; subst. right. by left.
      * left. apply (Hcov i); [lia|done].
Qed.

Lemma collect_inv (rest : list Endpoint) :
  forall pre groups,
    eps = pre ++ rest ->
    collected eps (length pre) groups ->
    collected eps (length eps) (collect rest (length pre) groups).
Proof.
  induction rest as [|ep rest IH]; intros pre groups Heps Hinv; simpl.
  - rewrite app_nil_r in Heps. subst pre. done.
  - assert (eps !! length pre = Some ep) as Hn by (rewrite Heps; apply list_lookup_middle; done).
    pose proof (collect_step _ _ _ Hn Hinv) as Hstep.
    pose proof (IH (pre ++ [ep])
                  (append_member (chainId ep) (length pre)
                     (setdefault (chainId ep)
                        {| endpoints := []; globalMedianBaseFeeGwei := 0 |} groups))) as IH'.
    rewrite length_app in IH'. simpl in IH'. rewrite Nat.add_1_r in IH'.
    apply IH'; [by rewrite <- app_assoc | done].
Qed.

(** The first loop: one group for every chain id that occurs, and its
    members are the positions of the endpoints on that chain. *)
Lemma collect_spec :
  List.NoDup (map fst (collect eps 0 [])) /\
  (forall cid g, In (cid, g) (collect eps 0 []) ->
                 endpoints g = members_of eps cid /\ endpoints g <> []) /\
  (forall ep, In ep eps -> has_key (chainId ep) (collect eps 0 []) = true).
Proof.
  destruct (collect_inv eps [] [] eq_refl) as (Hnd & Hmem & Hcov).
  { split; [constructor|]. split; [intros ? ? []|]. intros i ep Hi. simpl in Hi. lia. }
  simpl in *. split; [done|]. split.
  - intros cid g Hin. destruct (Hmem _ _ Hin) as [Hg Hne]. split; [|done].
    rewrite Hg. unfold seen, members_of, positions. by rewrite length_map.
  - intros ep Hin. apply has_key_In.
    apply list_elem_of_In, list_elem_of_lookup in Hin as [i Hi].
    apply (Hcov i ep); [|done]. by apply lookup_lt_Some in Hi.
Qed.

End Collect.

(** The second loop reads only chain ids and medians, and writes neither. *)
Lemma chainId_annotate (g tol : Q) (ep : Endpoint) : chainId (annotate g tol ep) = chainId ep.
Proof. reflexivity. Qed.

Lemma annotate_annotate (g tol g' tol' : Q) (ep : Endpoint) :
  annotate g tol (annotate g' tol' ep) = annotate g tol ep.
Proof. reflexivity. Qed.

Lemma member_medians_alt (st : list Endpoint) (members : list nat) :
  omap (fun i => baseFeeMedianGwei <$> st !! i) members
  = omap (fun i => map baseFeeMedianGwei st !! i) members.
Proof.
  induction members as [|i members IH]; [done|]. simpl.
  change (map baseFeeMedianGwei st) with (baseFeeMedianGwei <$> st).
  rewrite list_lookup_fmap.
  destruct (baseFeeMedianGwei <$> st !! i); [f_equal|]; exact IH.
Qed.

Lemma group_median_ext (st1 st2 : list Endpoint) (members : list nat) :
  map baseFeeMedianGwei st1 = map baseFeeMedianGwei st2 ->
  group_median st1 members = group_median st2 members.
Proof.
  intros H. unfold group_median. by rewrite !member_medians_alt, H.
Qed.

Lemma consensus_ext (st1 st2 : list Endpoint) (cid : Z) :
  map chainId st1 = map chainId st2 ->
  map baseFeeMedianGwei st1 = map baseFeeMedianGwei st2 ->
  consensus st1 cid = consensus st2 cid.
Proof.
  intros Hc Hm. unfold consensus, members_of. rewrite Hc. by apply group_median_ext.
Qed.

Lemma foldl_alter_lookup {A} (h : A -> A) (members : list nat) :
  List.NoDup members ->
  forall (st : list A) (j : nat),
    foldl (fun st i => alter h i st) st members !! j
    = if existsb (Nat.eqb j) members then h <$> st !! j else st !! j.
Proof.
  induction 1 as [|i members Hni Hnd IH]; intros st j; simpl; [done|].
  rewrite IH. destruct (Nat.eqb_spec j i) as [->|Hne]; simpl.
  - assert (existsb (Nat.eqb i) members = false) as ->.
    { destruct (existsb (Nat.eqb i) members) eqn:E; [|done].
      apply existsb_exists in E as (x & Hx & Hxi). apply Nat.eqb_eq in Hxi. by subst. }
    apply list_lookup_alter_eq.
  - by rewrite list_lookup_alter_ne.
Qed.

Lemma members_of_existsb (st : list Endpoint) (cid : Z) (j : nat) (ep : Endpoint) :
  st !! j = Some ep ->
  existsb (Nat.eqb j) (members_of st cid) = (chainId ep =? cid)%Z.
Proof.
  intros Hj. apply eq_true_iff_eq. rewrite existsb_exists, Z.eqb_eq. split.
  - intros (x & Hx & Hjx). apply Nat.eqb_eq in Hjx. subst x.
    apply positions_spec in Hx. rewrite list_lookup_fmap, Hj in Hx. by inversion Hx.
  - intros Hc. exists j. split; [|apply Nat.eqb_refl].
    apply positions_spec. by rewrite list_lookup_fmap, Hj, <- Hc.
Qed.

(** One turn of the second loop rewrites the members of the group and
    nothing else. *)
Lemma process_group_store (tol : Q) (st : list Endpoint) (cid : Z) (g : Q) :
  foldl (fun st i => alter (annotate g tol) i st) st (members_of st cid)
  = map (fun ep => if (chainId ep =? cid)%Z then annotate g tol ep else ep) st.
Proof.
  apply list_eq. intros j.
  rewrite foldl_alter_lookup by apply NoDup_positions.
  change (map ?f st) with (f <$> st). rewrite list_lookup_fmap.
  destruct (st !! j) as [ep|] eqn:Hj.
  - rewrite (members_of_existsb st cid j ep Hj). simpl. by destruct (chainId ep =? cid)%Z.
  - by destruct (existsb _ _).
Qed.

Lemma process_groups_spec (tol : Q) (groups : Groups) :
  forall st,
    List.NoDup (map fst groups) ->
    (forall cid grp, In (cid, grp) groups -> endpoints grp = members_of st cid) ->
    fst (process_groups tol groups st)
    = map (fun kv => (fst kv,
                      {| endpoints := endpoints (snd kv);
                         globalMedianBaseFeeGwei := py_round (consensus st (fst kv)) 3 |}))
          groups
    /\ snd (process_groups tol groups st)
       = map (fun ep => if has_key (chainId ep) groups
                        then annotate (consensus st (chainId ep)) tol ep else ep)
             st.
Proof.
  induction groups as [|[cid grp] rest IH]; intros st Hnd Hmem; simpl.
  - split; [done|]. by rewrite map_id.
  - inversion Hnd as [|? ? Hfresh Hnd']; subst.
    pose proof (Hmem cid grp (or_introl eq_refl)) as Hgrp.
    rewrite Hgrp. fold (consensus st cid).
    rewrite process_group_store.
    set (st' := map (fun ep => if (chainId ep =? cid)%Z
                               then annotate (consensus st cid) tol ep else ep) st).
    assert (Hc : map chainId st' = map chainId st).
    { unfold st'. rewrite map_map. apply map_ext. intros ep. by destruct (chainId ep =? cid)%Z. }
    assert (Hm : map baseFeeMedianGwei st' = map baseFeeMedianGwei st).
    { unfold st'. rewrite map_map. apply map_ext. intros ep. by destruct (chainId ep =? cid)%Z. }
    destruct (IH st' Hnd') as [IHg IHs].
    { intros c g Hin. unfold members_of. rewrite Hc. apply Hmem. by right. }
    destruct (process_groups tol rest st') as [rest' st''] eqn:E. simpl in *.
    split.
    + f_equal. rewrite IHg. apply map_ext. intros [c g]. simpl.
      by rewrite (consensus_ext st' st c Hc Hm).
    + rewrite IHs. unfold st'. rewrite map_map. apply map_ext. intros ep.
      rewrite (Z.eqb_sym cid (chainId ep)).
      destruct (Z.eqb_spec (chainId ep) cid) as [Hc'|Hc']; simpl.
      * assert (has_key cid rest = false) as Hk.
        { destruct (has_key cid rest) eqn:Hk; [|done]. apply has_key_In in Hk. done. }
        rewrite Hc', Hk. done.
      * rewrite (consensus_ext st' st _ Hc Hm). done.
Qed.

(** [group_by_chain] in closed form. *)
Lemma group_by_chain_spec (eps : list Endpoint) (tol : Q) :
  fst (group_by_chain eps tol)
  = map (fun kv => (fst kv,
                    {| endpoints := members_of eps (fst kv);
                       globalMedianBaseFeeGwei := py_round (consensus eps (fst kv)) 3 |}))
        (collect eps 0 [])
  /\ snd (group_by_chain eps tol)
     = map (fun ep => annotate (consensus eps (chainId ep)) tol ep) eps.
Proof.
  destruct (collect_spec eps) as (Hnd & Hmem & Hcov).
  destruct (process_groups_spec tol (collect eps 0 []) eps Hnd) as [Hg Hs].
  { intros cid grp Hin. by apply Hmem. }
  unfold group_by_chain. rewrite Hg, Hs. split.
  - apply map_ext_in. intros [cid grp] Hin. simpl. by rewrite (proj1 (Hmem _ _ Hin)).
  - apply map_ext_in. intros ep Hin. by rewrite Hcov.
Qed.

Lemma group_by_chain_members (eps : list Endpoint) (tol : Q) (groups : Groups)
    (store : list Endpoint) :
  group_by_chain eps tol = (groups, store) ->
  store = map (fun ep => annotate (consensus eps (chainId ep)) tol ep) eps /\
  forall cid grp,
    In (cid, grp) groups ->
    endpoints grp = members_of eps cid /\
    endpoints grp <> [] /\
    globalMedianBaseFeeGwei grp = py_round (consensus eps cid) 3 /\
    group_median store (endpoints grp) = consensus eps cid.
Proof.
  intros H. destruct (group_by_chain_spec eps tol) as [Hg Hs].
  rewrite H in Hg, Hs. simpl in Hg, Hs. split; [done|].
  intros cid grp Hin. rewrite Hg in Hin.
  apply in_map_iff in Hin as ([c g] & Heq & Hin). simpl in Heq. inversion Heq; subst c grp.
  clear Heq. simpl.
  destruct (collect_spec eps) as (_ & Hmem & _). destruct (Hmem _ _ Hin) as [Hm Hne].
  split; [done|]. split; [by rewrite <- Hm|]. split; [done|].
  unfold consensus. apply group_median_ext.
  rewrite Hs, map_map. by apply map_ext.
Qed.

Lemma members_of_spec (eps : list Endpoint) (cid : Z) (i : nat) (ep : Endpoint) :
  eps !! i = Some ep -> (In i (members_of eps cid) <-> chainId ep = cid).
Proof.
  intros Hi. unfold members_of. rewrite positions_spec, list_lookup_fmap, Hi. simpl.
  split; [by intros [= ->] | by intros ->].
Qed.

Lemma members_of_lookup (eps : list Endpoint) (cid : Z) (i : nat) :
  In i (members_of eps cid) -> exists ep, eps !! i = Some ep /\ chainId ep = cid.
Proof.
  unfold members_of. rewrite positions_spec, list_lookup_fmap.
  destruct (eps !! i) as [ep|]; [|discriminate]. intros [= <-]. eauto.
Qed.

(** ** Configuration errors and failing endpoints *)

Section RunFacts.

Variable net : Network.

Lemma main_valid args env log :
  (0 < args_blocks args)%Z -> (0 < args_step args)%Z ->
  rpc_list_of args env <> [] ->
  main net args env log
  = bind (for_each (analyze_into net args) (rpc_list_of args env) [])
         (aggregate args)
         (log ++ [Stderr (Starting (length (rpc_list_of args env)) (args_blocks args)
                                   (args_step args) (args_tolerance_pct args))]).
Proof.
  intros Hb Hs Hrs. unfold main.
  destruct (Z.leb_spec (args_blocks args) 0); [lia|].
  destruct (Z.leb_spec (args_step args) 0); [lia|].
  simpl. destruct (rpc_list_of args env) as [|r rs]; [congruence|].
  reflexivity.
Qed.

Lemma loop_reaches args pre r post acc log0 log1 :
  for_each (analyze_into net args) pre [] log0 = (Ret acc, log1) ->
  for_each (analyze_into net args) (pre ++ r :: post) [] log0
  = bind (analyze_into net args acc r)
         (fun acc' => for_each (analyze_into net args) post acc') log1.
Proof. intros H. rewrite for_each_app. rewrite (bind_Ret _ _ _ _ _ H). reflexivity. Qed.

Lemma loop_keeps args rs :
  forall acc log final log',
    for_each (analyze_into net args) rs acc log = (Ret final, log') ->
    exists more, final = acc ++ more.
Proof.
  induction rs as [|r rs IH]; simpl; intros acc log final log' H.
  - inversion H; subst. exists []. by rewrite app_nil_r.
  - apply bind_Ret_inv in H as (acc1 & log1 & H1 & H2).
    apply IH in H2 as [more ->].
    unfold analyze_into, try_except, bind in H1.
    destruct (analyze_endpoint net r _ _ _ log) as [[s|[e|c]] l1].
    + inversion H1; subst. exists (s :: more). by rewrite <- app_assoc.
    + inversion H1; subst. eauto.
    + discriminate.
Qed.

Lemma loop_all_fail args rs :
  (forall r log, In r rs ->
     exists e log',
       analyze_endpoint net r (args_blocks args) (args_step args) (args_timeout args) log
       = (Raise (Exception e), log')) ->
  forall acc log, exists log', for_each (analyze_into net args) rs acc log = (Ret acc, log').
Proof.
  induction rs as [|r rs IH]; intros Hall acc log; simpl.
  - eauto.
  - destruct (Hall r log (or_introl eq_refl)) as (e & log1 & H1).
    rewrite (bind_Ret _ _ _ _ _ (analyze_into_Exception net args acc r log e log1 H1)).
    apply IH. intros r' l Hr'. apply Hall. by right.
Qed.

Lemma loop_ok args rs :
  forall acc log final log',
    for_each (analyze_into net args) rs acc log = (Ret final, log') ->
    Forall summary_ok acc -> Forall summary_ok final.
Proof.
  induction rs as [|r rs IH]; simpl; intros acc log final log' H Hacc.
  - by inversion H; subst.
  - apply bind_Ret_inv in H as (acc1 & log1 & H1 & H2).
    apply (IH _ _ _ _ H2).
    unfold analyze_into, try_except, bind in H1.
    destruct (analyze_endpoint net r _ _ _ log) as [[s|[e|c]] l1] eqn:E.
    + inversion H1; subst. apply Forall_app. split; [done|].
      constructor; [|constructor]. by apply analyze_endpoint_ok in E.
    + by inversion H1; subst.
    + discriminate.
Qed.

(** A run that reports has analysed at least one endpoint, and what it
    reports is [group_by_chain] of the summaries. *)
Lemma main_Ret args env log report log' :
  main net args env log = (Ret report, log') ->
  exists eps,
    eps <> [] /\ Forall summary_ok eps /\
    report = group_by_chain eps (args_tolerance_pct args).
Proof.
  unfold main. intros H.
  apply bind_Ret_inv in H as (? & l1 & _ & H).
  apply bind_Ret_inv in H as (? & l2 & _ & H).
  apply bind_Ret_inv in H as (? & l3 & _ & H).
  apply bind_Ret_inv in H as (eps & l4 & Hloop & H).
  exists eps. split; [|split].
  - intros ->. discriminate.
  - apply (loop_ok _ _ _ _ _ _ Hloop). constructor.
  - unfold aggregate in H. destruct eps; [discriminate|]. by inversion H.
Qed.

End RunFacts.

(** C2, as amended: a configuration with [blocks <= 0] or [step <= 0] is
    rejected with exit status 1 and the message of line 218, and nothing
    but that message is added to the log, so no endpoint is contacted.
    The tolerance is not examined. *)
Theorem C2_bad_blocks_or_step_rejected (net : Network) (args : Args) (env : string) (log : Log) :
  (args_blocks args <= 0)%Z \/ (args_step args <= 0)%Z ->
  main net args env log = (Raise (SystemExit 1), log ++ [Stderr BadBlocksOrStep]).
Proof.
  intros H. unfold main.
  assert ((args_blocks args <=? 0)%Z || (args_step args <=? 0)%Z = true) as ->.
  { apply orb_true_iff. rewrite !Z.leb_le. exact H. }
  reflexivity.
Qed.

Lemma C2_bad_blocks_or_step_rejected_witness :
  main Samples.healthy (Samples.args_of ["a"; "b"] 10 0 30) "" []
  = (Raise (SystemExit 1), [] ++ [Stderr BadBlocksOrStep]).
Proof.
  apply (C2_bad_blocks_or_step_rejected Samples.healthy (Samples.args_of ["a"; "b"] 10 0 30) "" []).
  right. simpl. lia.
Defined.

(** C2 as stated fails: with a negative tolerance and valid [blocks] and
    [step] the run is not rejected; the endpoint is contacted and a
    report is produced. *)
Lemma C2_negative_tolerance_accepted :
  (args_tolerance_pct (Samples.args_of ["a"] 10 5 (-5)) < 0)%Q /\
  exists report log,
    main Samples.healthy (Samples.args_of ["a"] 10 5 (-5)) "" [] = (Ret report, log) /\
    In (Net "a" ReqIsConnected) log.
Proof.
  split; [reflexivity|].
  eexists _, _. split; [vm_compute; reflexivity|]. simpl. tauto.
Qed.

(** C1, as amended.  Take a valid configuration and an endpoint [r]
    that the loop of [main] reaches with the summaries [acc] collected
    from the endpoints before it.
    - If the analysis of [r] raises an exception (the chain id cannot be
      read, say), [r] adds no summary and the run goes on with the
      endpoints after it.
    - If the analysis of [r] returns a summary, the summary is kept and
      the final report contains it.
    - If [r] cannot be reached, [connect] exits: the whole run stops with
      exit status 1 and no later endpoint is contacted.
    And when the analysis of every endpoint raises an exception, the run
    ends with exit status 2. *)
Theorem C1_failing_endpoints (net : Network) (args : Args) (env : string) (log : Log) :
  let loop := for_each (analyze_into net args) in
  let analyze r :=
    analyze_endpoint net r (args_blocks args) (args_step args) (args_timeout args) in
  let log0 :=
    log ++ [Stderr (Starting (length (rpc_list_of args env)) (args_blocks args)
                             (args_step args) (args_tolerance_pct args))] in
  (0 < args_blocks args)%Z -> (0 < args_step args)%Z ->
  (forall pre r post acc log1,
      rpc_list_of args env = pre ++ r :: post ->
      loop pre [] log0 = (Ret acc, log1) ->
      (forall e log2,
          analyze r log1 = (Raise (Exception e), log2) ->
          main net args env log
          = bind (loop post acc) (aggregate args) (log2 ++ [Stderr (AnalyzeFailed r e)]))
      /\ (forall s log2,
          analyze r log1 = (Ret s, log2) ->
          main net args env log = bind (loop post (acc ++ [s])) (aggregate args) log2
          /\ forall final log3,
              loop post (acc ++ [s]) log2 = (Ret final, log3) ->
              In s final /\
              main net args env log
              = (Ret (group_by_chain final (args_tolerance_pct args)), log3))
      /\ (net_is_connected net log1 r = false ->
          main net args env log
          = (Raise (SystemExit 1),
             log1 ++ [Net r ReqIsConnected] ++ [Stderr (FailedToConnect r)])))
  /\ (rpc_list_of args env <> [] ->
      (forall r l, In r (rpc_list_of args env) ->
                   exists e l', analyze r l = (Raise (Exception e), l')) ->
      exists log', main net args env log = (Raise (SystemExit 2), log')).
Proof.
  intros loop analyze log0 Hb Hs. split.
  - intros pre r post acc log1 Hrs Hpre.
    assert (Hne : rpc_list_of args env <> []) by (rewrite Hrs; by destruct pre).
    pose proof (main_valid net args env log Hb Hs Hne) as Hmain.
    fold log0 in Hmain. rewrite Hmain. clear Hmain. rewrite Hrs.
    assert (Hstep : forall acc1 l1,
               analyze_into net args acc r log1 = (Ret acc1, l1) ->
               bind (for_each (analyze_into net args) (pre ++ r :: post) []) (aggregate args) log0
               = bind (loop post acc1) (aggregate args) l1).
    { intros acc1 l1 H1. unfold bind at 1. rewrite (loop_reaches net args pre r post acc log0 log1 Hpre).
      rewrite (bind_Ret _ _ _ _ _ H1). reflexivity. }
    split; [|split].
    + intros e log2 He. apply Hstep. by apply analyze_into_Exception.
    + intros s log2 Hs2.
      pose proof (Hstep _ _ (analyze_into_Ret net args acc r log1 s log2 Hs2)) as E.
      split; [exact E|]. intros final log3 Hfin. rewrite E.
      destruct (loop_keeps net args post _ _ _ _ Hfin) as [more ->].
      split; [apply in_or_app; left; apply in_or_app; right; by left|].
      rewrite (bind_Ret _ _ _ _ _ Hfin). unfold aggregate.
      destruct acc; reflexivity.
    + intros Hdown. unfold bind at 1.
      rewrite (loop_reaches net args pre r post acc log0 log1 Hpre).
      rewrite (bind_Raise _ _ _ (SystemExit 1)
                 (log1 ++ [Net r ReqIsConnected] ++ [Stderr (FailedToConnect r)])); [reflexivity|].
      apply analyze_into_SystemExit. by apply analyze_unreachable.
  - intros Hne Hall.
    rewrite (main_valid net args env log Hb Hs Hne). fold log0.
    destruct (loop_all_fail net args _ Hall [] log0) as [log' H].
    rewrite (bind_Ret _ _ _ _ _ H). eexists. reflexivity.
Qed.

Lemma C1_failing_endpoints_witness :
  (exists log',
      main Samples.all_anonymous (Samples.args_of ["a"; "b"] 10 5 30) "" []
      = (Raise (SystemExit 2), log'))
  /\ main Samples.a_anonymous (Samples.args_of ["a"; "b"] 10 5 30) "" []
     = bind (for_each (analyze_into Samples.a_anonymous (Samples.args_of ["a"; "b"] 10 5 30))
                      ["b"] [])
            (aggregate (Samples.args_of ["a"; "b"] 10 5 30))
            ([Stderr (Starting 2 10 5 30); Net "a" ReqIsConnected; Net "a" ReqChainId;
              Stderr (ChainInfoFailed "timeout"); Net "a" ReqChainId]
             ++ [Stderr (AnalyzeFailed "a" "timeout")]).
Proof.
  split.
  - refine (proj2 (C1_failing_endpoints Samples.all_anonymous
                     (Samples.args_of ["a"; "b"] 10 5 30) "" [] _ _) _ _).
    + simpl. lia.
    + simpl. lia.
    + discriminate.
    + intros r l _. vm_compute. eexists _, _. reflexivity.
  - refine (proj1 (proj1 (C1_failing_endpoints Samples.a_anonymous
                            (Samples.args_of ["a"; "b"] 10 5 30) "" [] _ _)
                         [] "a" ["b"] [] _ _ _) "timeout" _ _).
    + simpl. lia.
    + simpl. lia.
    + reflexivity.
    + reflexivity.
    + vm_compute. reflexivity.
Defined.

(** C1 as stated fails: of two configured endpoints the first cannot be
    reached and the second is healthy (alone, it yields a report), yet
    the run ends with exit status 1 after the first, without a request
    to the second. *)
Lemma C1_unreachable_endpoint_stops_run :
  main Samples.a_unreachable (Samples.args_of ["a"; "b"] 10 5 30) "" []
  = (Raise (SystemExit 1),
     [Stderr (Starting 2 10 5 30); Net "a" ReqIsConnected; Stderr (FailedToConnect "a")])
  /\ exists report log,
      main Samples.a_unreachable (Samples.args_of ["b"] 10 5 30) "" [] = (Ret report, log).
Proof.
  split; [vm_compute; reflexivity|].
  eexists _, _. vm_compute. reflexivity.
Qed.

(** ** Deviation and outlier flag *)

Lemma store_lookup (eps : list Endpoint) (tol : Q) (i : nat) :
  snd (group_by_chain eps tol) !! i
  = (fun ep => annotate (consensus eps (chainId ep)) tol ep) <$> eps !! i.
Proof.
  rewrite (proj2 (group_by_chain_spec eps tol)).
  change (map ?f eps) with (f <$> eps). apply list_lookup_fmap.
Qed.

(** C4, as amended.  In every report, a summary with no usable
    observation has median, minimum and maximum zero and a deviation of
    zero, whatever the other endpoints show; it is not an outlier when
    the tolerance is positive, and it is one when the tolerance is zero
    or negative, because the comparison with the tolerance is inclusive. *)
Theorem C4_no_observations (net : Network) (args : Args) (env : string) (log : Log)
    (groups : Groups) (store : list Endpoint) (log' : Log) :
  main net args env log = (Ret (groups, store), log') ->
  forall ep,
    In ep store -> sampledBlocks ep = 0%Z ->
    ((baseFeeMedianGwei ep == 0)%Q /\ (baseFeeMinGwei ep == 0)%Q /\ (baseFeeMaxGwei ep == 0)%Q) /\
    (exists d, deviationPct ep = Some d /\ (d == 0)%Q) /\
    ((0 < args_tolerance_pct args)%Q -> isOutlier ep = Some false) /\
    ((args_tolerance_pct args <= 0)%Q -> isOutlier ep = Some true).
Proof.
  intros H ep Hin Hzero.
  apply main_Ret in H as (eps & _ & Hok & Hrep). symmetry in Hrep.
  apply group_by_chain_members in Hrep as [-> _].
  apply in_map_iff in Hin as (ep0 & <- & Hin0).
  rewrite Forall_forall in Hok. apply list_elem_of_In, Hok in Hin0 as (_ & _ & _ & Hz).
  simpl in Hzero. destruct (Hz Hzero) as (Hmed & Hmin & Hmax).
  simpl. rewrite Hmed, Hmin, Hmax.
  assert (deviation (consensus eps (chainId ep0)) ep0 = 0%Q) as ->.
  { unfold deviation. rewrite Hmed. by rewrite andb_false_r. }
  split; [repeat split; reflexivity|].
  split; [eexists; split; reflexivity|].
  change (Qabs 0) with 0%Q.
  split; intros Htol; f_equal.
  - destruct (Qle_bool (args_tolerance_pct args) 0) eqn:E; [|done].
    apply Qle_bool_iff in E. lra.
  - by apply Qle_bool_iff.
Qed.

Lemma C4_no_observations_witness :
  exists groups ep log',
    main Samples.feeless (Samples.args_of ["a"] 10 5 30) "" [] = (Ret (groups, [ep]), log') /\
    sampledBlocks ep = 0%Z /\ isOutlier ep = Some false.
Proof.
  assert (exists groups ep log',
             main Samples.feeless (Samples.args_of ["a"] 10 5 30) "" []
             = (Ret (groups, [ep]), log') /\ sampledBlocks ep = 0%Z)
    as (groups & ep & log' & H & Hz).
  { eexists _, _, _. split; vm_compute; reflexivity. }
  exists groups, ep, log'. split; [exact H|]. split; [exact Hz|].
  apply (C4_no_observations _ _ _ _ _ _ _ H ep (or_introl eq_refl) Hz). reflexivity.
Defined.

(** C4 as stated fails: with a tolerance of zero, an endpoint none of
    whose blocks carries a base fee is flagged as an outlier. *)
Lemma C4_flagged_at_zero_tolerance :
  exists groups ep log',
    main Samples.feeless (Samples.args_of ["a"] 10 5 0) "" [] = (Ret (groups, [ep]), log') /\
    sampledBlocks ep = 0%Z /\ isOutlier ep = Some true.
Proof.
  eexists _, _, _. split; [vm_compute; reflexivity|]. split; reflexivity.
Qed.

(** ** Consensus and deviation *)

(** ** Running the pass again *)

Lemma collect_ext (eps1 : list Endpoint) :
  forall eps2 i groups,
    map chainId eps1 = map chainId eps2 ->
    collect eps1 i groups = collect eps2 i groups.
Proof.
  induction eps1 as [|e1 eps1 IH]; intros [|e2 eps2] i groups H; simpl in *;
    try discriminate; [done|].
  inversion H as [[Hc Ht]]. rewrite Hc. by apply IH.
Qed.

Lemma lookup_map_eq {A B} (f : A -> B) (l1 l2 : list A) (j : nat) (x : A) :
  map f l1 = map f l2 -> l1 !! j = Some x ->
  exists y, l2 !! j = Some y /\ f y = f x.
Proof.
  intros H Hx.
  assert (map f l2 !! j = Some (f x)) as Hy.
  { rewrite <- H. change (map f l1) with (f <$> l1). by rewrite list_lookup_fmap, Hx. }
  change (map f l2) with (f <$> l2) in Hy. rewrite list_lookup_fmap in Hy.
  destruct (l2 !! j) as [y|]; [|discriminate]. inversion Hy. eauto.
Qed.

(** The groups, the deviations and the flags depend on the summaries
    only through their chain ids and medians. *)
Lemma group_by_chain_ext (eps1 eps2 : list Endpoint) (tol : Q) :
  map chainId eps1 = map chainId eps2 ->
  map baseFeeMedianGwei eps1 = map baseFeeMedianGwei eps2 ->
  fst (group_by_chain eps1 tol) = fst (group_by_chain eps2 tol) /\
  map annotation (snd (group_by_chain eps1 tol)) = map annotation (snd (group_by_chain eps2 tol)).
Proof.
  intros Hc Hm.
  destruct (group_by_chain_spec eps1 tol) as [Hg1 Hs1].
  destruct (group_by_chain_spec eps2 tol) as [Hg2 Hs2].
  rewrite Hg1, Hg2, Hs1, Hs2. split.
  - rewrite (collect_ext eps1 eps2 0 [] Hc). apply map_ext. intros [cid grp]. simpl.
    unfold members_of. rewrite Hc. by rewrite (consensus_ext eps1 eps2 cid Hc Hm).
  - rewrite !map_map. apply list_eq. intros j.
    change (map ?f eps1) with (f <$> eps1). change (map ?f eps2) with (f <$> eps2).
    rewrite !list_lookup_fmap.
    destruct (eps1 !! j) as [e1|] eqn:H1.
    + destruct (lookup_map_eq chainId eps1 eps2 j e1 Hc H1) as (e2 & H2 & Hc2).
      destruct (lookup_map_eq baseFeeMedianGwei eps1 eps2 j e1 Hm H1) as (e2' & H2' & Hm2).
      rewrite H2 in H2'. inversion H2'; subst e2'. rewrite H2. simpl. f_equal.
      unfold annotation, annotate, deviation. simpl.
      by rewrite Hc2, Hm2, (consensus_ext eps1 eps2 _ Hc Hm).
    + assert (eps2 !! j = None) as ->; [|done].
      apply lookup_ge_None. apply lookup_ge_None in H1.
      rewrite <- (length_map chainId eps2), <- Hc, length_map. done.
Qed.

(** C9.  Running [group_by_chain] again on the summaries that a first
    run has annotated gives the same groups and leaves every summary as
    it is; and two lists of summaries with the same chain ids and the
    same medians get the same groups, deviations and flags. *)
Theorem C9_annotation_idempotent (eps : list Endpoint) (tol : Q) :
  group_by_chain (snd (group_by_chain eps tol)) tol = group_by_chain eps tol
  /\ forall eps2,
      map chainId eps2 = map chainId eps ->
      map baseFeeMedianGwei eps2 = map baseFeeMedianGwei eps ->
      fst (group_by_chain eps2 tol) = fst (group_by_chain eps tol) /\
      map annotation (snd (group_by_chain eps2 tol))
      = map annotation (snd (group_by_chain eps tol)).
Proof.
  split; [|intros eps2 Hc Hm; by apply group_by_chain_ext].
  set (once := snd (group_by_chain eps tol)).
  assert (Ho : once = map (fun ep => annotate (consensus eps (chainId ep)) tol ep) eps)
    by apply group_by_chain_spec.
  assert (Hc : map chainId once = map chainId eps).
  { rewrite Ho, map_map. by apply map_ext. }
  assert (Hm : map baseFeeMedianGwei once = map baseFeeMedianGwei eps).
  { rewrite Ho, map_map. by apply map_ext. }
  rewrite (surjective_pairing (group_by_chain once tol)).
  rewrite (surjective_pairing (group_by_chain eps tol)). f_equal.
  - by apply group_by_chain_ext.
  - rewrite (proj2 (group_by_chain_spec once tol)).
    transitivity (map (fun ep => annotate (consensus eps (chainId ep)) tol ep) once).
    { apply map_ext. intros ep. by rewrite (consensus_ext once eps _ Hc Hm). }
    fold once. rewrite Ho, map_map. apply map_ext. intros ep.
    by rewrite annotate_annotate, chainId_annotate.
Qed.

Lemma C9_annotation_idempotent_witness :
  map annotation
      (snd (group_by_chain [set_annotation 5 true (Samples.summary_with 1 10);
                            set_annotation 7 false (Samples.summary_with 1 40)] 30))
  = map annotation
        (snd (group_by_chain [Samples.summary_with 1 10; Samples.summary_with 1 40] 30)).
Proof.
  refine (proj2 (proj2 (C9_annotation_idempotent
                          [Samples.summary_with 1 10; Samples.summary_with 1 40] 30)
                       [set_annotation 5 true (Samples.summary_with 1 10);
                        set_annotation 7 false (Samples.summary_with 1 40)] _ _)).
  - reflexivity.
  - reflexivity.
Defined.

(** * The grouping pass in binary64 arithmetic: its closed form *)

Module Binary64Facts.

Import Binary64.

Lemma f_has_key_In (cid : Z) (groups : Groups) :
  has_key cid groups = true <-> In cid (map fst groups).
Proof.
  unfold has_key. rewrite existsb_exists, in_map_iff. split.
  - intros (kv & Hin & Heq). apply Z.eqb_eq in Heq. eauto.
  - intros (kv & Heq & Hin). exists kv. split; [done|]. by apply Z.eqb_eq.
Qed.

Lemma f_keys_append_member (cid : Z) (i : nat) (groups : Groups) :
  map fst (append_member cid i groups) = map fst groups.
Proof.
  unfold append_member. rewrite map_map. apply map_ext.
  intros [k g]. simpl. by destruct (k =? cid)%Z.
Qed.

Lemma f_In_append_member (cid : Z) (i : nat) (groups : Groups) (k : Z) (g' : Group) :
  In (k, g') (append_member cid i groups) ->
  exists g, In (k, g) groups /\
            endpoints g' = endpoints g ++ (if (k =? cid)%Z then [i] else []).
Proof.
  unfold append_member. rewrite in_map_iff. intros ([k0 g] & Heq & Hin). simpl in Heq.
  destruct (Z.eqb_spec k0 cid) as [->|Hne]; inversion Heq; subst.
  - exists g. split; [done|]. simpl. by rewrite Z.eqb_refl.
  - exists g'. split; [done|]. destruct (Z.eqb_spec k cid); [done|]. by rewrite app_nil_r.
Qed.

Section FCollect.

Variable eps : list Endpoint.

Lemma f_collect_step (n : nat) (ep : Endpoint) (groups : Groups) :
  eps !! n = Some ep ->
  collected eps n groups ->
  collected eps (S n)
      (append_member (chainId ep) n
         (setdefault (chainId ep) {| endpoints := []; globalMedianBaseFeeGwei := PrimFloat.zero |} groups)).
Proof.
  intros Hn (Hnd & Hmem & Hcov).
  assert (Hseen : forall c, seen eps c (S n) = seen eps c n ++ (if (chainId ep =? c)%Z then [n] else [])).
  { intros c. unfold seen. rewrite filter_seq_snoc, list_lookup_fmap, Hn. done. }
  unfold setdefault. destruct (has_key (chainId ep) groups) eqn:Hk.
  - split; [by rewrite f_keys_append_member|]. split.
    + intros c g' Hin. apply f_In_append_member in Hin as (g & Hin & ->).
      destruct (Hmem _ _ Hin) as [Hg Hne]. rewrite Hseen, Hg.
      rewrite (Z.eqb_sym (chainId ep) c). split; [done|].
      intros E. apply app_eq_nil in E as [E _]. rewrite <- Hg in E. done.
    + intros i e Hi He. rewrite f_keys_append_member.
      destruct (Nat.eq_dec i n) as [->|Hne].
      * rewrite Hn in He. inversion He; subst. by apply f_has_key_In.
      * apply (Hcov i); [lia|done].
  - assert (Hfresh : ~ In (chainId ep) (map fst groups)).
    { intros H. apply f_has_key_In in H. congruence. }
    assert (Hnone : seen eps (chainId ep) n = []).
    { unfold seen. destruct (List.filter _ (seq 0 n)) as [|j l] eqn:E; [done|].
      exfalso. assert (In j (j :: l)) as Hj by (by left). rewrite <- E in Hj.
      apply filter_In in Hj as [Hj Hc]. apply in_seq in Hj.
      rewrite list_lookup_fmap in Hc. destruct (eps !! j) as [e|] eqn:He; [|discriminate].
      simpl in Hc. apply Z.eqb_eq in Hc. apply Hfresh. rewrite <- Hc.
      apply (Hcov j); [lia|done]. }
    split; [|split].
    + rewrite f_keys_append_member, map_app. simpl.
      apply NoDup_ListNoDup, NoDup_app. split; [by apply NoDup_ListNoDup|]. split.
      * intros x Hx [<-|[]]%list_elem_of_In. by apply Hfresh, list_elem_of_In.
      * apply NoDup_singleton.
    + intros c g' Hin. apply f_In_append_member in Hin as (g & Hin & ->).
      rewrite Hseen, (Z.eqb_sym (chainId ep) c).
      apply in_app_or in Hin as [Hin|[Heq|[]]].
      * destruct (Hmem _ _ Hin) as [Hg Hne]. rewrite Hg. split; [done|].
        intros E. apply app_eq_nil in E as [E _]. rewrite <- Hg in E. done.
      * inversion Heq; subst. rewrite Hnone, Z.eqb_refl. done.
    + intros i e Hi He. rewrite f_keys_append_member, map_app. apply in_or_app.
      destruct (Nat.eq_dec i n) as [->|Hne].
      * rewrite Hn in He. inversion He; subst. right. by left.
      * left. apply (Hcov i); [lia|done].
Qed.

Lemma f_collect_inv (rest : list Endpoint) :
  forall pre groups,
    eps = pre ++ rest ->
    collected eps (length pre) groups ->
    collected eps (length eps) (collect rest (length pre) groups).
Proof.
  induction rest as [|ep rest IH]; intros pre groups Heps Hinv; simpl.
  - rewrite app_nil_r in Heps. subst pre. done.
  - assert (eps !! length pre = Some ep) as Hn by (rewrite Heps; apply list_lookup_middle; done).
    pose proof (f_collect_step _ _ _ Hn Hinv) as Hstep.
    pose proof (IH (pre ++ [ep])
                  (append_member (chainId ep) (length pre)
                     (setdefault (chainId ep)
                        {| endpoints := []; globalMedianBaseFeeGwei := PrimFloat.zero |} groups))) as IH'.
    rewrite length_app in IH'. simpl in IH'. rewrite Nat.add_1_r in IH'.
    apply IH'; [by rewrite <- app_assoc | done].
Qed.

(** The first loop: one group for every chain id that occurs, and its
    members are the positions of the endpoints on that chain. *)
Lemma f_collect_spec :
  List.NoDup (map fst (collect eps 0 [])) /\
  (forall cid g, In (cid, g) (collect eps 0 []) ->
                 endpoints g = members_of eps cid /\ endpoints g <> []) /\
  (forall ep, In ep eps -> has_key (chainId ep) (collect eps 0 []) = true).
Proof.
  destruct (f_collect_inv eps [] [] eq_refl) as (Hnd & Hmem & Hcov).
  { split; [constructor|]. split; [intros ? ? []|]. intros i ep Hi. simpl in Hi. lia. }
  simpl in *. split; [done|]. split.
  - intros cid g Hin. destruct (Hmem _ _ Hin) as [Hg Hne]. split; [|done].
    rewrite Hg. unfold seen, members_of, positions. by rewrite length_map.
  - intros ep Hin. apply f_has_key_In.
    apply list_elem_of_In, list_elem_of_lookup in Hin as [i Hi].
    apply (Hcov i ep); [|done]. by apply lookup_lt_Some in Hi.
Qed.

End FCollect.

Lemma f_member_medians_alt (st : list Endpoint) (members : list nat) :
  omap (fun i => baseFeeMedianGwei <$> st !! i) members
  = omap (fun i => map baseFeeMedianGwei st !! i) members.
Proof.
  induction members as [|i members IH]; [done|]. simpl.
  change (map baseFeeMedianGwei st) with (baseFeeMedianGwei <$> st).
  rewrite list_lookup_fmap.
  destruct (baseFeeMedianGwei <$> st !! i); [f_equal|]; exact IH.
Qed.

Lemma f_group_median_ext (st1 st2 : list Endpoint) (members : list nat) :
  map baseFeeMedianGwei st1 = map baseFeeMedianGwei st2 ->
  group_median st1 members = group_median st2 members.
Proof.
  intros H. unfold group_median. by rewrite !f_member_medians_alt, H.
Qed.

Lemma f_consensus_ext (st1 st2 : list Endpoint) (cid : Z) :
  map chainId st1 = map chainId st2 ->
  map baseFeeMedianGwei st1 = map baseFeeMedianGwei st2 ->
  consensus st1 cid = consensus st2 cid.
Proof.
  intros Hc Hm. unfold consensus, members_of. rewrite Hc. by apply f_group_median_ext.
Qed.

Lemma f_members_of_existsb (st : list Endpoint) (cid : Z) (j : nat) (ep : Endpoint) :
  st !! j = Some ep ->
  existsb (Nat.eqb j) (members_of st cid) = (chainId ep =? cid)%Z.
Proof.
  intros Hj. apply eq_true_iff_eq. rewrite existsb_exists, Z.eqb_eq. split.
  - intros (x & Hx & Hjx). apply Nat.eqb_eq in Hjx. subst x.
    apply positions_spec in Hx. rewrite list_lookup_fmap, Hj in Hx. by inversion Hx.
  - intros Hc. exists j. split; [|apply Nat.eqb_refl].
    apply positions_spec. by rewrite list_lookup_fmap, Hj, <- Hc.
Qed.

(** One turn of the second loop rewrites the members of the group and
    nothing else. *)
Lemma f_process_group_store (tol : PrimFloat.float) (st : list Endpoint) (cid : Z) (g : PrimFloat.float) :
  foldl (fun st i => alter (annotate g tol) i st) st (members_of st cid)
  = map (fun ep => if (chainId ep =? cid)%Z then annotate g tol ep else ep) st.
Proof.
  apply list_eq. intros j.
  rewrite foldl_alter_lookup by apply NoDup_positions.
  change (map ?f st) with (f <$> st). rewrite list_lookup_fmap.
  destruct (st !! j) as [ep|] eqn:Hj.
  - rewrite (f_members_of_existsb st cid j ep Hj). simpl. by destruct (chainId ep =? cid)%Z.
  - by destruct (existsb _ _).
Qed.

Lemma f_process_groups_spec (tol : PrimFloat.float) (groups : Groups) :
  forall st,
    List.NoDup (map fst groups) ->
    (forall cid grp, In (cid, grp) groups -> endpoints grp = members_of st cid) ->
    fst (process_groups tol groups st)
    = map (fun kv => (fst kv,
                      {| endpoints := endpoints (snd kv);
                         globalMedianBaseFeeGwei := py_round (consensus st (fst kv)) 3 |}))
          groups
    /\ snd (process_groups tol groups st)
       = map (fun ep => if has_key (chainId ep) groups
                        then annotate (consensus st (chainId ep)) tol ep else ep)
             st.
Proof.
  induction groups as [|[cid grp] rest IH]; intros st Hnd Hmem; simpl.
  - split; [done|]. by rewrite map_id.
  - inversion Hnd as [|? ? Hfresh Hnd']; subst.
    pose proof (Hmem cid grp (or_introl eq_refl)) as Hgrp.
    rewrite Hgrp. fold (consensus st cid).
    rewrite f_process_group_store.
    set (st' := map (fun ep => if (chainId ep =? cid)%Z
                               then annotate (consensus st cid) tol ep else ep) st).
    assert (Hc : map chainId st' = map chainId st).
    { unfold st'. rewrite map_map. apply map_ext. intros ep. by destruct (chainId ep =? cid)%Z. }
    assert (Hm : map baseFeeMedianGwei st' = map baseFeeMedianGwei st).
    { unfold st'. rewrite map_map. apply map_ext. intros ep. by destruct (chainId ep =? cid)%Z. }
    destruct (IH st' Hnd') as [IHg IHs].
    { intros c g Hin. unfold members_of. rewrite Hc. apply Hmem. by right. }
    destruct (process_groups tol rest st') as [rest' st''] eqn:E. simpl in *.
    split.
    + f_equal. rewrite IHg. apply map_ext. intros [c g]. simpl.
      by rewrite (f_consensus_ext st' st c Hc Hm).
    + rewrite IHs. unfold st'. rewrite map_map. apply map_ext. intros ep.
      rewrite (Z.eqb_sym cid (chainId ep)).
      destruct (Z.eqb_spec (chainId ep) cid) as [Hc'|Hc']; simpl.
      * assert (has_key cid rest = false) as Hk.
        { destruct (has_key cid rest) eqn:Hk; [|done]. apply f_has_key_In in Hk. done. }
        rewrite Hc', Hk. done.
      * rewrite (f_consensus_ext st' st _ Hc Hm). done.
Qed.

(** [group_by_chain] in closed form. *)
Lemma f_group_by_chain_spec (eps : list Endpoint) (tol : PrimFloat.float) :
  fst (group_by_chain eps tol)
  = map (fun kv => (fst kv,
                    {| endpoints := members_of eps (fst kv);
                       globalMedianBaseFeeGwei := py_round (consensus eps (fst kv)) 3 |}))
        (collect eps 0 [])
  /\ snd (group_by_chain eps tol)
     = map (fun ep => annotate (consensus eps (chainId ep)) tol ep) eps.
Proof.
  destruct (f_collect_spec eps) as (Hnd & Hmem & Hcov).
  destruct (f_process_groups_spec tol (collect eps 0 []) eps Hnd) as [Hg Hs].
  { intros cid grp Hin. by apply Hmem. }
  unfold group_by_chain. rewrite Hg, Hs. split.
  - apply map_ext_in. intros [cid grp] Hin. simpl. by rewrite (proj1 (Hmem _ _ Hin)).
  - apply map_ext_in. intros ep Hin. by rewrite Hcov.
Qed.

Lemma f_group_by_chain_members (eps : list Endpoint) (tol : PrimFloat.float) (groups : Groups)
    (store : list Endpoint) :
  group_by_chain eps tol = (groups, store) ->
  store = map (fun ep => annotate (consensus eps (chainId ep)) tol ep) eps /\
  forall cid grp,
    In (cid, grp) groups ->
    endpoints grp = members_of eps cid /\
    endpoints grp <> [] /\
    globalMedianBaseFeeGwei grp = py_round (consensus eps cid) 3 /\
    group_median store (endpoints grp) = consensus eps cid.
Proof.
  intros H. destruct (f_group_by_chain_spec eps tol) as [Hg Hs].
  rewrite H in Hg, Hs. simpl in Hg, Hs. split; [done|].
  intros cid grp Hin. rewrite Hg in Hin.
  apply in_map_iff in Hin as ([c g] & Heq & Hin). simpl in Heq. inversion Heq; subst c grp.
  clear Heq. simpl.
  destruct (f_collect_spec eps) as (_ & Hmem & _). destruct (Hmem _ _ Hin) as [Hm Hne].
  split; [done|]. split; [by rewrite <- Hm|]. split; [done|].
  unfold consensus. apply f_group_median_ext.
  rewrite Hs, map_map. by apply map_ext.
Qed.

Lemma f_members_of_spec (eps : list Endpoint) (cid : Z) (i : nat) (ep : Endpoint) :
  eps !! i = Some ep -> (In i (members_of eps cid) <-> chainId ep = cid).
Proof.
  intros Hi. unfold members_of. rewrite positions_spec, list_lookup_fmap, Hi. simpl.
  split; [by intros [= ->] | by intros ->].
Qed.

Lemma f_members_of_lookup (eps : list Endpoint) (cid : Z) (i : nat) :
  In i (members_of eps cid) -> exists ep, eps !! i = Some ep /\ chainId ep = cid.
Proof.
  unfold members_of. rewrite positions_spec, list_lookup_fmap.
  destruct (eps !! i) as [ep|]; [|discriminate]. intros [= <-]. eauto.
Qed.


End Binary64Facts.

(** * Order and sign of binary64 numbers *)

Module Binary64Order.

Import PrimFloat SpecFloat FloatOps FloatAxioms.
Import Binary64.

Lemma SFcompare_Eq_sym (x y : spec_float) :
  SFcompare x y = Some Eq -> SFcompare y x = Some Eq.
Proof.
  destruct x as [sx|sx| |sx mx ex], y as [sy|sy| |sy my ey]; simpl; try done;
    try (destruct sx; done); try (destruct sy; done).
  - destruct sx, sy; done.
  - destruct sx, sy; try done.
    + destruct (Z.compare_spec ex ey) as [->| |]; try done.
      rewrite Z.compare_refl. intros [= H].
      destruct (Pos.compare_cont Eq mx my) eqn:E; try done.
      apply Pos.compare_eq in E as ->. by rewrite Pos.compare_cont_refl.
    + destruct (Z.compare_spec ex ey) as [->| |]; try done.
      rewrite Z.compare_refl. intros [= H].
      apply Pos.compare_eq in H as ->. by rewrite Pos.compare_cont_refl.
Qed.

(** [x == y] implies [y <= x]. *)
Lemma eqb_leb (x y : float) : (x =? y)%float = true -> (y <=? x)%float = true.
Proof.
  rewrite eqb_spec, leb_spec. unfold SFeqb, SFleb.
  destruct (SFcompare (Prim2SF x) (Prim2SF y)) as [[| |]|] eqn:E; try done.
  by rewrite (SFcompare_Eq_sym _ _ E).
Qed.

Lemma ltb_leb (x y : float) : (x <? y)%float = true -> (x <=? y)%float = true.
Proof.
  rewrite ltb_spec, leb_spec. unfold SFltb, SFleb.
  by destruct (SFcompare (Prim2SF x) (Prim2SF y)) as [[| |]|].
Qed.

Lemma Prim2SF_zero : Prim2SF 0 = S754_zero false.
Proof. reflexivity. Qed.

Lemma Prim2SF_two : Prim2SF 2 = S754_finite false 4503599627370496 (-51).
Proof. reflexivity. Qed.

Lemma leb_zero_nonneg (x : float) : (0 <=? x)%float = true <-> SFnonneg (Prim2SF x).
Proof.
  rewrite leb_spec, Prim2SF_zero. unfold SFleb.
  destruct (Prim2SF x) as [s|[|]| |[|] m e]; simpl; split; done.
Qed.

(** Among the numbers that are not negative, the positive ones are
    those that are not zero. *)
Lemma positive_nonzero (x : float) :
  (0 <=? x)%float = true -> (0 <? x)%float = negb (x =? 0)%float.
Proof.
  rewrite leb_spec, ltb_spec, eqb_spec, Prim2SF_zero. unfold SFleb, SFltb, SFeqb.
  by destruct (Prim2SF x) as [s|[|]| |[|] m e].
Qed.

Lemma zero_not_positive (x : float) : (x =? 0)%float = true -> (0 <? x)%float = false.
Proof.
  rewrite ltb_spec, eqb_spec, Prim2SF_zero. unfold SFltb, SFeqb.
  by destruct (Prim2SF x) as [s|[|]| |[|] m e].
Qed.

(** Rounding a mantissa that is not negative never gives a negative
    number, and never fails. *)
Lemma shr_1_nonneg (mrs : shr_record) : (0 <= shr_m mrs)%Z -> (0 <= shr_m (shr_1 mrs))%Z.
Proof. destruct mrs as [[|[p|p|]|[p|p|]] r s]; simpl; lia. Qed.

Lemma iter_pos_shr_1_nonneg (p : positive) (mrs : shr_record) :
  (0 <= shr_m mrs)%Z -> (0 <= shr_m (iter_pos shr_1 p mrs))%Z.
Proof.
  revert mrs. induction p as [p IH|p IH|]; intros mrs H; simpl.
  - by apply IH, IH, shr_1_nonneg.
  - by apply IH, IH.
  - by apply shr_1_nonneg.
Qed.

Lemma shr_fexp_nonneg (m e : Z) (l : location) :
  (0 <= m)%Z -> (0 <= shr_m (fst (shr_fexp prec emax m e l)))%Z.
Proof.
  intros H. unfold shr_fexp, shr.
  assert (0 <= shr_m (shr_record_of_loc m l))%Z as H0 by (by destruct l as [|[| |]]).
  destruct (fexp prec emax (Zdigits2 m + e) - e)%Z; simpl; [done| |done].
  by apply iter_pos_shr_1_nonneg.
Qed.

Lemma round_nearest_even_nonneg (m : Z) (l : location) :
  (0 <= m)%Z -> (0 <= round_nearest_even m l)%Z.
Proof.
  intros H. unfold round_nearest_even.
  destruct l as [|[| |]]; [lia| |lia|lia]. destruct (Z.even m); lia.
Qed.

Lemma binary_round_aux_nonneg (m e : Z) (l : location) :
  (0 <= m)%Z -> SFnonneg (binary_round_aux prec emax false m e l).
Proof.
  intros H. unfold binary_round_aux.
  pose proof (shr_fexp_nonneg m e l H) as H1.
  destruct (shr_fexp prec emax m e l) as [mrs' e']. simpl in H1.
  pose proof (shr_fexp_nonneg _ e' loc_Exact
                (round_nearest_even_nonneg _ (loc_of_shr_record mrs') H1)) as H2.
  destruct (shr_fexp prec emax _ e' loc_Exact) as [mrs'' e'']. simpl in H2.
  destruct (shr_m mrs'') as [|p|p]; [done| |lia].
  by destruct (e'' <=? emax - prec)%Z.
Qed.

Lemma binary_round_nonneg (m : positive) (e : Z) : SFnonneg (binary_round prec emax false m e).
Proof.
  unfold binary_round. destruct (shl_align _ _ _) as [mz ez].
  by apply binary_round_aux_nonneg.
Qed.

Lemma binary_normalize_nonneg (m e : Z) :
  (0 <= m)%Z -> SFnonneg (binary_normalize prec emax m e false).
Proof.
  intros H. destruct m as [|p|p]; simpl; [done| |lia]. apply binary_round_nonneg.
Qed.

Lemma SFldexp_nonneg (x : spec_float) (e : Z) : SFnonneg x -> SFnonneg (SFldexp prec emax x e).
Proof.
  destruct x as [s|[|]| |[|] m ex]; simpl; try done. intros _. apply binary_round_nonneg.
Qed.

(** The float of a specification that is not negative is not negative. *)
Lemma SF2Prim_nonneg (y : spec_float) : SFnonneg y -> (0 <=? SF2Prim y)%float = true.
Proof.
  intros H. apply leb_zero_nonneg.
  destruct y as [[|]|[|]| |[|] m e]; simpl in H; try done; try reflexivity.
  unfold SF2Prim, Z.ldexp. rewrite ldshiftexp_spec. apply SFldexp_nonneg.
  rewrite of_uint63_spec. apply binary_normalize_nonneg.
  apply Uint63.to_Z_bounded.
Qed.

Lemma SFadd_nonneg (x y : spec_float) :
  SFnonneg x -> SFnonneg y -> SFnonneg (SFadd prec emax x y).
Proof.
  destruct x as [[|]|[|]| |[|] mx ex]; simpl; try done;
    destruct y as [[|]|[|]| |[|] my ey]; simpl; try done.
  intros _ _. unfold binary_normalize. simpl.
  unfold binary_round.
  destruct (shl_align _ _ _) as [mz ez]. by apply binary_round_aux_nonneg.
Qed.

Lemma SFdiv_nonneg (x : spec_float) (my : positive) (ey : Z) :
  SFnonneg x -> SFnonneg (SFdiv prec emax x (S754_finite false my ey)).
Proof.
  destruct x as [sx|[|]| |[|] mx ex]; simpl; try done.
  intros _. unfold SFdiv_core_binary.
  match goal with |- context [Z.div_eucl ?a ?b] =>
    pose proof (Z_div_mod a b ltac:(lia)) as Hd;
    assert (0 <= a)%Z as Ha; [|destruct (Z.div_eucl a b) as [q r]]
  end.
  { match goal with |- context [match ?s with 0%Z => _ | Z.pos _ => _ | Z.neg _ => _ end] =>
      destruct s; [lia | apply Z.shiftl_nonneg; lia | lia] end. }
  apply binary_round_aux_nonneg. nia.
Qed.

(** The mean of two numbers that are not negative, as line 145
    computes it, is not negative. *)
Lemma mean_nonneg (a b : float) :
  (0 <=? a)%float = true -> (0 <=? b)%float = true -> (0 <=? (a + b) / 2)%float = true.
Proof.
  rewrite !leb_zero_nonneg. intros Ha Hb.
  rewrite div_spec, add_spec, Prim2SF_two.
  by apply SFdiv_nonneg, SFadd_nonneg.
Qed.

Lemma of_ratio_nonneg (n : Z) (d : positive) :
  (0 <= n)%Z -> (0 <=? Binary64.of_ratio n d)%float = true.
Proof.
  intros H. destruct n as [|p|p]; [reflexivity| |lia].
  unfold Binary64.of_ratio. by apply SF2Prim_nonneg, SFdiv_nonneg.
Qed.

(** Rounding to decimals keeps a number that is not negative so. *)
Lemma f_py_round_nonneg (x : float) (ndigits : nat) :
  (0 <=? x)%float = true -> (0 <=? Binary64.py_round x ndigits)%float = true.
Proof.
  intros H. unfold Binary64.py_round.
  pose proof (proj1 (leb_zero_nonneg x) H) as Hx.
  destruct (Prim2SF x) as [s|s| |s m e] eqn:E; try exact H.
  destruct s; [done|].
  destruct (PyNum.round_half_even _) as [|k|k]; [reflexivity| |reflexivity].
  by apply SF2Prim_nonneg, SFdiv_nonneg.
Qed.

End Binary64Order.

(** * The consensus of a group in binary64 arithmetic *)

Module Binary64Consensus.

Import PrimFloat.
Import Binary64.

Lemma f_In_insert_sorted (x y : float) (l : list float) :
  In y (insert_sorted x l) <-> y = x \/ In y l.
Proof.
  induction l as [|z l IH]; simpl.
  - intuition.
  - destruct (z <? x)%float; simpl; [|intuition]. rewrite IH. intuition.
Qed.

Lemma f_In_sorted (y : float) (l : list float) : In y (sorted l) <-> In y l.
Proof.
  induction l as [|x l IH]; simpl; [tauto|].
  rewrite f_In_insert_sorted, IH. intuition.
Qed.

Lemma f_length_insert_sorted (x : float) (l : list float) :
  length (insert_sorted x l) = S (length l).
Proof.
  induction l as [|z l IH]; simpl; [reflexivity|].
  destruct (z <? x)%float; simpl; congruence.
Qed.

Lemma f_length_sorted (l : list float) : length (sorted l) = length l.
Proof.
  induction l as [|x l IH]; simpl; [reflexivity|].
  rewrite f_length_insert_sorted. congruence.
Qed.

(** The median of a non-empty list exists; it is one of the elements,
    or the mean of two of them. *)
Lemma f_median_cases (l : list float) :
  l <> [] ->
  exists m, median l = Some m /\
            (In m l \/ exists a b, In a l /\ In b l /\ m = ((a + b) / 2)%float).
Proof.
  intros Hne. unfold median. rewrite f_length_sorted.
  assert (0 < length l)%nat as Hlen by (destruct l; [done | simpl; lia]).
  destruct (Nat.eqb_spec (length l) 0) as [E|_]; [lia|].
  assert (Hlk : forall i, (i < length l)%nat -> exists x, sorted l !! i = Some x /\ In x l).
  { intros i Hi. rewrite <- f_length_sorted in Hi.
    apply lookup_lt_is_Some_2 in Hi as [x Hx]. exists x. split; [done|].
    apply f_In_sorted, list_elem_of_In, list_elem_of_lookup. eauto. }
  pose proof (Nat.div_lt (length l) 2 Hlen ltac:(lia)) as Hhalf.
  destruct (Nat.eqb_spec (length l mod 2) 1) as [_|_].
  - destruct (Hlk _ Hhalf) as (x & -> & Hx). eauto.
  - destruct (Hlk (length l / 2 - 1)%nat ltac:(lia)) as (a & -> & Ha).
    destruct (Hlk _ Hhalf) as (b & -> & Hb).
    eexists. split; [done|]. right. eauto.
Qed.

(** The consensus of a group is zero when no member has a positive
    median, and the median of the positive medians otherwise. *)
Lemma f_group_median_cases (st : list Endpoint) (members : list nat) :
  let positive :=
    List.filter (fun m => (0 <? m)%float)
                (omap (fun i => baseFeeMedianGwei <$> st !! i) members) in
  (positive = [] /\ group_median st members = 0%float) \/
  (positive <> [] /\ median positive = Some (group_median st members)).
Proof.
  intros positive. unfold group_median. fold positive.
  destruct positive as [|q l] eqn:E; [by left|]. right.
  destruct (f_median_cases (q :: l)) as (m & Hm & _); [done|].
  rewrite Hm. done.
Qed.

(** The consensus is never negative. *)
Lemma f_group_median_nonneg (st : list Endpoint) (members : list nat) :
  (0 <=? group_median st members)%float = true.
Proof.
  unfold group_median.
  set (positive := List.filter _ _).
  assert (Hpos : forall x, In x positive -> (0 <? x)%float = true).
  { intros x Hx. by apply filter_In in Hx as [_ Hx]. }
  destruct positive as [|q l] eqn:E; [reflexivity|].
  destruct (f_median_cases (q :: l)) as (m & Hm & [Hin|(a & b & Ha & Hb & ->)]); [done|..];
    rewrite Hm; simpl.
  - by apply Binary64Order.ltb_leb, Hpos.
  - apply Binary64Order.mean_nonneg; by apply Binary64Order.ltb_leb, Hpos.
Qed.

Lemma f_In_member_medians (st : list Endpoint) (members : list nat) (m : float) :
  In m (omap (fun i => baseFeeMedianGwei <$> st !! i) members) ->
  exists i ep, In i members /\ st !! i = Some ep /\ m = baseFeeMedianGwei ep.
Proof.
  induction members as [|j members IH]; simpl; [done|].
  destruct (st !! j) as [ep|] eqn:Hj; simpl.
  - intros [<-|Hin]; [exists j, ep; by auto|].
    destruct (IH Hin) as (i & e & Hi & He & Hm). exists i, e. by auto.
  - intros Hin. destruct (IH Hin) as (i & e & Hi & He & Hm). exists i, e. by auto.
Qed.

(** What [group_by_chain] returns, group by group. *)
Lemma f_report_group (eps : list Endpoint) (tol : float) (groups : Groups)
    (store : list Endpoint) (cid : Z) (grp : Group) :
  group_by_chain eps tol = (groups, store) ->
  In (cid, grp) groups ->
  let g_med := group_median store (endpoints grp) in
  endpoints grp <> [] /\
  (forall i ep, store !! i = Some ep -> (In i (endpoints grp) <-> chainId ep = cid)) /\
  globalMedianBaseFeeGwei grp = py_round g_med 3 /\
  (forall i, In i (endpoints grp) ->
             exists ep, store !! i = Some ep /\
                        deviationPct ep = Some (py_round (deviation g_med ep) 2) /\
                        isOutlier ep = Some (tol <=? abs (deviation g_med ep))%float).
Proof.
  intros H Hin g_med.
  destruct (Binary64Facts.f_group_by_chain_members eps tol groups store H) as [Hstore Hgroups].
  destruct (Hgroups _ _ Hin) as (Hm & Hne & Hglob & Hg).
  assert (Hlk : forall i, store !! i
                          = (fun ep => annotate (consensus eps (chainId ep)) tol ep) <$> eps !! i).
  { intros i. rewrite Hstore. change (map ?f eps) with (f <$> eps). apply list_lookup_fmap. }
  split; [done|]. split; [|split].
  - intros i ep Hi. rewrite Hlk in Hi.
    destruct (eps !! i) as [ep0|] eqn:Hi0; [|discriminate]. injection Hi as <-.
    rewrite Hm. simpl. by apply Binary64Facts.f_members_of_spec.
  - unfold g_med. by rewrite Hg.
  - intros i Hi. rewrite Hm in Hi.
    apply Binary64Facts.f_members_of_lookup in Hi as (ep0 & Hi0 & Hc).
    eexists. split; [by rewrite Hlk, Hi0|]. simpl. unfold g_med. rewrite Hg, Hc. done.
Qed.

(** Every summary has the group of its chain. *)
Lemma f_group_exists (eps : list Endpoint) (tol : float) (ep : Endpoint) :
  In ep eps -> exists grp, In (chainId ep, grp) (fst (group_by_chain eps tol)).
Proof.
  intros Hin. rewrite (proj1 (Binary64Facts.f_group_by_chain_spec eps tol)).
  destruct (Binary64Facts.f_collect_spec eps) as (_ & _ & Hcov).
  apply Hcov, Binary64Facts.f_has_key_In in Hin.
  apply in_map_iff in Hin as ([c g] & Hc & Hin). simpl in Hc. subst c.
  eexists. apply in_map_iff. exists (chainId ep, g). split; [reflexivity | done].
Qed.

(** ** The medians of the summaries *)

Lemma f_median_nonneg (l : list float) (m : float) :
  (forall x, In x l -> (0 <=? x)%float = true) ->
  median l = Some m -> (0 <=? m)%float = true.
Proof.
  intros Hall Hm. destruct l as [|x l]; [discriminate|].
  destruct (f_median_cases (x :: l)) as (m' & Hm' & Hcases); [done|].
  rewrite Hm in Hm'. injection Hm' as <-.
  destruct Hcases as [Hin|(a & b & Ha & Hb & ->)]; [by apply Hall|].
  apply Binary64Order.mean_nonneg; by apply Hall.
Qed.

Lemma f_from_wei_gwei_nonneg (wei : Z) (f : float) :
  from_wei_gwei wei = Some f -> (0 <=? f)%float = true.
Proof.
  unfold from_wei_gwei. destruct (Z.eqb_spec wei 0); [by intros [= <-]|].
  destruct (Z.ltb_spec wei 0); simpl; [done|].
  destruct (MAX_WEI <? wei)%Z; [done|]. intros [= <-].
  apply Binary64Order.of_ratio_nonneg. lia.
Qed.

Lemma f_summary_median_nonneg (base_fees : list float) :
  (forall x, In x base_fees -> (0 <=? x)%float = true) ->
  (0 <=? summary_median base_fees)%float = true.
Proof.
  intros Hall. unfold summary_median. destruct base_fees as [|x l]; [reflexivity|].
  apply Binary64Order.f_py_round_nonneg.
  destruct (median (x :: l)) as [m|] eqn:E; simpl; [|reflexivity].
  by apply (f_median_nonneg (x :: l)).
Qed.

(** The median of a summary that [analyze_endpoint] has built is not
    negative: [from_wei] accepts no negative fee. *)
Lemma analyzed_nonneg (ep : Endpoint) :
  analyzed ep -> (0 <=? baseFeeMedianGwei ep)%float = true.
Proof.
  intros (fees & _ & ->). apply f_summary_median_nonneg.
  intros x Hx. apply list_elem_of_In, list_elem_of_omap in Hx as (wei & _ & Hx).
  by apply (f_from_wei_gwei_nonneg wei).
Qed.

End Binary64Consensus.

(** * Flags, consensus and deviation in binary64 arithmetic *)

(** C3, as amended.  Every summary is annotated.  The reported
    [deviationPct] is the deviation rounded to two decimals, while
    [isOutlier] compares the deviation itself, as it is computed in
    binary64 arithmetic and before that rounding, with the tolerance:
    the flag is true exactly when the tolerance is at most the absolute
    deviation, so that an absolute deviation equal to the tolerance is
    flagged. *)
Theorem C3_outlier_flag (eps : list Binary64.Endpoint) (tol : PrimFloat.float) (i : nat)
    (ep : Binary64.Endpoint) :
  eps !! i = Some ep ->
  let dev := Binary64.deviation (Binary64.consensus eps (Binary64.chainId ep)) ep in
  exists ep',
    snd (Binary64.group_by_chain eps tol) !! i = Some ep' /\
    Binary64.deviationPct ep' = Some (Binary64.py_round dev 2) /\
    (Binary64.isOutlier ep' = Some true <-> PrimFloat.leb tol (PrimFloat.abs dev) = true) /\
    (Binary64.isOutlier ep' = Some false <-> PrimFloat.leb tol (PrimFloat.abs dev) = false) /\
    (PrimFloat.eqb (PrimFloat.abs dev) tol = true -> Binary64.isOutlier ep' = Some true).
Proof.
  intros Hi dev.
  rewrite (proj2 (Binary64Facts.f_group_by_chain_spec eps tol)).
  change (map ?f eps) with (f <$> eps). rewrite list_lookup_fmap, Hi. simpl.
  eexists. split; [reflexivity|]. simpl. fold dev. split; [done|].
  split; [|split].
  - split; [by intros [= ->] | by intros ->].
  - split; [by intros [= ->] | by intros ->].
  - intros E. by rewrite (Binary64Order.eqb_leb _ _ E).
Qed.

Lemma C3_outlier_flag_witness :
  exists ep',
    snd (Binary64.group_by_chain [Binary64.summary_with 1 1260; Binary64.summary_with 1 2340]
                                 (Binary64.of_ratio 30 1)) !! 1%nat = Some ep' /\
    Binary64.deviationPct ep' = Some (Binary64.of_ratio 30 1) /\
    Binary64.isOutlier ep' = Some true.
Proof.
  destruct (C3_outlier_flag [Binary64.summary_with 1 1260; Binary64.summary_with 1 2340]
                            (Binary64.of_ratio 30 1) 1 (Binary64.summary_with 1 2340) eq_refl)
    as (ep' & Hl & Hd & Ht & _).
  exists ep'. split; [exact Hl|]. split; [rewrite Hd; vm_compute; reflexivity|].
  apply Ht. vm_compute. reflexivity.
Defined.

(** C3 as stated fails: of two endpoints on one chain with medians
    1.26 and 2.34, the first deviates from the consensus by a little
    less than 30 per cent in binary64 arithmetic; the reported
    [deviationPct] is -30.0, whose absolute value is not below the
    tolerance 30, and yet [isOutlier] is false. *)
Lemma C3_flag_differs_from_reported_deviation :
  exists ep' d,
    snd (Binary64.group_by_chain [Binary64.summary_with 1 1260; Binary64.summary_with 1 2340]
                                 (Binary64.of_ratio 30 1)) !! 0%nat = Some ep' /\
    Binary64.deviationPct ep' = Some d /\
    d = Binary64.of_ratio (-30) 1 /\
    PrimFloat.leb (Binary64.of_ratio 30 1) (PrimFloat.abs d) = true /\
    Binary64.isOutlier ep' = Some false.
Proof.
  eexists _, _. split; [vm_compute; reflexivity|]. split; [reflexivity|].
  split; [vm_compute; reflexivity|]. split; [vm_compute; reflexivity | reflexivity].
Qed.

(** C5, as amended.  Every summary has the group of its chain, and for
    every group: it is not empty, and its members are the summaries
    with its chain id; the consensus, against which the deviations of
    the members are computed, is the median of the members' medians
    that are positive, and zero when there is none; the positive
    medians are those that are not zero when no median is negative,
    as is the case when every member is a summary that
    [analyze_endpoint] has built; the group carries the consensus
    rounded to three decimals. *)
Theorem C5_group_consensus (eps : list Binary64.Endpoint) (tol : PrimFloat.float) :
  let groups := fst (Binary64.group_by_chain eps tol) in
  let store := snd (Binary64.group_by_chain eps tol) in
  (forall ep, In ep eps -> exists grp, In (Binary64.chainId ep, grp) groups) /\
  forall cid grp,
    In (cid, grp) groups ->
    let member_medians :=
      omap (fun i => Binary64.baseFeeMedianGwei <$> store !! i) (Binary64.endpoints grp) in
    let positive := List.filter (fun m => PrimFloat.ltb PrimFloat.zero m) member_medians in
    let nonzero :=
      List.filter (fun m => negb (PrimFloat.eqb m PrimFloat.zero)) member_medians in
    let g_med := Binary64.group_median store (Binary64.endpoints grp) in
    Binary64.endpoints grp <> [] /\
    (forall i ep, store !! i = Some ep ->
                  (In i (Binary64.endpoints grp) <-> Binary64.chainId ep = cid)) /\
    (positive = [] -> g_med = PrimFloat.zero) /\
    (positive <> [] -> Binary64.median positive = Some g_med) /\
    ((forall i ep, In i (Binary64.endpoints grp) -> store !! i = Some ep ->
                   Binary64.analyzed ep \/
                   PrimFloat.leb PrimFloat.zero (Binary64.baseFeeMedianGwei ep) = true) ->
     positive = nonzero) /\
    Binary64.globalMedianBaseFeeGwei grp = Binary64.py_round g_med 3 /\
    (forall i, In i (Binary64.endpoints grp) ->
               exists ep, store !! i = Some ep /\
                          Binary64.deviationPct ep
                          = Some (Binary64.py_round (Binary64.deviation g_med ep) 2)).
Proof.
  intros groups store. split.
  - intros ep Hin. by apply Binary64Consensus.f_group_exists.
  - intros cid grp Hin member_medians positive nonzero g_med.
    assert (E : Binary64.group_by_chain eps tol = (groups, store))
      by (unfold groups, store; by destruct (Binary64.group_by_chain eps tol)).
    destruct (Binary64Consensus.f_report_group eps tol groups store cid grp E Hin)
      as (Hne & Hmem & Hglob & Hdev).
    pose proof (Binary64Consensus.f_group_median_cases store (Binary64.endpoints grp)) as Hcases.
    simpl in Hcases. fold member_medians positive g_med in Hcases.
    split; [exact Hne|]. split; [exact Hmem|]. split; [|split; [|split; [|split]]].
    + intros E0. destruct Hcases as [[_ Hz]|[Hn _]]; [exact Hz | contradiction].
    + intros Hn. destruct Hcases as [[E0 _]|[_ Hm]]; [contradiction | exact Hm].
    + intros Hnn. apply filter_ext_in. intros m Hm.
      apply Binary64Order.positive_nonzero.
      apply Binary64Consensus.f_In_member_medians in Hm as (i & ep & Hi & Hl & ->).
      destruct (Hnn i ep Hi Hl) as [Ha|Hle]; [by apply Binary64Consensus.analyzed_nonneg | exact Hle].
    + exact Hglob.
    + intros i Hi. destruct (Hdev i Hi) as (ep & Hl & Hd & _). eauto.
Qed.

Lemma C5_group_consensus_witness :
  exists grp,
    In (1%Z, grp) (fst (Binary64.group_by_chain
                          [Binary64.summary_with 1 1003; Binary64.summary_with 1 0;
                           Binary64.summary_with 1 1004]
                          (Binary64.of_ratio 30 1))) /\
    Binary64.endpoints grp = [0%nat; 1%nat; 2%nat] /\
    List.filter (fun m => PrimFloat.ltb PrimFloat.zero m)
                [Binary64.of_ratio 1003 1000; PrimFloat.zero; Binary64.of_ratio 1004 1000]
    = List.filter (fun m => negb (PrimFloat.eqb m PrimFloat.zero))
                  [Binary64.of_ratio 1003 1000; PrimFloat.zero; Binary64.of_ratio 1004 1000].
Proof.
  set (eps := [Binary64.summary_with 1 1003; Binary64.summary_with 1 0;
               Binary64.summary_with 1 1004]).
  set (G := {| Binary64.endpoints := [0%nat; 1%nat; 2%nat];
               Binary64.globalMedianBaseFeeGwei := Binary64.of_ratio 1003 1000 |}).
  assert (Hin : In (1%Z, G) (fst (Binary64.group_by_chain eps (Binary64.of_ratio 30 1))))
    by (left; vm_compute; reflexivity).
  exists G. split; [exact Hin|]. split; [reflexivity|].
  destruct (proj2 (C5_group_consensus eps (Binary64.of_ratio 30 1)) 1%Z G Hin)
    as (_ & _ & _ & _ & Hnn & _).
  assert (Hmed : omap (fun i => Binary64.baseFeeMedianGwei
                                  <$> snd (Binary64.group_by_chain eps (Binary64.of_ratio 30 1))
                                      !! i)
                      (Binary64.endpoints G)
                 = [Binary64.of_ratio 1003 1000; PrimFloat.zero; Binary64.of_ratio 1004 1000])
    by (vm_compute; reflexivity).
  rewrite Hmed in Hnn. apply Hnn.
  intros i ep Hi Hl. left.
  destruct Hi as [<-|[<-|[<-|[]]]].
  - assert (Hm : Binary64.baseFeeMedianGwei ep = Binary64.of_ratio 1003 1000)
      by (revert Hl; vm_compute; by intros [= <-]).
    exists [1003000000%Z]. split; [|rewrite Hm; vm_compute; reflexivity].
    constructor; [|constructor]. split; [done|]. vm_compute. eauto.
  - assert (Hm : Binary64.baseFeeMedianGwei ep = PrimFloat.zero)
      by (revert Hl; vm_compute; by intros [= <-]).
    exists []. split; [constructor | rewrite Hm; vm_compute; reflexivity].
  - assert (Hm : Binary64.baseFeeMedianGwei ep = Binary64.of_ratio 1004 1000)
      by (revert Hl; vm_compute; by intros [= <-]).
    exists [1004000000%Z]. split; [|rewrite Hm; vm_compute; reflexivity].
    constructor; [|constructor]. split; [done|]. vm_compute. eauto.
Defined.

(** C5 as stated fails for the value that is reported: of two
    endpoints on one chain with medians 1.003 and 1.004 the median is
    1.0034999999999998, and the group reports 1.003. *)
Lemma C5_reported_consensus_is_rounded :
  exists grp g,
    fst (Binary64.group_by_chain [Binary64.summary_with 1 1003; Binary64.summary_with 1 1004]
                                 (Binary64.of_ratio 30 1)) = [(1%Z, grp)] /\
    Binary64.median [Binary64.of_ratio 1003 1000; Binary64.of_ratio 1004 1000] = Some g /\
    g = Binary64.of_ratio 10034999999999998 10000000000000000 /\
    Binary64.globalMedianBaseFeeGwei grp = Binary64.of_ratio 1003 1000 /\
    PrimFloat.eqb (Binary64.globalMedianBaseFeeGwei grp) g = false.
Proof.
  eexists _, _. split; [vm_compute; reflexivity|]. split; [vm_compute; reflexivity|].
  split; [vm_compute; reflexivity|]. split; [vm_compute; reflexivity | vm_compute; reflexivity].
Qed.

(** C8.  For every member of every group, with [m] the member's median
    and [g] the consensus of the group, which is never negative: the
    member carries the deviation rounded to two decimals; the
    deviation is [(m - g) / g * 100], computed in binary64 arithmetic,
    when neither [m] nor [g] is zero, for a median that is not
    negative, as that of every summary that [analyze_endpoint] has
    built; and the deviation is zero when either is zero. *)
Theorem C8_deviation (eps : list Binary64.Endpoint) (tol : PrimFloat.float) :
  let groups := fst (Binary64.group_by_chain eps tol) in
  let store := snd (Binary64.group_by_chain eps tol) in
  forall cid grp i,
    In (cid, grp) groups -> In i (Binary64.endpoints grp) ->
    exists ep,
      store !! i = Some ep /\
      let m := Binary64.baseFeeMedianGwei ep in
      let g := Binary64.group_median store (Binary64.endpoints grp) in
      Binary64.deviationPct ep = Some (Binary64.py_round (Binary64.deviation g ep) 2) /\
      PrimFloat.leb PrimFloat.zero g = true /\
      (Binary64.analyzed ep \/ PrimFloat.leb PrimFloat.zero m = true ->
       PrimFloat.eqb m PrimFloat.zero = false -> PrimFloat.eqb g PrimFloat.zero = false ->
       Binary64.deviation g ep
       = PrimFloat.mul (PrimFloat.div (PrimFloat.sub m g) g) Binary64.hundred) /\
      (PrimFloat.eqb m PrimFloat.zero = true \/ PrimFloat.eqb g PrimFloat.zero = true ->
       Binary64.deviation g ep = PrimFloat.zero).
Proof.
  intros groups store cid grp i Hin Hi.
  assert (E : Binary64.group_by_chain eps tol = (groups, store))
    by (unfold groups, store; by destruct (Binary64.group_by_chain eps tol)).
  destruct (Binary64Consensus.f_report_group eps tol groups store cid grp E Hin)
    as (_ & _ & _ & Hdev).
  destruct (Hdev i Hi) as (ep & Hl & Hd & _).
  exists ep. split; [exact Hl|]. cbv zeta. split; [exact Hd|].
  pose proof (Binary64Consensus.f_group_median_nonneg store (Binary64.endpoints grp)) as Hg.
  split; [exact Hg|].
  set (g := Binary64.group_median store (Binary64.endpoints grp)) in *.
  set (m := Binary64.baseFeeMedianGwei ep).
  unfold Binary64.deviation, Binary64.pct_diff. fold m. split.
  - intros Hm Hm0 Hg0.
    assert (Hm' : PrimFloat.leb PrimFloat.zero m = true)
      by (destruct Hm as [Ha|Hm]; [by apply Binary64Consensus.analyzed_nonneg | exact Hm]).
    unfold PrimFloat.zero in Hm', Hm0, Hg0.
    rewrite (Binary64Order.positive_nonzero g Hg), (Binary64Order.positive_nonzero m Hm').
    rewrite Hm0, Hg0. reflexivity.
  - intros [Hz|Hz].
    + rewrite (Binary64Order.zero_not_positive m Hz). by rewrite andb_false_r.
    + by rewrite (Binary64Order.zero_not_positive g Hz).
Qed.

Lemma C8_deviation_witness :
  exists ep,
    snd (Binary64.group_by_chain [Binary64.summary_with 1 1260; Binary64.summary_with 1 2340]
                                 (Binary64.of_ratio 30 1)) !! 1%nat = Some ep /\
    Binary64.deviationPct ep = Some (Binary64.of_ratio 30 1) /\
    Binary64.deviation (Binary64.of_ratio 17999999999999998 10000000000000000) ep
    = PrimFloat.mul
        (PrimFloat.div
           (PrimFloat.sub (Binary64.of_ratio 2340 1000)
                          (Binary64.of_ratio 17999999999999998 10000000000000000))
           (Binary64.of_ratio 17999999999999998 10000000000000000))
        Binary64.hundred /\
    Binary64.deviation (Binary64.of_ratio 17999999999999998 10000000000000000) ep
    = Binary64.of_ratio 30000000000000004 1000000000000000.
Proof.
  set (g := Binary64.of_ratio 17999999999999998 10000000000000000).
  set (eps := [Binary64.summary_with 1 1260; Binary64.summary_with 1 2340]).
  set (tol := Binary64.of_ratio 30 1).
  set (G := {| Binary64.endpoints := [0%nat; 1%nat];
               Binary64.globalMedianBaseFeeGwei := Binary64.of_ratio 18 10 |}).
  assert (Hin : In (1%Z, G) (fst (Binary64.group_by_chain eps tol)))
    by (left; vm_compute; reflexivity).
  destruct (C8_deviation eps tol 1%Z G 1%nat Hin) as (ep & Hl & Hd & _ & Hf & _).
  { right. by left. }
  assert (Hgm : Binary64.group_median (snd (Binary64.group_by_chain eps tol))
                                      (Binary64.endpoints G) = g)
    by (vm_compute; reflexivity).
  rewrite Hgm in Hd, Hf.
  assert (Hep : ep = Binary64.annotate g tol (Binary64.summary_with 1 2340)).
  { revert Hl. vm_compute. by intros [= <-]. }
  assert (Hm : Binary64.baseFeeMedianGwei ep = Binary64.of_ratio 2340 1000)
    by (rewrite Hep; reflexivity).
  rewrite Hm in Hf.
  assert (Hdev : Binary64.deviation g ep
                 = PrimFloat.mul (PrimFloat.div (PrimFloat.sub (Binary64.of_ratio 2340 1000) g) g)
                                 Binary64.hundred).
  { apply Hf; [left | vm_compute; reflexivity | vm_compute; reflexivity].
    exists [2340000000%Z]. split; [|rewrite Hep; vm_compute; reflexivity].
    constructor; [|constructor]. split; [done|]. vm_compute. eauto. }
  exists ep. split; [exact Hl|]. split; [|split; [exact Hdev|]].
  - rewrite Hd, Hdev. vm_compute. reflexivity.
  - rewrite Hdev. vm_compute. reflexivity.
Defined.

(** * Further properties of the code *)

(** ** [pct_diff] *)

(** X1.  [pct_diff a b] is zero exactly when [a] equals [b] or the
    baseline [b] is zero; for a positive baseline it is positive
    exactly when [a] is above the baseline and negative exactly when
    [a] is below it. *)
Theorem pct_diff_zero_and_sign (a b : Q) :
  ((pct_diff a b == 0)%Q <-> (a == b)%Q \/ (b == 0)%Q) /\
  ((0 < b)%Q -> ((0 < pct_diff a b)%Q <-> (b < a)%Q) /\
                ((pct_diff a b < 0)%Q <-> (a < b)%Q)).
Proof.
  unfold pct_diff. destruct (Qeq_bool b 0) eqn:E.
  - apply Qeq_bool_iff in E. split.
    + split; [by right | reflexivity].
    + intros Hb. lra.
  - assert (Hb : ~ (b == 0)%Q) by (intros H; apply Qeq_bool_iff in H; congruence).
    assert (Hq : ((a - b) / b * b == a - b)%Q) by (field; exact Hb).
    split.
    + split.
      * intros H. left.
        assert ((a - b) / b == 0)%Q as H0 by lra.
        rewrite H0 in Hq. lra.
      * intros [H|H]; [|contradiction].
        assert (a - b == 0)%Q as H0 by lra.
        rewrite H0. unfold Qdiv. lra.
    + intros Hpos. set (q := ((a - b) / b)%Q) in *.
      split; split; intros H.
      * assert (0 < q)%Q as Hq0 by lra.
        assert (0 < q * b)%Q by (apply Qmult_lt_0_compat; lra). lra.
      * assert (0 < q * b)%Q as Hqb by lra.
        destruct (Qlt_le_dec 0 q) as [Hq0|Hq0]; [lra|]. exfalso.
        assert (q * b <= 0 * b)%Q by (apply Qmult_le_compat_r; lra). lra.
      * assert (q < 0)%Q as Hq0 by lra.
        assert (0 < (- q) * b)%Q by (apply Qmult_lt_0_compat; lra). lra.
      * assert (q * b < 0)%Q as Hqb by lra.
        destruct (Qlt_le_dec q 0) as [Hq0|Hq0]; [lra|]. exfalso.
        assert (0 * b <= q * b)%Q by (apply Qmult_le_compat_r; lra). lra.
Qed.

Lemma pct_diff_zero_and_sign_witness :
  ((0 < pct_diff 40 (21 # 2))%Q <-> (21 # 2 < 40)%Q) /\
  ((pct_diff 40 (21 # 2) < 0)%Q <-> (40 < 21 # 2)%Q).
Proof.
  apply (proj2 (pct_diff_zero_and_sign 40 (21 # 2))). reflexivity.
Defined.

(** ** [connect] *)

Lemma connect_reachable (net : Network) (rpc : string) (timeout : Q) (log : Log) :
  net_is_connected net log rpc = true ->
  exists log', connect net rpc timeout log
               = (Ret {| provider := rpc; request_timeout := timeout |}, log').
Proof.
  unfold connect, bind, is_connected, call. simpl. intros ->. simpl.
  unfold try_except, bind, eth_chain_id, eth_block_number, call. simpl.
  destruct (net_chain_id net _ rpc) as [e|cid]; [eexists; reflexivity|].
  destruct (net_block_number net _ rpc) as [e|h]; eexists; reflexivity.
Qed.

(** X2.  Whether [connect] succeeds depends on [is_connected] alone.
    On a reachable endpoint it returns the handle for that endpoint,
    also when the chain id or the height cannot be read; on an
    unreachable one it makes no further request and leaves with exit
    status 1. *)
Theorem connect_outcome (net : Network) (rpc : string) (timeout : Q) (log : Log) :
  (net_is_connected net log rpc = true ->
   exists log', connect net rpc timeout log
                = (Ret {| provider := rpc; request_timeout := timeout |}, log'))
  /\ (net_is_connected net log rpc = false ->
      connect net rpc timeout log
      = (Raise (SystemExit 1), log ++ [Net rpc ReqIsConnected; Stderr (FailedToConnect rpc)])).
Proof.
  split; [apply connect_reachable|].
  unfold connect, bind, is_connected, call. simpl. intros ->. simpl.
  unfold print, sys_exit, raise. by rewrite <- app_assoc.
Qed.

Lemma connect_outcome_witness :
  exists log',
    connect Samples.a_anonymous "a" 20 []
    = (Ret {| provider := "a"; request_timeout := 20 |}, log').
Proof.
  apply (proj1 (connect_outcome Samples.a_anonymous "a" 20 [])). reflexivity.
Defined.

(** ** [sample_base_fees] *)

Lemma sample_block_step (net : Network) (w3 : Web3) base_fees sampled n log r log1 :
  sample_block net w3 (base_fees, sampled) n log = (r, log1) ->
  match r with
  | Ret (base_fees', sampled') =>
      exists new, base_fees' = base_fees ++ new /\ (length new <= 1)%nat
  | Raise e =>
      exists msg blk, e = Exception msg /\
                      net_get_block net log (provider w3) n = inr blk /\
                      from_wei_gwei (base_fee_wei blk) = None
  end.
Proof.
  unfold sample_block, try_except, bind, eth_get_block, call, from_wei, lift_option.
  destruct (net_get_block net log (provider w3) n) as [e|blk] eqn:Hget.
  - unfold print, ret. intros [= <- <-]. exists []. rewrite app_nil_r. split; [done | simpl; lia].
  - unfold ret. destruct (Z.eqb_spec (base_fee_wei blk) 0) as [Hz|Hnz].
    + intros [= <- <-]. exists []. rewrite app_nil_r. split; [done | simpl; lia].
    + destruct (from_wei_gwei (base_fee_wei blk)) as [q|] eqn:Hq; unfold ret, raise.
      * intros [= <- <-]. exists [q]. split; [done|]. simpl. lia.
      * intros [= <- <-]. eauto.
Qed.

Lemma sample_loop_outcome (net : Network) (w3 : Web3) rng :
  forall base_fees sampled log r log',
    for_each (sample_block net w3) rng (base_fees, sampled) log = (r, log') ->
    match r with
    | Ret (base_fees', sampled') =>
        exists new, base_fees' = base_fees ++ new /\ (length new <= length rng)%nat
    | Raise e =>
        exists msg l n blk, e = Exception msg /\
                            net_get_block net l (provider w3) n = inr blk /\
                            from_wei_gwei (base_fee_wei blk) = None
    end.
Proof.
  induction rng as [|n rng IH]; simpl; intros bf s log r log' H.
  - inversion H; subst. exists []. rewrite app_nil_r. split; [done | simpl; lia].
  - destruct (sample_block net w3 (bf, s) n log) as [[[bf1 s1]|e] log1] eqn:H1.
    + rewrite (bind_Ret _ _ _ _ _ H1) in H.
      apply sample_block_step in H1 as (new1 & -> & Hlen1).
      apply IH in H. destruct r as [[bf' s']|e].
      * destruct H as (new2 & -> & Hlen2). exists (new1 ++ new2).
        rewrite <- app_assoc, length_app. split; [done|lia].
      * exact H.
    + rewrite (bind_Raise _ _ _ _ _ H1) in H. inversion H; subst.
      apply sample_block_step in H1 as (msg & blk & -> & Hg & Hn).
      eauto 8.
Qed.

(** X3.  A run of the sampler fails only with an ordinary exception,
    never with an exit, and only for one of three reasons: the height
    of the chain could not be read, and nothing else was requested; the
    stride is zero, and no block was requested; or the block that the
    run requested last was fetched and carries a fee that cannot be
    converted.  A block that cannot be fetched is never a reason. *)
Theorem sampler_failure_causes (net : Network) (w3 : Web3) (blocks step : Z)
    (log : Log) (e : exn) (log' : Log) :
  sample_base_fees net w3 blocks step log = (Raise e, log') ->
  exists msg,
    e = Exception msg /\
    ((net_block_number net log (provider w3) = inl msg /\
      log' = log ++ [Net (provider w3) ReqBlockNumber]) \/
     (exists h, net_block_number net log (provider w3) = inr h /\ step = 0%Z /\
                log' = log ++ [Net (provider w3) ReqBlockNumber;
                               Stderr (SamplingRange (Z.max 0 (h - blocks + 1)) h step)]) \/
     (exists h evs n blk,
         net_block_number net log (provider w3) = inr h /\ step <> 0%Z /\
         log' = (log ++ evs) ++ [Net (provider w3) (ReqGetBlock n)] /\
         net_get_block net (log ++ evs) (provider w3) n = inr blk /\
         base_fee_wei blk <> 0%Z /\
         from_wei_gwei (base_fee_wei blk) = None)).
Proof.
  intros H.
  destruct (net_block_number net log (provider w3)) as [m|h] eqn:Hh.
  - unfold sample_base_fees in H. unfold bind at 1 in H. unfold eth_block_number, call in H.
    rewrite Hh in H. inversion H. exists m. split; [done|]. by left.
  - destruct (Z.eq_dec step 0%Z) as [Hz|Hnz].
    + unfold sample_base_fees in H. unfold bind at 1 in H. unfold eth_block_number, call in H.
      rewrite Hh in H. unfold bind at 1 in H. unfold print in H. unfold bind at 1 in H.
      unfold lift_option, py_range in H.
      destruct (Z.eqb_spec (- step) 0) as [_|Hne]; [|lia].
      unfold raise in H. inversion H. eexists. split; [done|]. right. left.
      exists h. split; [done|]. split; [done|]. by rewrite <- app_assoc.
    + destruct (sample_base_fees_trace net w3 blocks step log h Hnz Hh)
        as (rng & r & evs & _ & Hrun & Hr).
      rewrite H in Hrun. injection Hrun as <- ->.
      destruct Hr as (pre & n & rest & evs0 & blk & _ & _ & -> & Hg & Hnzf & Hn & ->).
      eexists. split; [done|]. right. right.
      exists h, ([Net (provider w3) ReqBlockNumber]
                   ++ [Stderr (SamplingRange (Z.max 0 (h - blocks + 1)) h step)] ++ evs0), n, blk.
      split; [done|]. split; [done|].
      split; [by rewrite <- !app_assoc|].
      split; [|done]. rewrite <- Hg. f_equal. by rewrite <- !app_assoc.
Qed.

Lemma sampler_failure_causes_witness :
  exists evs n blk,
    snd (sample_base_fees Samples.overpriced {| provider := "a"; request_timeout := 20 |} 10 5 [])
    = ([] ++ evs) ++ [Net "a" (ReqGetBlock n)] /\
    net_get_block Samples.overpriced ([] ++ evs) "a" n = inr blk /\
    from_wei_gwei (base_fee_wei blk) = None.
Proof.
  destruct (sampler_failure_causes Samples.overpriced {| provider := "a"; request_timeout := 20 |}
              10 5 [] (Exception "value must be between 1 and 2**256 - 1")
              (snd (sample_base_fees Samples.overpriced
                      {| provider := "a"; request_timeout := 20 |} 10 5 [])))
    as (msg & _ & [[Hh _]|[(h & _ & Hs & _)|(h & evs & n & blk & _ & _ & Hl & Hg & _ & Hn)]]).
  - vm_compute. reflexivity.
  - discriminate Hh.
  - discriminate Hs.
  - exists evs, n, blk. split; [exact Hl|]. split; [exact Hg | exact Hn].
Defined.

Lemma range_len_descending (h blocks step : Z) :
  (0 < blocks)%Z -> (0 < step)%Z ->
  (0 <= range_len h (Z.max 0 (h - blocks + 1) - 1) (- step) <= (blocks - 1) / step + 1)%Z.
Proof.
  intros Hb Hs. unfold range_len.
  destruct (Z.ltb_spec 0 (- step)); [lia|].
  assert (0 <= (blocks - 1) / step)%Z by (apply Z.div_pos; lia).
  destruct (Z.ltb_spec (Z.max 0 (h - blocks + 1) - 1) h); [|lia].
  replace (- - step)%Z with step by lia.
  assert (0 <= (h - (Z.max 0 (h - blocks + 1) - 1) - 1) / step)%Z by (apply Z.div_pos; lia).
  split; [lia|].
  apply Z.add_le_mono_r. apply Z.div_le_mono; lia.
Qed.

(** X4.  With [blocks > 0] and [step > 0], a run of the sampler that
    returns has requested at most [(blocks - 1) // step + 1] blocks,
    and the count it returns is the number of observations, which is
    not above the number of blocks requested. *)
Theorem sampler_request_bound (net : Network) (w3 : Web3) (blocks step : Z) (log : Log)
    (base_fees : list Q) (h st sampled : Z) (log' : Log) :
  (0 < blocks)%Z -> (0 < step)%Z ->
  sample_base_fees net w3 blocks step log = (Ret (base_fees, h, st, sampled), log') ->
  exists evs,
    log' = log ++ evs /\
    sampled = Z.of_nat (length base_fees) /\
    (length base_fees <= length (fetched_blocks (provider w3) evs))%nat /\
    (Z.of_nat (length (fetched_blocks (provider w3) evs)) <= (blocks - 1) / step + 1)%Z.
Proof.
  intros Hb Hs H.
  pose proof (sample_base_fees_Ret _ _ _ _ _ _ _ _ _ _ H)
    as (_ & -> & Hsampled & _ & rng & evs & Hrng & -> & Hf).
  exists ([Net (provider w3) ReqBlockNumber]
            ++ [Stderr (SamplingRange (Z.max 0 (h - blocks + 1)) h step)] ++ evs).
  split; [done|]. split; [done|].
  assert (fetched_blocks (provider w3)
            ([Net (provider w3) ReqBlockNumber]
               ++ [Stderr (SamplingRange (Z.max 0 (h - blocks + 1)) h step)] ++ evs) = rng)
    as -> by exact Hf.
  assert (Hlen : (Z.of_nat (length rng) <= (blocks - 1) / step + 1)%Z).
  { unfold py_range in Hrng. destruct (- step =? 0)%Z; [discriminate|].
    inversion Hrng; subst rng. rewrite length_map, length_seq.
    pose proof (range_len_descending h blocks step Hb Hs). lia. }
  split; [|exact Hlen].
  (* every turn of the loop adds at most one observation *)
  clear Hlen Hsampled. unfold sample_base_fees in H.
  apply bind_Ret_inv in H as (h0 & l1 & _ & H).
  apply bind_Ret_inv in H as ([] & l2 & _ & H).
  apply bind_Ret_inv in H as (rng0 & l3 & Hr & H).
  apply bind_Ret_inv in H as ([bf s] & l4 & Hloop & H).
  inversion H; clear H; subst h0 base_fees. simpl.
  assert (rng0 = rng) as ->.
  { unfold lift_option in Hr. rewrite Hrng in Hr. by inversion Hr. }
  apply sample_loop_outcome in Hloop as (new & -> & Hlen). exact Hlen.
Qed.

Lemma sampler_request_bound_witness :
  exists bf h st sampled log' evs,
    sample_base_fees Samples.healthy {| provider := "a"; request_timeout := 20 |} 10 5 []
    = (Ret (bf, h, st, sampled), log') /\
    log' = [] ++ evs /\
    (length bf <= length (fetched_blocks "a" evs))%nat /\
    (Z.of_nat (length (fetched_blocks "a" evs)) <= (10 - 1) / 5 + 1)%Z.
Proof.
  assert (exists bf h st sampled log',
             sample_base_fees Samples.healthy {| provider := "a"; request_timeout := 20 |} 10 5 []
             = (Ret (bf, h, st, sampled), log')) as (bf & h & st & sampled & log' & H).
  { eexists _, _, _, _, _. vm_compute. reflexivity. }
  destruct (sampler_request_bound Samples.healthy {| provider := "a"; request_timeout := 20 |}
              10 5 [] bf h st sampled log' ltac:(lia) ltac:(lia) H)
    as (evs & Hlog & _ & H1 & H2).
  exists bf, h, st, sampled, log', evs. done.
Defined.

(** ** Which endpoints a run talks to *)

Lemma confined_ret {A} allowed (a : A) : confined allowed (ret a).
Proof. intros log r log' [= <- <-]. exists []. rewrite app_nil_r. split; [done|constructor]. Qed.

Lemma confined_raise {A} allowed (e : exn) : confined allowed (@raise A e).
Proof. intros log r log' [= <- <-]. exists []. rewrite app_nil_r. split; [done|constructor]. Qed.

Lemma confined_print allowed (d : Diag) : confined allowed (print d).
Proof.
  intros log r log' [= <- <-]. exists [Stderr d]. split; [done|]. by repeat constructor.
Qed.

Lemma confined_lift_option {A} allowed (o : option A) msg : confined allowed (lift_option o msg).
Proof. destruct o; [apply confined_ret | apply confined_raise]. Qed.

Lemma confined_call {A} (allowed : string -> Prop) rpc req (answer : Log -> string + A) :
  allowed rpc -> confined allowed (call rpc req answer).
Proof.
  intros Hrpc log r log'. unfold call.
  destruct (answer log); intros [= <- <-]; exists [Net rpc req]; split; try done;
    by repeat constructor.
Qed.

Lemma confined_bind {A B} allowed (m : M A) (k : A -> M B) :
  confined allowed m -> (forall a, confined allowed (k a)) -> confined allowed (bind m k).
Proof.
  intros Hm Hk log r log'. unfold bind.
  destruct (m log) as [[a|e] log1] eqn:E; destruct (Hm _ _ _ E) as (evs1 & -> & H1).
  - intros H. destruct (Hk a _ _ _ H) as (evs2 & -> & H2).
    exists (evs1 ++ evs2). rewrite app_assoc. split; [done|]. by apply Forall_app.
  - intros [= <- <-]. eauto.
Qed.

Lemma confined_try_except {A} allowed (body : M A) (handler : string -> M A) :
  confined allowed body -> (forall e, confined allowed (handler e)) ->
  confined allowed (try_except body handler).
Proof.
  intros Hb Hh log r log'. unfold try_except.
  destruct (body log) as [[a|[msg|c]] log1] eqn:E; destruct (Hb _ _ _ E) as (evs1 & -> & H1).
  - intros [= <- <-]. eauto.
  - intros H. destruct (Hh msg _ _ _ H) as (evs2 & -> & H2).
    exists (evs1 ++ evs2). rewrite app_assoc. split; [done|]. by apply Forall_app.
  - intros [= <- <-]. eauto.
Qed.

Lemma confined_for_each {A B} allowed (body : A -> B -> M A) (xs : list B) :
  (forall acc x, In x xs -> confined allowed (body acc x)) ->
  forall acc, confined allowed (for_each body xs acc).
Proof.
  induction xs as [|x xs IH]; intros Hbody acc; simpl.
  - apply confined_ret.
  - apply confined_bind; [apply Hbody; by left|].
    intros acc'. apply IH. intros a y Hy. apply Hbody. by right.
Qed.

Lemma confined_weaken {A} (allowed allowed' : string -> Prop) (m : M A) :
  (forall rpc, allowed rpc -> allowed' rpc) -> confined allowed m -> confined allowed' m.
Proof.
  intros Hsub Hm log r log' H. destruct (Hm _ _ _ H) as (evs & -> & Hevs).
  exists evs. split; [done|]. eapply Forall_impl; [exact Hevs|].
  intros [rpc req|d]; simpl; auto.
Qed.

Create HintDb confine.
#[local] Hint Resolve confined_ret confined_raise confined_print confined_lift_option : confine.

Ltac confine :=
  repeat first
    [ apply confined_bind; [|intros ?]
    | apply confined_try_except; [|intros ?]
    | apply confined_call; reflexivity
    | solve [auto with confine] ].

Lemma confined_sample_block net w3 acc n :
  confined (eq (provider w3)) (sample_block net w3 acc n).
Proof.
  destruct acc as [bf s]. unfold sample_block, eth_get_block, from_wei. confine.
  destruct a as [blk|]; [|confine]. destruct (base_fee_wei blk =? 0)%Z; confine.
Qed.

Lemma confined_sample_base_fees net w3 blocks step :
  confined (eq (provider w3)) (sample_base_fees net w3 blocks step).
Proof.
  unfold sample_base_fees, eth_block_number. confine.
  apply confined_for_each. intros acc x _. apply confined_sample_block.
Qed.


Lemma confined_bind_Ret {A B} allowed (m : M A) (k : A -> M B) :
  confined allowed m ->
  (forall log a log', m log = (Ret a, log') -> confined allowed (k a)) ->
  confined allowed (bind m k).
Proof.
  intros Hm Hk log r log'. unfold bind.
  destruct (m log) as [[a|e] log1] eqn:E; destruct (Hm _ _ _ E) as (evs1 & -> & H1).
  - intros H. destruct (Hk _ _ _ E _ _ _ H) as (evs2 & -> & H2).
    exists (evs1 ++ evs2). rewrite app_assoc. split; [done|]. by apply Forall_app.
  - intros [= <- <-]. eauto.
Qed.

Lemma confined_connect net rpc timeout : confined (eq rpc) (connect net rpc timeout).
Proof.
  unfold connect, is_connected, eth_chain_id, eth_block_number, sys_exit. simpl. confine.
  all: try (destruct (negb _); confine).
Qed.

Lemma confined_head_base_fee net w3 h : confined (eq (provider w3)) (head_base_fee net w3 h).
Proof. unfold head_base_fee, eth_get_block, from_wei. confine. Qed.

Lemma confined_analyze_endpoint (net : Network) (rpc : string) (blocks step : Z) (timeout : Q) :
  confined (eq rpc) (analyze_endpoint net rpc blocks step timeout).
Proof.
  unfold analyze_endpoint.
  apply confined_bind_Ret; [apply confined_connect|].
  intros log w3 log' Hc. apply connect_Ret in Hc. subst w3.
  apply confined_bind; [unfold eth_chain_id; confine|]. intros cid.
  apply confined_bind;
    [apply (confined_sample_base_fees net {| provider := rpc; request_timeout := timeout |})|].
  intros [[[bf h] st] sampled].
  apply confined_bind; [destruct (sampled =? 0)%Z; confine|]. intros _.
  apply confined_bind;
    [apply (confined_head_base_fee net {| provider := rpc; request_timeout := timeout |})|].
  intros hf.
  apply confined_bind; [destruct bf; confine|]. intros [[med mn] mx]. confine.
Qed.

(** X5.  Whatever its outcome, [analyze_endpoint] only adds to the
    log, and every request it makes goes to the endpoint it was asked
    to analyse. *)
Theorem analyze_endpoint_isolated (net : Network) (rpc : string) (blocks step : Z)
    (timeout : Q) (log : Log) (r : result Endpoint) (log' : Log) :
  analyze_endpoint net rpc blocks step timeout log = (r, log') ->
  exists evs,
    log' = log ++ evs /\
    forall other req, In (Net other req) evs -> other = rpc.
Proof.
  intros H. apply confined_analyze_endpoint in H as (evs & -> & Hevs).
  exists evs. split; [done|]. intros other req Hin.
  unfold only_contacts in Hevs. rewrite Forall_forall in Hevs.
  apply list_elem_of_In, Hevs in Hin. by symmetry.
Qed.

Lemma analyze_endpoint_isolated_witness :
  exists evs,
    snd (analyze_endpoint Samples.a_anonymous "a" 10 5 20 []) = [] ++ evs /\
    forall other req, In (Net other req) evs -> other = "a".
Proof.
  apply (analyze_endpoint_isolated Samples.a_anonymous "a" 10 5 20 []
           (fst (analyze_endpoint Samples.a_anonymous "a" 10 5 20 []))).
  apply surjective_pairing.
Defined.

(** X6.  Whatever its outcome, [main] only adds to the log, and every
    request it makes goes to one of the configured endpoints. *)
Theorem main_contacts_configured (net : Network) (args : Args) (env : string) (log : Log)
    (r : result (Groups * list Endpoint)) (log' : Log) :
  main net args env log = (r, log') ->
  exists evs,
    log' = log ++ evs /\
    forall rpc req, In (Net rpc req) evs -> In rpc (rpc_list_of args env).
Proof.
  intros H.
  assert (Hc : confined (fun rpc => In rpc (rpc_list_of args env)) (main net args env)).
  { unfold main, aggregate, sys_exit. confine.
    - destruct (_ || _); confine.
    - destruct (rpc_list_of args env); confine.
    - apply confined_for_each. intros acc rpc Hin. unfold analyze_into.
      apply confined_try_except; [|intros e; confine].
      apply confined_bind; [|intros s; apply confined_ret].
      apply (confined_weaken (eq rpc)); [by intros ? <-|]. apply confined_analyze_endpoint.
    - destruct a2; confine. }
  apply Hc in H as (evs & -> & Hevs).
  exists evs. split; [done|]. intros rpc req Hin.
  unfold only_contacts in Hevs. rewrite Forall_forall in Hevs.
  by apply list_elem_of_In, Hevs in Hin.
Qed.

Lemma main_contacts_configured_witness :
  exists evs,
    snd (main Samples.a_anonymous (Samples.args_of ["a"; "b"] 10 5 30) "" []) = [] ++ evs /\
    forall rpc req,
      In (Net rpc req) evs -> In rpc (rpc_list_of (Samples.args_of ["a"; "b"] 10 5 30) "").
Proof.
  apply (main_contacts_configured Samples.a_anonymous (Samples.args_of ["a"; "b"] 10 5 30) "" []
           (fst (main Samples.a_anonymous (Samples.args_of ["a"; "b"] 10 5 30) "" []))).
  apply surjective_pairing.
Defined.

(** ** How a run can end *)

Lemma no_exit_ret {A} (a : A) : no_exit (ret a).
Proof. intros log c log'. discriminate. Qed.

Lemma no_exit_print (d : Diag) : no_exit (print d).
Proof. intros log c log'. discriminate. Qed.

Lemma no_exit_lift_option {A} (o : option A) msg : no_exit (lift_option o msg).
Proof. intros log c log'. destruct o; discriminate. Qed.

Lemma no_exit_call {A} rpc req (answer : Log -> string + A) : no_exit (call rpc req answer).
Proof. intros log c log'. unfold call. destruct (answer log); discriminate. Qed.

Lemma no_exit_bind {A B} (m : M A) (k : A -> M B) :
  no_exit m -> (forall a, no_exit (k a)) -> no_exit (bind m k).
Proof.
  intros Hm Hk log c log'. unfold bind.
  destruct (m log) as [[a|e] log1] eqn:E; [apply Hk|].
  intros [= -> ->]. by apply Hm in E.
Qed.

Lemma no_exit_try_except {A} (body : M A) (handler : string -> M A) :
  no_exit body -> (forall e, no_exit (handler e)) -> no_exit (try_except body handler).
Proof.
  intros Hb Hh log c log'. unfold try_except.
  destruct (body log) as [[a|[msg|c0]] log1] eqn:E; [discriminate | apply Hh |].
  by apply Hb in E.
Qed.

Lemma no_exit_for_each {A B} (body : A -> B -> M A) (xs : list B) :
  (forall acc x, no_exit (body acc x)) -> forall acc, no_exit (for_each body xs acc).
Proof.
  intros Hbody. induction xs as [|x xs IH]; intros acc; simpl.
  - apply no_exit_ret.
  - by apply no_exit_bind.
Qed.

Lemma no_exit_sample_block net w3 acc n : no_exit (sample_block net w3 acc n).
Proof.
  destruct acc as [bf s]. unfold sample_block.
  apply no_exit_bind.
  - apply no_exit_try_except.
    + apply no_exit_bind; [apply no_exit_call | intros blk; apply no_exit_ret].
    + intros e. apply no_exit_bind; [apply no_exit_print | intros _; apply no_exit_ret].
  - intros [blk|]; [|apply no_exit_ret].
    destruct (base_fee_wei blk =? 0)%Z; [apply no_exit_ret|].
    apply no_exit_bind; [apply no_exit_lift_option | intros q; apply no_exit_ret].
Qed.

Lemma no_exit_sample_base_fees net w3 blocks step :
  no_exit (sample_base_fees net w3 blocks step).
Proof.
  unfold sample_base_fees.
  apply no_exit_bind; [apply no_exit_call|]. intros h.
  apply no_exit_bind; [apply no_exit_print|]. intros _.
  apply no_exit_bind; [apply no_exit_lift_option|]. intros rng.
  apply no_exit_bind; [|intros acc; apply no_exit_ret].
  apply no_exit_for_each. intros acc n. apply no_exit_sample_block.
Qed.

Lemma no_exit_head_base_fee net w3 h : no_exit (head_base_fee net w3 h).
Proof. intros log c log'. rewrite head_base_fee_spec. discriminate. Qed.

Lemma analyze_exit_unreachable (net : Network) (rpc : string) (blocks step : Z) (timeout : Q)
    (log : Log) (c : Z) (log' : Log) :
  analyze_endpoint net rpc blocks step timeout log = (Raise (SystemExit c), log') ->
  c = 1%Z /\ net_is_connected net log rpc = false.
Proof.
  intros H. destruct (net_is_connected net log rpc) eqn:Hc.
  - exfalso. destruct (connect_reachable net rpc timeout log Hc) as [log1 Hconn].
    unfold analyze_endpoint in H. rewrite (bind_Ret _ _ _ _ _ Hconn) in H.
    revert H. apply no_exit_bind; [apply no_exit_call|]. intros cid.
    apply no_exit_bind; [apply no_exit_sample_base_fees|]. intros [[[bf h] st] sampled].
    apply no_exit_bind; [destruct (sampled =? 0)%Z; [apply no_exit_print|apply no_exit_ret]|].
    intros _. apply no_exit_bind; [apply no_exit_head_base_fee|]. intros hf.
    apply no_exit_bind.
    + destruct bf; [apply no_exit_ret|].
      repeat (apply no_exit_bind; [apply no_exit_lift_option|intros ?]). apply no_exit_ret.
    + intros [[med mn] mx]. apply no_exit_ret.
  - rewrite (analyze_unreachable net rpc blocks step timeout log Hc) in H.
    by inversion H.
Qed.

(** X7.  The analysis of an endpoint leaves the process exactly when
    the endpoint cannot be reached, and then with exit status 1; every
    other failure of the analysis is an ordinary exception. *)
Theorem analyze_endpoint_exit (net : Network) (rpc : string) (blocks step : Z) (timeout : Q)
    (log : Log) :
  (forall c log',
      analyze_endpoint net rpc blocks step timeout log = (Raise (SystemExit c), log') ->
      c = 1%Z /\ net_is_connected net log rpc = false)
  /\ (net_is_connected net log rpc = false ->
      exists log', analyze_endpoint net rpc blocks step timeout log
                   = (Raise (SystemExit 1), log')).
Proof.
  split.
  - intros c log' H. by apply analyze_exit_unreachable in H.
  - intros Hc. rewrite (analyze_unreachable net rpc blocks step timeout log Hc). eauto.
Qed.

Lemma analyze_endpoint_exit_witness :
  exists log',
    analyze_endpoint Samples.a_unreachable "a" 10 5 20 [] = (Raise (SystemExit 1), log').
Proof.
  apply (proj2 (analyze_endpoint_exit Samples.a_unreachable "a" 10 5 20 [])). reflexivity.
Defined.





Lemma loop_order (net : Network) (args : Args) (rs : list string) :
  forall acc log final log',
    for_each (analyze_into net args) rs acc log = (Ret final, log') ->
    exists more, final = acc ++ more /\ sublist (map rpcUrl more) rs.
Proof.
  induction rs as [|r rs IH]; simpl; intros acc log final log' H.
  - inversion H; subst. exists []. rewrite app_nil_r. split; [done|constructor].
  - apply bind_Ret_inv in H as (acc1 & log1 & H1 & H2).
    apply IH in H2 as (more & -> & Hsub).
    unfold analyze_into, try_except, bind in H1.
    destruct (analyze_endpoint net r _ _ _ log) as [[s|[e|c]] l1] eqn:E.
    + inversion H1; subst. exists (s :: more). rewrite <- app_assoc. split; [done|].
      apply analyze_endpoint_Ret in E as (bf & l0 & Hurl & _). simpl. rewrite Hurl.
      by constructor.
    + inversion H1; subst. exists more. split; [done|]. by constructor.
    + discriminate.
Qed.

(** X9.  The summaries of a report come in the order in which the
    endpoints were configured: their URLs are a subsequence of the
    list of endpoints, so no endpoint is reported more often than it
    was configured, and none that was not. *)
Theorem report_follows_configuration (net : Network) (args : Args) (env : string) (log : Log)
    (groups : Groups) (store : list Endpoint) (log' : Log) :
  main net args env log = (Ret (groups, store), log') ->
  sublist (map rpcUrl store) (rpc_list_of args env) /\ store <> [].
Proof.
  unfold main. intros H.
  apply bind_Ret_inv in H as (? & l1 & _ & H).
  apply bind_Ret_inv in H as (? & l2 & _ & H).
  apply bind_Ret_inv in H as (? & l3 & _ & H).
  apply bind_Ret_inv in H as (eps & l4 & Hloop & H).
  apply loop_order in Hloop as (more & -> & Hsub). simpl in *.
  unfold aggregate in H. destruct more as [|ep more]; [discriminate|].
  inversion H as [[Hrep Hlog]]. clear H.
  pose proof (proj2 (group_by_chain_spec (ep :: more) (args_tolerance_pct args))) as Hs.
  rewrite Hrep in Hs. simpl in Hs. subst store. split; [|done].
  assert (forall f (l : list Endpoint),
             map rpcUrl (map (fun e => annotate (f e) (args_tolerance_pct args) e) l)
             = map rpcUrl l) as Hmap.
  { intros f l. rewrite map_map. by apply map_ext. }
  specialize (Hmap (fun e => consensus (ep :: more) (chainId e)) (ep :: more)).
  simpl in Hmap. simpl. rewrite Hmap. exact Hsub.
Qed.

Lemma report_follows_configuration_witness :
  exists groups store log',
    main Samples.a_anonymous (Samples.args_of ["a"; "b"] 10 5 30) "" []
    = (Ret (groups, store), log') /\
    sublist (map rpcUrl store) (rpc_list_of (Samples.args_of ["a"; "b"] 10 5 30) "").
Proof.
  assert (exists groups store log',
             main Samples.a_anonymous (Samples.args_of ["a"; "b"] 10 5 30) "" []
             = (Ret (groups, store), log')) as (groups & store & log' & H).
  { eexists _, _, _. vm_compute. reflexivity. }
  exists groups, store, log'. split; [exact H|].
  exact (proj1 (report_follows_configuration _ _ _ _ _ _ _ H)).
Defined.

(** X10.  With positive [blocks] and [step] but no endpoint left after
    the list is cleaned up, [main] leaves with exit status 1 and the
    message of line 230 before any request is made. *)
Theorem no_endpoint_configured (net : Network) (args : Args) (env : string) (log : Log) :
  (0 < args_blocks args)%Z -> (0 < args_step args)%Z ->
  rpc_list_of args env = [] ->
  main net args env log = (Raise (SystemExit 1), log ++ [Stderr NoRpcEndpoints]).
Proof.
  intros Hb Hs Hrs. unfold main. rewrite Hrs.
  destruct (Z.leb_spec (args_blocks args) 0); [lia|].
  destruct (Z.leb_spec (args_step args) 0); [lia|]. reflexivity.
Qed.

Lemma no_endpoint_configured_witness :
  main Samples.healthy (Samples.args_of ["  "; ""] 10 5 30) " , ,, " []
  = (Raise (SystemExit 1), [] ++ [Stderr NoRpcEndpoints]).
Proof.
  apply (no_endpoint_configured Samples.healthy (Samples.args_of ["  "; ""] 10 5 30) " , ,, " []).
  - simpl. lia.
  - simpl. lia.
  - reflexivity.
Defined.

(** X11.  In every summary that [analyze_endpoint] returns, the range
    starts at [max(0, head - blocks + 1)], which is never negative; the
    URL, the span and the stride are those of the call; the network
    label is that of the chain id; the median, minimum, maximum and
    head fee are never negative; and the two keys of the later pass are
    still missing. *)
Theorem summary_fields (net : Network) (rpc : string) (span stride : Z) (timeout : Q)
    (log : Log) (s : Endpoint) (log' : Log) :
  analyze_endpoint net rpc span stride timeout log = (Ret s, log') ->
  rpcUrl s = rpc /\ requestedSpan s = span /\ step s = stride /\
  start s = Z.max 0 (head s - span + 1) /\ (0 <= start s)%Z /\
  network s = network_name (chainId s) /\
  (0 <= baseFeeMinGwei s)%Q /\ (0 <= baseFeeMedianGwei s)%Q /\ (0 <= baseFeeMaxGwei s)%Q /\
  (forall h, headBaseFeeGwei s = Some h -> (0 <= h)%Q) /\
  deviationPct s = None /\ isOutlier s = None.
Proof.
  intros H.
  pose proof (analyze_endpoint_ok _ _ _ _ _ _ _ _ H) as (_ & Hmed & [Hmin Hmax] & _).
  pose proof (analyze_endpoint_Ret _ _ _ _ _ _ _ _ H)
    as (bf & l1 & Hurl & _ & Hpos & Hstats & _ & Hhead & Hdev & Hout).
  assert (Hminpos : (0 <= baseFeeMinGwei s)%Q).
  { destruct bf as [|q bf].
    - destruct Hstats as (_ & -> & _). by apply py_round_nonneg.
    - destruct Hstats as (med & mn & mx & _ & Hmn & _ & _ & -> & _).
      apply py_round_nonneg. apply py_min_spec in Hmn as [Hin _].
      rewrite Forall_forall in Hpos. apply list_elem_of_In, Hpos in Hin. lra. }
  assert (Hheadpos : forall h, headBaseFeeGwei s = Some h -> (0 <= h)%Q).
  { intros h Hh. rewrite Hhead in Hh.
    destruct (net_get_block net l1 rpc (head s)) as [e|blk]; [discriminate|].
    destruct (from_wei_gwei (base_fee_wei blk)) as [q|] eqn:Hq; [|discriminate].
    inversion Hh. apply py_round_nonneg.
    unfold from_wei_gwei in Hq. destruct (base_fee_wei blk =? 0)%Z.
    - inversion Hq. lra.
    - destruct (Z.ltb_spec (base_fee_wei blk) 0); [discriminate|].
      destruct (MAX_WEI <? base_fee_wei blk)%Z; [discriminate|].
      inversion Hq. unfold Qle. simpl. lia. }
  unfold analyze_endpoint in H.
  apply bind_Ret_inv in H as (w3 & l2 & _ & H).
  apply bind_Ret_inv in H as (cid & l3 & _ & H).
  apply bind_Ret_inv in H as ([[[bf0 h] st] sampled] & l4 & Hs & H).
  apply sample_base_fees_Ret in Hs as (_ & Hst & _).
  apply bind_Ret_inv in H as ([] & l5 & _ & H).
  apply bind_Ret_inv in H as (hf & l6 & _ & H).
  apply bind_Ret_inv in H as ([[med mn] mx] & l7 & _ & H).
  inversion H; subst s; clear H. simpl in *.
  repeat split; try done; try lra; try lia.
Qed.

Lemma summary_fields_witness :
  exists s log',
    analyze_endpoint Samples.healthy "a" 10 5 20 [] = (Ret s, log') /\
    start s = Z.max 0 (head s - 10 + 1) /\ network s = network_name (chainId s).
Proof.
  assert (exists s log', analyze_endpoint Samples.healthy "a" 10 5 20 [] = (Ret s, log'))
    as (s & log' & H).
  { eexists _, _. vm_compute. reflexivity. }
  exists s, log'. split; [exact H|].
  destruct (summary_fields _ _ _ _ _ _ _ _ H) as (_ & _ & _ & Hst & _ & Hn & _).
  split; [exact Hst | exact Hn].
Defined.

(** ** The groups *)

Lemma positions_sorted (cids : list Z) (cid : Z) : StronglySorted lt (positions cids cid).
Proof.
  unfold positions. generalize 0%nat.
  induction (length cids) as [|n IH]; intros i0; simpl; [constructor|].
  destruct (match cids !! i0 with Some c => (c =? cid)%Z | None => false end).
  - constructor; [apply IH|]. apply Forall_forall. intros j Hj.
    apply list_elem_of_In, filter_In in Hj as [Hj _]. apply in_seq in Hj. lia.
  - apply IH.
Qed.

(** X12.  [group_by_chain] partitions the summaries by chain id: the
    keys of the groups are distinct, no group is empty, the members of
    a group are positions of summaries with the chain id of the group,
    in increasing order, and every summary is a member of the group of
    its chain id; so every summary is in exactly one group. *)
Theorem groups_partition (eps : list Endpoint) (tol : Q) :
  let groups := fst (group_by_chain eps tol) in
  List.NoDup (map fst groups) /\
  (forall cid grp, In (cid, grp) groups ->
                   endpoints grp <> [] /\ StronglySorted lt (endpoints grp) /\
                   forall i, In i (endpoints grp) <->
                             exists ep, eps !! i = Some ep /\ chainId ep = cid) /\
  (forall i ep, eps !! i = Some ep ->
                exists grp, In (chainId ep, grp) groups /\ In i (endpoints grp)) /\
  (forall cid1 grp1 cid2 grp2 i,
      In (cid1, grp1) groups -> In (cid2, grp2) groups ->
      In i (endpoints grp1) -> In i (endpoints grp2) -> cid1 = cid2 /\ grp1 = grp2).
Proof.
  intros groups.
  destruct (group_by_chain eps tol) as [gs store] eqn:E. simpl in groups. subst groups.
  destruct (group_by_chain_members eps tol gs store E) as [_ Hgroups].
  assert (Hkeys : map fst gs = map fst (collect eps 0 [])).
  { pose proof (proj1 (group_by_chain_spec eps tol)) as Hg. rewrite E in Hg. simpl in Hg.
    rewrite Hg, map_map. by apply map_ext. }
  destruct (collect_spec eps) as (Hnd & _ & Hcov).
  assert (Hmem : forall cid grp i, In (cid, grp) gs ->
                   (In i (endpoints grp) <-> exists ep, eps !! i = Some ep /\ chainId ep = cid)).
  { intros cid grp i Hin. destruct (Hgroups _ _ Hin) as (-> & _). split.
    - apply members_of_lookup.
    - intros (ep & Hi & Hc). by apply (members_of_spec eps cid i ep Hi). }
  assert (Huniq : forall cid grp1 grp2, In (cid, grp1) gs -> In (cid, grp2) gs -> grp1 = grp2).
  { intros cid grp1 grp2 H1 H2.
    destruct (Hgroups _ _ H1) as (Hm1 & _ & Hg1 & _).
    destruct (Hgroups _ _ H2) as (Hm2 & _ & Hg2 & _).
    destruct grp1, grp2. simpl in *. congruence. }
  split; [by rewrite Hkeys|]. split; [|split].
  - intros cid grp Hin. destruct (Hgroups _ _ Hin) as (Hm & Hne & _).
    split; [done|]. split; [rewrite Hm; apply positions_sorted|]. intros i. by apply Hmem.
  - intros i ep Hi.
    assert (In (chainId ep) (map fst gs)) as Hk.
    { rewrite Hkeys. apply has_key_In, Hcov. apply list_elem_of_In, list_elem_of_lookup. eauto. }
    apply in_map_iff in Hk as ([c grp] & Hc & Hin). simpl in Hc. subst c.
    exists grp. split; [done|]. apply (Hmem _ _ i Hin). eauto.
  - intros cid1 grp1 cid2 grp2 i H1 H2 Hi1 Hi2.
    apply (Hmem _ _ i H1) in Hi1 as (ep1 & He1 & Hc1).
    apply (Hmem _ _ i H2) in Hi2 as (ep2 & He2 & Hc2).
    rewrite He1 in He2. inversion He2; subst ep2. subst cid1 cid2. split; [done|].
    by apply (Huniq (chainId ep1)).
Qed.

Lemma groups_partition_witness :
  exists grp,
    In (chainId (Samples.summary_with 2 5), grp)
       (fst (group_by_chain [Samples.summary_with 1 10; Samples.summary_with 2 5;
                             Samples.summary_with 1 40] 30)) /\
    In 1%nat (endpoints grp).
Proof.
  exact (proj1 (proj2 (proj2 (groups_partition
                                [Samples.summary_with 1 10; Samples.summary_with 2 5;
                                 Samples.summary_with 1 40] 30)))
               1%nat (Samples.summary_with 2 5) eq_refl).
Defined.

(** X13.  [group_by_chain] writes the two keys [deviationPct] and
    [isOutlier] of every summary and nothing else: the list keeps its
    length and its order, every other field of every summary is
    untouched, and afterwards both keys are present in every summary. *)
Theorem group_by_chain_writes_two_keys (eps : list Endpoint) (tol : Q) :
  let store := snd (group_by_chain eps tol) in
  length store = length eps /\
  forall i ep, eps !! i = Some ep ->
               exists dev flag, store !! i = Some (set_annotation dev flag ep).
Proof.
  intros store. subst store. split.
  - rewrite (proj2 (group_by_chain_spec eps tol)). apply length_map.
  - intros i ep Hi. rewrite store_lookup, Hi. simpl. unfold annotate. eauto.
Qed.

Lemma group_by_chain_writes_two_keys_witness :
  exists dev flag,
    snd (group_by_chain [Samples.summary_with 1 10; Samples.summary_with 1 40] 30) !! 1%nat
    = Some (set_annotation dev flag (Samples.summary_with 1 40)).
Proof.
  exact (proj2 (group_by_chain_writes_two_keys
                  [Samples.summary_with 1 10; Samples.summary_with 1 40] 30)
               1%nat (Samples.summary_with 1 40) eq_refl).
Defined.

(** ** Tolerance *)

(** X14.  The deviations do not depend on the tolerance, and lowering
    the tolerance never clears a flag; with a tolerance of zero or less
    every summary is flagged. *)
Theorem tolerance_threshold (eps : list Endpoint) (tol tol' : Q) (i : nat) (a b : Endpoint) :
  snd (group_by_chain eps tol) !! i = Some a ->
  snd (group_by_chain eps tol') !! i = Some b ->
  deviationPct a = deviationPct b /\
  ((tol' <= tol)%Q -> isOutlier a = Some true -> isOutlier b = Some true) /\
  ((tol <= 0)%Q -> isOutlier a = Some true).
Proof.
  rewrite !store_lookup. destruct (eps !! i) as [ep|]; [|discriminate].
  intros [= <-] [= <-]. simpl. split; [done|].
  set (dev := deviation (consensus eps (chainId ep)) ep).
  split.
  - intros Hle [= H]. f_equal. apply Qle_bool_iff. apply Qle_bool_iff in H. lra.
  - intros Hle. f_equal. apply Qle_bool_iff. pose proof (Qabs_nonneg dev). lra.
Qed.

Lemma tolerance_threshold_witness :
  exists a b,
    snd (group_by_chain [Samples.summary_with 1 10; Samples.summary_with 1 40] 30) !! 1%nat
    = Some a /\
    snd (group_by_chain [Samples.summary_with 1 10; Samples.summary_with 1 40] 5) !! 1%nat
    = Some b /\
    deviationPct a = deviationPct b /\ isOutlier b = Some true.
Proof.
  eexists _, _. split; [reflexivity|]. split; [reflexivity|].
  destruct (tolerance_threshold [Samples.summary_with 1 10; Samples.summary_with 1 40] 30 5 1
              _ _ eq_refl eq_refl) as (Hd & Hmono & _).
  split; [exact Hd|]. apply Hmono; [vm_compute; discriminate | vm_compute; reflexivity].
Defined.

(** ** Small groups *)

Lemma sorted_lt_unique (l1 : list nat) :
  forall l2, StronglySorted lt l1 -> StronglySorted lt l2 ->
             (forall k, In k l1 <-> In k l2) -> l1 = l2.
Proof.
  induction l1 as [|x l1 IH]; intros [|y l2] H1 H2 Hin.
  - done.
  - exfalso. apply (Hin y). by left.
  - exfalso. apply (Hin x). by left.
  - apply StronglySorted_inv in H1 as [H1 Hx]. apply StronglySorted_inv in H2 as [H2 Hy].
    rewrite Forall_forall in Hx, Hy.
    assert (x = y) as ->.
    { destruct (proj1 (Hin x) (or_introl eq_refl)) as [->|Hxl]; [done|].
      destruct (proj2 (Hin y) (or_introl eq_refl)) as [->|Hyl]; [done|].
      apply list_elem_of_In, Hy in Hxl. apply list_elem_of_In, Hx in Hyl. lia. }
    f_equal. apply IH; [done|done|]. intros k. split; intros Hk.
    + destruct (proj1 (Hin k) (or_intror Hk)) as [->|]; [|done].
      apply list_elem_of_In, Hx in Hk. lia.
    + destruct (proj2 (Hin k) (or_intror Hk)) as [->|]; [|done].
      apply list_elem_of_In, Hy in Hk. lia.
Qed.

Lemma members_of_eq (eps : list Endpoint) (cid : Z) (l : list nat) :
  StronglySorted lt l ->
  (forall k, In k l <-> exists ep, eps !! k = Some ep /\ chainId ep = cid) ->
  members_of eps cid = l.
Proof.
  intros Hs Hl. apply sorted_lt_unique; [apply positions_sorted | done |].
  intros k. rewrite Hl. split.
  - apply members_of_lookup.
  - intros (ep & Hk & Hc). by apply (members_of_spec eps cid k ep Hk).
Qed.

Lemma round_half_even_comp (x y : Q) : (x == y)%Q -> round_half_even x = round_half_even y.
Proof.
  intros H. unfold round_half_even. rewrite (Qfloor_comp x y H).
  assert (x - inject_Z (Qfloor y) == y - inject_Z (Qfloor y))%Q as H' by (rewrite H; reflexivity).
  by rewrite (Qcompare_comp _ _ H' (1 # 2) (1 # 2) (Qeq_refl _)).
Qed.

Lemma py_round_comp (x y : Q) (n : nat) : (x == y)%Q -> py_round x n = py_round y n.
Proof.
  intros H. unfold py_round. f_equal. apply round_half_even_comp. by rewrite H.
Qed.

Lemma Qle_bool_comp (t x y : Q) : (x == y)%Q -> Qle_bool t x = Qle_bool t y.
Proof.
  intros H. apply eq_true_iff_eq. rewrite !Qle_bool_iff. by rewrite H.
Qed.

(** X15.  A summary that is alone on its chain and has a positive
    median is its own consensus: its deviation is zero, and it is
    flagged only when the tolerance is zero or less. *)
Theorem lone_endpoint (eps : list Endpoint) (tol : Q) (i : nat) (ep : Endpoint) :
  eps !! i = Some ep ->
  (forall j other, eps !! j = Some other -> chainId other = chainId ep -> j = i) ->
  (0 < baseFeeMedianGwei ep)%Q ->
  consensus eps (chainId ep) = baseFeeMedianGwei ep /\
  exists ep',
    snd (group_by_chain eps tol) !! i = Some ep' /\
    deviationPct ep' = Some (py_round 0 2) /\
    (isOutlier ep' = Some true <-> (tol <= 0)%Q).
Proof.
  intros Hi Halone Hpos.
  assert (Hm : members_of eps (chainId ep) = [i]).
  { apply members_of_eq; [repeat constructor|]. intros k. split.
    - intros [<-|[]]. eauto.
    - intros (other & Hk & Hc). left. symmetry. by apply (Halone k other). }
  assert (Hc : consensus eps (chainId ep) = baseFeeMedianGwei ep).
  { unfold consensus, group_median. rewrite Hm. simpl. rewrite Hi. simpl.
    apply Qltb_lt in Hpos. rewrite Hpos. reflexivity. }
  split; [exact Hc|].
  rewrite store_lookup, Hi. simpl. eexists. split; [reflexivity|]. simpl. rewrite Hc.
  assert (Hdev : (deviation (baseFeeMedianGwei ep) ep == 0)%Q).
  { unfold deviation, pct_diff. destruct (_ && _); [|reflexivity].
    destruct (Qeq_bool (baseFeeMedianGwei ep) 0) eqn:E; [reflexivity|].
    assert (~ (baseFeeMedianGwei ep == 0)%Q) as Hne by lra.
    field. exact Hne. }
  split; [f_equal; by apply py_round_comp|].
  rewrite (Qle_bool_comp tol _ 0) by (rewrite Hdev; reflexivity).
  split.
  - intros [= H]. by apply Qle_bool_iff.
  - intros H. f_equal. by apply Qle_bool_iff.
Qed.

Lemma lone_endpoint_witness :
  consensus [Samples.summary_with 1 10; Samples.summary_with 2 5; Samples.summary_with 1 40] 2
  = 5%Q.
Proof.
  refine (proj1 (lone_endpoint [Samples.summary_with 1 10; Samples.summary_with 2 5;
                                Samples.summary_with 1 40] 30 1
                               (Samples.summary_with 2 5) eq_refl _ _)).
  - intros [|[|[|j]]] other; simpl; intros [= <-]; simpl; intros Hc; try done.
  - reflexivity.
Defined.

(** ** The report *)

Lemma In_members (store : list Endpoint) (grp : Group) (ep : Endpoint) :
  In ep (members store grp) <-> exists i, In i (endpoints grp) /\ store !! i = Some ep.
Proof.
  unfold members. induction (endpoints grp) as [|j l IH]; simpl.
  - split; [done | by intros (i & [] & _)].
  - destruct (store !! j) as [e|] eqn:Hj; simpl; rewrite IH; split.
    + intros [<-|(i & Hi & He)]; eauto.
    + intros (i & [<-|Hi] & He); [left; congruence | eauto].
    + intros (i & Hi & He). eauto.
    + intros (i & [<-|Hi] & He); [congruence | eauto].
Qed.

Lemma render_endpoints_spec (eps : list Endpoint) :
  let '(lines, err) := render_endpoints eps in
  (err = None <-> forall ep, In ep eps -> exists line, render_endpoint ep = inr line) /\
  (forall e, err = Some e -> exists ep, In ep eps /\ render_endpoint ep = inl e) /\
  (err = None -> forall ep, In ep eps ->
                            exists line, render_endpoint ep = inr line /\ In line lines).
Proof.
  induction eps as [|ep eps IH]; simpl.
  - split; [split; [by intros _ ? [] | done]|]. split; [discriminate | by intros _ ? []].
  - destruct (render_endpoint ep) as [e|line] eqn:E.
    + split; [split; [discriminate|]|split].
      * intros H. destruct (H ep (or_introl eq_refl)) as [l Hl]. congruence.
      * intros e' [= <-]. exists ep. split; [by left | done].
      * discriminate.
    + destruct (render_endpoints eps) as [lines err]. destruct IH as (IH1 & IH2 & IH3).
      split; [split|split].
      * intros Herr ep' [<-|Hin]; [eauto | by apply IH1].
      * intros H. apply IH1. intros ep' Hin. apply H. by right.
      * intros e Herr. destruct (IH2 e Herr) as (ep' & Hin & He). exists ep'.
        split; [by right | done].
      * intros Herr ep' [<-|Hin]; [exists line; split; [done | by left]|].
        destruct (IH3 Herr ep' Hin) as (l & Hl & Hinl). exists l. split; [done | by right].
Qed.

Lemma render_groups_spec (store : list Endpoint) (groups : Groups) :
  let '(lines, err) := render_groups store groups in
  (err = None <->
   forall cid grp ep, In (cid, grp) groups -> In ep (members store grp) ->
                      exists line, render_endpoint ep = inr line) /\
  (forall e, err = Some e ->
             exists cid grp ep, In (cid, grp) groups /\ In ep (members store grp) /\
                                render_endpoint ep = inl e) /\
  (err = None ->
   forall cid grp ep, In (cid, grp) groups -> In ep (members store grp) ->
                      exists line, render_endpoint ep = inr line /\ In line lines).
Proof.
  induction groups as [|[cid grp] rest IH]; cbn -[render_endpoints].
  - split; [split; [by intros _ ? ? ? [] | done]|].
    split; [discriminate | by intros _ ? ? ? []].
  - destruct (render_groups store rest) as [more err2]. destruct IH as (IH1 & IH2 & IH3).
    pose proof (render_endpoints_spec (members store grp)) as Heps.
    destruct (members store grp) as [|ep0 eps0] eqn:Hm.
    + split; [split|split].
      * intros Herr c g ep [[= <- <-]|Hin] Hep; [by rewrite Hm in Hep|].
        exact (proj1 IH1 Herr c g ep Hin Hep).
      * intros H. apply IH1. intros c g ep Hin Hep. apply (H c g ep); [by right | done].
      * intros e Herr. destruct (IH2 e Herr) as (c & g & ep & Hin & Hep & He).
        exists c, g, ep. split; [by right | done].
      * intros Herr c g ep [[= <- <-]|Hin] Hep; [by rewrite Hm in Hep|].
        exact (IH3 Herr c g ep Hin Hep).
    + revert Heps. destruct (render_endpoints (ep0 :: eps0)) as [lines [e|]];
        intros (H1 & H2 & H3); cbv beta iota.
      * split; [split; [discriminate|]|split].
        -- intros H. exfalso. assert (Some e = None) as Hn; [|discriminate]. apply H1.
           intros ep Hep. apply (H cid grp ep); [by left | by rewrite Hm].
        -- intros e' [= <-]. destruct (H2 e eq_refl) as (ep & Hep & He).
           exists cid, grp, ep. split; [by left|]. split; [by rewrite Hm | done].
        -- discriminate.
      * split; [split|split].
        -- intros Herr c g ep [[= <- <-]|Hin] Hep.
           ++ rewrite Hm in Hep. by apply (proj1 H1 eq_refl).
           ++ exact (proj1 IH1 Herr c g ep Hin Hep).
        -- intros H. apply IH1. intros c g ep Hin Hep. apply (H c g ep); [by right | done].
        -- intros e Herr. destruct (IH2 e Herr) as (c & g & ep & Hin & Hep & He).
           exists c, g, ep. split; [by right | done].
        -- intros Herr c g ep [[= <- <-]|Hin] Hep.
           ++ rewrite Hm in Hep. destruct (H3 eq_refl ep Hep) as (l & Hl & Hinl).
              exists l. split; [done|]. do 3 right. apply in_or_app. by left.
           ++ destruct (IH3 Herr c g ep Hin Hep) as (l & Hl & Hinl).
              exists l. split; [done|]. do 3 right. apply in_or_app. by right.
Qed.

Lemma report_members (eps : list Endpoint) (tol : Q) (groups : Groups) (store : list Endpoint) :
  group_by_chain eps tol = (groups, store) ->
  forall ep', In ep' store <->
              exists cid grp, In (cid, grp) groups /\ In ep' (members store grp).
Proof.
  intros H ep'.
  pose proof (group_by_chain_members eps tol groups store H) as [Hstore Hgroups].
  pose proof (proj1 (group_by_chain_spec eps tol)) as Hg. rewrite H in Hg. simpl in Hg.
  destruct (collect_spec eps) as (_ & _ & Hcov).
  assert (Hlk : forall i, store !! i
                          = (fun ep => annotate (consensus eps (chainId ep)) tol ep) <$> eps !! i).
  { intros i. rewrite Hstore. change (map ?f eps) with (f <$> eps). apply list_lookup_fmap. }
  split.
  - intros Hin. apply list_elem_of_In, list_elem_of_lookup in Hin as [i Hi].
    pose proof Hi as Hi'. rewrite Hlk in Hi'.
    destruct (eps !! i) as [ep0|] eqn:Hi0; [|discriminate]. simpl in Hi'.
    assert (In (chainId ep0) (map fst groups)) as Hk.
    { rewrite Hg, map_map. simpl. apply has_key_In, Hcov.
      apply list_elem_of_In, list_elem_of_lookup. eauto. }
    apply in_map_iff in Hk as ([c grp] & Hc & Hingrp). simpl in Hc. subst c.
    exists (chainId ep0), grp. split; [done|]. apply In_members. exists i. split; [|done].
    destruct (Hgroups _ _ Hingrp) as (-> & _). by apply (members_of_spec eps _ i ep0 Hi0).
  - intros (cid & grp & _ & Hin). apply In_members in Hin as (i & _ & Hi).
    apply list_elem_of_In, list_elem_of_lookup. eauto.
Qed.

Lemma render_annotated (g tol : Q) (ep : Endpoint) :
  (forall line, render_endpoint (annotate g tol ep) = inr line -> headBaseFeeGwei ep <> None) /\
  (forall e, render_endpoint (annotate g tol ep) = inl e ->
             headBaseFeeGwei ep = None /\
             e = "TypeError: unsupported format string passed to NoneType.__format__").
Proof.
  unfold render_endpoint, annotate. simpl.
  destruct (headBaseFeeGwei ep); split; intros x [= <-]; done.
Qed.

(** X17.  The human-readable report of what [group_by_chain] returns
    can be printed to the end exactly when every summary has a head
    fee.  When one has none, printing stops with a [TypeError] (a
    missing value cannot be formatted with [.3f]) after the title has
    been written; when all have one, every summary gets its line and
    the report ends with the legend, the note and the closing line. *)
Theorem text_report_needs_head_fees (eps : list Endpoint) (tol elapsed : Q) (now : string) :
  let report := group_by_chain eps tol in
  let out := render_text elapsed now report in
  (snd out = None <-> forall ep, In ep eps -> headBaseFeeGwei ep <> None) /\
  (forall e, snd out = Some e ->
             e = "TypeError: unsupported format string passed to NoneType.__format__") /\
  (exists body, fst out = [OutBlank; OutTitle elapsed] ++ body) /\
  (snd out = None ->
   (exists body, fst out = [OutBlank; OutTitle elapsed] ++ body
                           ++ [OutBlank; OutLegend; OutBlank; OutNote; OutFinished now]) /\
   forall ep', In ep' (snd report) ->
               exists line, render_endpoint ep' = inr line /\ In line (fst out)).
Proof.
  intros report out. subst out report.
  destruct (group_by_chain eps tol) as [groups store] eqn:E.
  pose proof (report_members eps tol groups store E) as Hmem.
  pose proof (group_by_chain_members eps tol groups store E) as [Hstore _].
  assert (Hann : forall ep', In ep' store ->
                   exists ep, In ep eps /\ ep' = annotate (consensus eps (chainId ep)) tol ep).
  { intros ep' Hin. rewrite Hstore in Hin. apply in_map_iff in Hin as (ep & <- & Hin). eauto. }
  assert (Hback : forall ep, In ep eps ->
                    In (annotate (consensus eps (chainId ep)) tol ep) store).
  { intros ep Hin. rewrite Hstore. apply in_map_iff. eauto. }
  pose proof (render_groups_spec store groups) as Hspec.
  unfold render_text. destruct (render_groups store groups) as [lines [e|]];
    destruct Hspec as (H1 & H2 & H3); simpl.
  - destruct (H2 e eq_refl) as (cid & grp & ep' & Hin & Hep & He).
    assert (In ep' store) as Hs by (apply Hmem; eauto).
    destruct (Hann ep' Hs) as (ep & Hepin & ->).
    apply render_annotated in He as [Hnone ->].
    split; [split; [discriminate|]|split; [|split]].
    + intros H. exfalso. by apply (H ep).
    + by intros e' [= <-].
    + eauto.
    + discriminate.
  - assert (Hall : forall ep', In ep' store ->
                     exists line, render_endpoint ep' = inr line /\ In line lines).
    { intros ep' Hin. apply Hmem in Hin as (cid & grp & Hin & Hep).
      exact (H3 eq_refl cid grp ep' Hin Hep). }
    split; [split|split; [|split]].
    + intros _ ep Hin. destruct (Hall _ (Hback ep Hin)) as (line & Hl & _).
      exact (proj1 (render_annotated _ _ _) line Hl).
    + done.
    + discriminate.
    + eauto.
    + intros _. split; [eauto|]. intros ep' Hin.
      destruct (Hall ep' Hin) as (line & Hl & Hinl). exists line. split; [done|].
      do 2 right. apply in_or_app. by left.
Qed.

Lemma text_report_needs_head_fees_witness :
  exists body,
    fst (render_text 1 "now" (group_by_chain [Samples.summary_with 1 10] 30))
    = [OutBlank; OutTitle 1] ++ body
        ++ [OutBlank; OutLegend; OutBlank; OutNote; OutFinished "now"].
Proof.
  apply (proj2 (proj2 (proj2 (text_report_needs_head_fees [Samples.summary_with 1 10] 30 1 "now")))).
  reflexivity.
Defined.

(** ** Labels and the order of the groups *)

Lemma str_of_Z_inj (a b : Z) : str_of_Z a = str_of_Z b -> a = b.
Proof.
  unfold str_of_Z. intros H. apply DecimalZ.to_int_inj.
  assert (Hnn : forall z, Z.to_int z <> Decimal.Pos Decimal.Nil /\
                          Z.to_int z <> Decimal.Neg Decimal.Nil).
  { intros [|p|p]; simpl; split; try discriminate;
      intros [= Hp]; by apply DecimalPos.Unsigned.to_uint_nonnil in Hp. }
  apply (f_equal NilZero.int_of_string) in H.
  rewrite !NilZero.isi in H by apply Hnn. by injection H.
Qed.

Lemma append_char_inj (s1 s2 : string) (c : Ascii.ascii) :
  s1 +:+ String c EmptyString = s2 +:+ String c EmptyString -> s1 = s2.
Proof.
  revert s2. induction s1 as [|a s1 IH]; intros [|b s2]; simpl; intros H.
  - done.
  - injection H as _ H. destruct s2; discriminate.
  - injection H as _ H. destruct s1; discriminate.
  - injection H as -> H. f_equal. by apply IH.
Qed.

(** X18.  [network_name] gives different chain ids different names:
    the six known names are pairwise distinct, none of them has the
    form of the name of an unknown chain, and the name of an unknown
    chain determines its id. *)
Theorem network_name_inj (c1 c2 : Z) : network_name c1 = network_name c2 -> c1 = c2.
Proof.
  unfold network_name, NETWORKS. cbn -[Z.eqb String.append str_of_Z].
  repeat match goal with
         | |- context [Z.eqb ?k ?c] => destruct (Z.eqb_spec k c); [subst c|]
         end;
  cbn -[Z.eqb String.append str_of_Z]; intros H; try reflexivity; try discriminate H.
  cbn -[str_of_Z] in H. injection H as H. apply append_char_inj in H. by apply str_of_Z_inj.
Qed.

Lemma network_name_inj_witness : 5%Z = 5%Z.
Proof. apply (network_name_inj 5 5). reflexivity. Defined.

Lemma has_key_keys (c : Z) (g1 g2 : Groups) :
  map fst g1 = map fst g2 -> has_key c g1 = has_key c g2.
Proof.
  intros H. pose proof (has_key_In c g1) as H1. pose proof (has_key_In c g2) as H2.
  rewrite H in H1. destruct (has_key c g1), (has_key c g2); try done.
  - symmetry. apply H2, H1. done.
  - apply H1, H2. done.
Qed.

Lemma filter_filter {A : Type} (f g : A -> bool) (l : list A) :
  List.filter f (List.filter g l) = List.filter (fun x => g x && f x) l.
Proof.
  induction l as [|x l IH]; simpl; [done|].
  destruct (g x); simpl; [destruct (f x)|]; by rewrite IH.
Qed.

Lemma collect_keys (eps : list Endpoint) (i : nat) (groups : Groups) :
  map fst (collect eps i groups)
  = map fst groups
      ++ List.filter (fun c => negb (has_key c groups)) (first_seen (map chainId eps)).
Proof.
  revert i groups. induction eps as [|ep rest IH]; intros i groups; simpl.
  - by rewrite app_nil_r.
  - rewrite IH, keys_append_member.
    set (gs := setdefault (chainId ep) _ groups).
    erewrite (filter_ext (fun c => negb (has_key c (append_member (chainId ep) i gs))));
      [|intros c; by rewrite (has_key_keys c _ gs (keys_append_member _ _ _))].
    subst gs. unfold setdefault. destruct (has_key (chainId ep) groups) eqn:Hc.
    + f_equal. rewrite filter_filter. apply filter_ext. intros c.
      destruct (Z.eqb_spec c (chainId ep)) as [->|]; [by rewrite Hc | done].
    + rewrite map_app, <- app_assoc. simpl. f_equal. f_equal.
      rewrite filter_filter. apply filter_ext. intros c.
      unfold has_key. rewrite existsb_app. simpl. rewrite orb_false_r.
      rewrite negb_orb. rewrite (Z.eqb_sym (chainId ep) c). apply andb_comm.
Qed.

Lemma StronglySorted_filter_impl {A : Type} (R R' : A -> A -> Prop) (f : A -> bool)
    (l : list A) :
  (forall x y, f x = true -> f y = true -> R x y -> R' x y) ->
  StronglySorted R l -> StronglySorted R' (List.filter f l).
Proof.
  intros HR. induction 1 as [|x l Hl IHl Hx]; simpl; [constructor|].
  destruct (f x) eqn:Hfx; [|done]. constructor; [done|].
  apply Forall_forall. intros y Hy. apply list_elem_of_In, filter_In in Hy as [Hy Hfy].
  apply HR; [done..|]. rewrite Forall_forall in Hx. by apply Hx, list_elem_of_In.
Qed.

(** Each chain id of [first_seen cids] occurs in [cids] before every
    occurrence of the chain ids that follow it. *)
Lemma first_seen_sorted (cids : list Z) :
  StronglySorted
    (fun c1 c2 => exists i, cids !! i = Some c1 /\ forall j, cids !! j = Some c2 -> (i < j)%nat)
    (first_seen cids).
Proof.
  induction cids as [|c rest IH]; simpl; [constructor|].
  constructor.
  - refine (StronglySorted_filter_impl _ _ _ _ _ IH).
    intros x y _ Hy (i & Hi & Hlt). exists (S i). split; [done|].
    intros [|j] Hj.
    + injection Hj as ->. by rewrite Z.eqb_refl in Hy.
    + apply Hlt in Hj. lia.
  - apply Forall_forall. intros x Hx. apply list_elem_of_In, filter_In in Hx as [_ Hne].
    exists 0%nat. split; [done|]. intros [|j] Hj; [|lia].
    injection Hj as ->. by rewrite Z.eqb_refl in Hne.
Qed.

(** X19.  The groups are kept in the order in which their chains are
    first seen: the chain id of a group occurs among the summaries
    before every summary of the chains of the groups that follow it.
    The human-readable report prints the groups in this order. *)
Theorem groups_in_first_seen_order (eps : list Endpoint) (tol : Q) :
  StronglySorted
    (fun c1 c2 =>
       exists i ep, eps !! i = Some ep /\ chainId ep = c1 /\
                    forall j ep', eps !! j = Some ep' -> chainId ep' = c2 -> (i < j)%nat)
    (map fst (fst (group_by_chain eps tol))).
Proof.
  rewrite (proj1 (group_by_chain_spec eps tol)), map_map. simpl.
  change (map (fun x : Z * Group => fst x) (collect eps 0 []))
    with (map fst (collect eps 0 [])).
  rewrite collect_keys. simpl. rewrite filter_true.
  rewrite <- (filter_true (first_seen (map chainId eps))).
  refine (StronglySorted_filter_impl _ _ _ _ _ (first_seen_sorted (map chainId eps))).
  intros c1 c2 _ _ (i & Hi & Hlt).
  rewrite list_lookup_fmap in Hi. destruct (eps !! i) as [ep|] eqn:Hep; [|discriminate].
  injection Hi as Hi. exists i, ep. split; [done|]. split; [done|].
  intros j ep' Hj Hc. apply Hlt. rewrite list_lookup_fmap, Hj. simpl. by rewrite Hc.
Qed.

(** ** The JSON report *)

Lemma omap_lookup_filter {A : Type} (p : A -> bool) (l : list A) :
  omap (fun i => l !! i)
       (List.filter (fun i => match l !! i with Some x => p x | None => false end)
                    (seq 0 (length l)))
  = List.filter p l.
Proof.
  induction l as [|x l IH]; [done|].
  cbn [length]. rewrite <- cons_seq, <- seq_shift. cbn [List.filter lookup list_lookup].
  rewrite filter_map_swap.
  assert (Hshift : forall (q : nat -> bool) (k : list nat),
            omap (fun i => (x :: l) !! i) (map S (List.filter q k))
            = omap (fun i => l !! i) (List.filter q k)).
  { intros q k. induction (List.filter q k) as [|j js IHj]; [done|]. simpl.
    destruct (l !! j); [f_equal|]; exact IHj. }
  destruct (p x); simpl; rewrite Hshift; cbn [lookup list_lookup] in *; by rewrite IH.
Qed.

(** The members of a group are the summaries of its chain, in the order
    of the caller's list. *)
Lemma members_filter (eps : list Endpoint) (tol : Q) (groups : Groups) (store : list Endpoint)
    (cid : Z) (grp : Group) :
  group_by_chain eps tol = (groups, store) ->
  In (cid, grp) groups ->
  members store grp = List.filter (fun ep => (chainId ep =? cid)%Z) store.
Proof.
  intros H Hin.
  destruct (group_by_chain_members eps tol groups store H) as [Hstore Hgroups].
  destruct (Hgroups _ _ Hin) as (Hm & _).
  unfold members. rewrite Hm. unfold members_of, positions.
  rewrite <- (omap_lookup_filter (fun ep => (chainId ep =? cid)%Z) store).
  assert (Hlen : length (map chainId eps) = length store)
    by (by rewrite Hstore, !length_map).
  rewrite Hlen. f_equal. apply filter_ext. intros i.
  rewrite Hstore, !list_lookup_fmap. by destruct (eps !! i).
Qed.

Lemma NoDup_map_inj {A B : Type} (f : A -> B) (l : list A) :
  (forall x y, f x = f y -> x = y) -> List.NoDup l -> List.NoDup (map f l).
Proof.
  intros Hf. induction 1 as [|x l Hx Hl IH]; simpl; constructor; [|done].
  intros Hin. apply in_map_iff in Hin as (y & Hy & Hin). apply Hf in Hy. by subst.
Qed.

(** X20.  The groups of the JSON report.  Their keys, the chain ids
    written in decimal, are distinct, so that no group overwrites
    another in the object, and every summary has the key of its chain.
    The endpoints of a group are exactly the summaries of its chain, in
    the order in which they were analysed, and there is at least one:
    the alternative [network_name(cid)] of line 283 is never taken, the
    network of a group is the one its first summary names.  When the
    summaries name their networks as [analyze_endpoint] does, this is
    the name of the chain of the group. *)
Theorem json_report_groups (eps : list Endpoint) (tol elapsed : Q) (now : string) (args : Args) :
  let report := group_by_chain eps tol in
  let groups := payload_groups (payload elapsed now args report) in
  List.NoDup (map fst groups) /\
  (forall ep, In ep (snd report) -> In (str_of_Z (chainId ep)) (map fst groups)) /\
  (forall key g, In (key, g) groups ->
     key = str_of_Z (json_chainId g) /\
     json_endpoints g
     = List.filter (fun ep => (chainId ep =? json_chainId g)%Z) (snd report) /\
     (exists ep rest, json_endpoints g = ep :: rest /\ json_network g = network ep) /\
     ((forall ep, In ep eps -> network ep = network_name (chainId ep)) ->
      json_network g = network_name (json_chainId g))).
Proof.
  intros report groups. subst groups report.
  destruct (group_by_chain eps tol) as [gs store] eqn:E. cbn [payload payload_groups snd].
  pose proof (report_members eps tol gs store E) as Hmem.
  pose proof (group_by_chain_members eps tol gs store E) as [Hstore Hgroups].
  assert (Hkeys : map fst gs = map fst (collect eps 0 [])).
  { pose proof (proj1 (group_by_chain_spec eps tol)) as Hg. rewrite E in Hg. simpl in Hg.
    rewrite Hg, map_map. by apply map_ext. }
  set (F := fun kv : Z * Group => let '(cid, grp) := kv in (str_of_Z cid, _)).
  assert (HF : map fst (map F gs) = map str_of_Z (map fst gs)).
  { rewrite !map_map. apply map_ext. by intros [cid grp]. }
  split; [|split].
  - rewrite HF. apply NoDup_map_inj; [apply str_of_Z_inj|].
    rewrite Hkeys. apply (collect_spec eps).
  - intros ep Hin. apply Hmem in Hin as (cid & grp & Hin & Hep).
    rewrite (members_filter eps tol gs store cid grp E Hin) in Hep.
    apply filter_In in Hep as [_ Hc]. apply Z.eqb_eq in Hc. rewrite Hc, HF.
    apply in_map, in_map_iff. by exists (cid, grp).
  - intros key g Hin. apply in_map_iff in Hin as ([cid grp] & Heq & Hin).
    subst F. cbv beta iota in Heq. injection Heq as <- <-.
    cbn [json_chainId json_endpoints json_network].
    pose proof (members_filter eps tol gs store cid grp E Hin) as Hfil.
    destruct (Hgroups _ _ Hin) as (Hm & Hne & _).
    assert (Hsome : members store grp <> []).
    { destruct (endpoints grp) as [|i l] eqn:Hl; [done|].
      assert (In i (members_of eps cid)) as Hi by (rewrite <- Hm; by left).
      apply members_of_lookup in Hi as (ep0 & Hi & _).
      assert (In (annotate (consensus eps (chainId ep0)) tol ep0) (members store grp)) as Hin'.
      { apply In_members. exists i. split; [rewrite Hl; by left|].
        rewrite Hstore. change (map ?f eps) with (f <$> eps).
        by rewrite list_lookup_fmap, Hi. }
      intros Hnil. by rewrite Hnil in Hin'. }
    split; [done|]. split; [done|].
    destruct (members store grp) as [|ep rest] eqn:Hmembers; [done|].
    split; [eauto|]. intros Hnet.
    assert (In ep (List.filter (fun ep => (chainId ep =? cid)%Z) store)) as Hep
      by (rewrite <- Hfil; by left).
    apply filter_In in Hep as [Hep Hc]. apply Z.eqb_eq in Hc.
    rewrite Hstore in Hep. apply in_map_iff in Hep as (ep0 & <- & Hep0).
    simpl in *. rewrite <- Hc. by apply Hnet.
Qed.

Lemma json_report_groups_witness :
  Forall (fun kg => json_network (snd kg) = network_name (json_chainId (snd kg)))
         (payload_groups (payload 1 "now" (Samples.args_of ["a"] 10 5 30)
                                  (group_by_chain [Samples.summary_with 1 10;
                                                   Samples.summary_with 5 20] 30))).
Proof.
  apply Forall_forall. intros [key g] Hin. apply list_elem_of_In in Hin.
  apply (proj2 (proj2 (json_report_groups
                         [Samples.summary_with 1 10; Samples.summary_with 5 20] 30 1 "now"
                         (Samples.args_of ["a"] 10 5 30))) key g Hin).
  intros ep [<-|[<-|[]]]; reflexivity.
Defined.

(** ** The list of endpoints *)

Lemma chars_rev_app (s1 s2 : string) :
  String.list_ascii_of_string (String.rev_app s1 s2)
  = rev (String.list_ascii_of_string s1) ++ String.list_ascii_of_string s2.
Proof.
  revert s2. induction s1 as [|a s1 IH]; intros s2; simpl; [done|].
  rewrite IH. simpl. by rewrite <- app_assoc.
Qed.

Lemma chars_rev (s : string) :
  String.list_ascii_of_string (String.rev s) = rev (String.list_ascii_of_string s).
Proof. unfold String.rev. rewrite chars_rev_app. simpl. by rewrite app_nil_r. Qed.

Lemma chars_inj (s t : string) :
  String.list_ascii_of_string s = String.list_ascii_of_string t -> s = t.
Proof.
  intros H. apply (f_equal String.string_of_list_ascii) in H.
  by rewrite !String.string_of_list_ascii_of_string in H.
Qed.

Lemma string_rev_involutive (s : string) : String.rev (String.rev s) = s.
Proof. apply chars_inj. by rewrite !chars_rev, rev_involutive. Qed.

Lemma lstrip_head (s : string) (c : Ascii.ascii) (t : string) :
  PyStr.lstrip s = String c t -> PyStr.is_space c = false.
Proof.
  induction s as [|a s IH]; simpl; [discriminate|].
  destruct (PyStr.is_space a) eqn:Ha; [done|]. by intros [= <- _].
Qed.

Lemma lstrip_id (s : string) :
  (forall c t, s = String c t -> PyStr.is_space c = false) -> PyStr.lstrip s = s.
Proof. destruct s as [|a s]; simpl; [done|]. intros H. by rewrite (H a s eq_refl). Qed.

Lemma lstrip_suffix (s : string) :
  exists pre, String.list_ascii_of_string s
              = pre ++ String.list_ascii_of_string (PyStr.lstrip s).
Proof.
  induction s as [|a s [pre IH]]; simpl; [by exists []|].
  destruct (PyStr.is_space a).
  - exists (a :: pre). simpl. by rewrite IH.
  - by exists [].
Qed.

(** What [strip] returns has no white space left at either end. *)
Lemma strip_idempotent (s : string) : PyStr.strip (PyStr.strip s) = PyStr.strip s.
Proof.
  unfold PyStr.strip at 2 3.
  set (t := PyStr.lstrip s). set (u := PyStr.lstrip (String.rev t)).
  assert (Hu : PyStr.lstrip u = u).
  { apply lstrip_id. intros c w Hw. by apply (lstrip_head (String.rev t) c w). }
  assert (Hr : PyStr.lstrip (String.rev u) = String.rev u).
  { apply lstrip_id. intros c w Hw.
    destruct (lstrip_suffix (String.rev t)) as [pre Hpre]. fold u in Hpre.
    rewrite chars_rev in Hpre. apply (f_equal (@rev _)) in Hpre.
    rewrite rev_involutive, rev_app_distr, <- chars_rev, Hw in Hpre.
    assert (Ht : PyStr.lstrip s = t) by done. clearbody t.
    destruct t as [|c' t']; [discriminate|]. simpl in Hpre.
    injection Hpre as <- _. by apply (lstrip_head s c' t'). }
  unfold PyStr.strip. by rewrite Hr, string_rev_involutive, Hu.
Qed.

Lemma strip_chars (s : string) (c : Ascii.ascii) :
  In c (String.list_ascii_of_string (PyStr.strip s)) -> In c (String.list_ascii_of_string s).
Proof.
  assert (Hl : forall t, In c (String.list_ascii_of_string (PyStr.lstrip t)) ->
                         In c (String.list_ascii_of_string t)).
  { intros t Hin. destruct (lstrip_suffix t) as [pre ->]. apply in_or_app. by right. }
  unfold PyStr.strip. rewrite chars_rev. intros Hin. apply in_rev, Hl in Hin.
  rewrite chars_rev in Hin. by apply in_rev, Hl in Hin.
Qed.

Lemma split_comma_go_chars (cur s chunk : string) :
  ~ In (Ascii.ascii_of_nat 44) (String.list_ascii_of_string cur) ->
  In chunk (PyStr.split_comma_go cur s) ->
  ~ In (Ascii.ascii_of_nat 44) (String.list_ascii_of_string chunk).
Proof.
  revert cur. induction s as [|a s IH]; intros cur Hcur; simpl.
  - intros [<-|[]]. rewrite chars_rev. intros Hin. by apply in_rev in Hin.
  - destruct (Ascii.eqb_spec a (Ascii.ascii_of_nat 44)) as [->|Hne].
    + intros [<-|Hin].
      * rewrite chars_rev. intros Hin. by apply in_rev in Hin.
      * apply (IH EmptyString); [by intros []|done].
    + apply IH. simpl. intros [Heq|Hin]; [by apply Hne | by apply Hcur].
Qed.

Lemma nonempty_spec (s : string) : PyStr.nonempty s = true <-> s <> EmptyString.
Proof. destruct s; simpl; split; congruence. Qed.

Lemma strip_empty : PyStr.strip EmptyString = EmptyString.
Proof. reflexivity. Qed.

Lemma clean_again (l : list string) :
  (forall r, In r l -> r <> EmptyString /\ PyStr.strip r = r) ->
  map PyStr.strip
      (List.filter (fun r => PyStr.nonempty r && PyStr.nonempty (PyStr.strip r)) l) = l.
Proof.
  intros H. rewrite (filter_ext_in _ (fun _ => true)), filter_true.
  - rewrite <- (map_id l) at 2. apply map_ext_in. intros r Hr. by apply H.
  - intros r Hr. destruct (H r Hr) as [Hne ->]. apply nonempty_spec in Hne. by rewrite Hne.
Qed.

Lemma load_rpcs_clean (env r : string) :
  In r (load_rpcs_from_env env) ->
  r <> EmptyString /\ PyStr.strip r = r /\
  ~ In (Ascii.ascii_of_nat 44) (String.list_ascii_of_string r).
Proof.
  unfold load_rpcs_from_env. destruct (negb _); [by intros []|].
  intros Hin. apply in_map_iff in Hin as (chunk & <- & Hin).
  apply filter_In in Hin as [Hin Hne]. split; [by apply nonempty_spec|].
  split; [apply strip_idempotent|].
  intros Hc. apply strip_chars in Hc. revert Hc.
  apply (split_comma_go_chars EmptyString (PyStr.strip env) chunk); [by intros []|done].
Qed.

(** X21.  The list of endpoints that a run works on (lines 221-227),
    for strings of code points below 256, where white space includes
    the no-break space.  Every entry is a non-empty string without
    white space at either end: stripping it again changes nothing.  Entries are the stripped
    [--rpc] options when there is at least one, and the environment is
    then not looked at; otherwise they are the entries of [RPC_URLS],
    which line 227 leaves as [load_rpcs_from_env] returned them, and
    none of them contains a comma. *)
Theorem rpc_list_clean (args : Args) (env : string) :
  (forall r, In r (rpc_list_of args env) -> r <> EmptyString /\ PyStr.strip r = r) /\
  (forall rs env', args_rpc args = Some rs -> rs <> [] ->
                   rpc_list_of args env = rpc_list_of args env' /\
                   forall r, In r (rpc_list_of args env) <->
                             r <> EmptyString /\ exists r0, In r0 rs /\ r = PyStr.strip r0) /\
  (args_rpc args = None \/ args_rpc args = Some [] ->
   rpc_list_of args env = load_rpcs_from_env env /\
   forall r, In r (rpc_list_of args env) ->
             ~ In (Ascii.ascii_of_nat 44) (String.list_ascii_of_string r)).
Proof.
  split; [|split].
  - intros r Hin. unfold rpc_list_of in Hin.
    apply in_map_iff in Hin as (r0 & <- & Hin). apply filter_In in Hin as [_ Hne].
    apply andb_prop in Hne as [_ Hne]. split; [by apply nonempty_spec|].
    apply strip_idempotent.
  - intros rs env' Hrs Hne. unfold rpc_list_of. rewrite Hrs.
    destruct rs as [|r0 rs]; [done|]. split; [done|].
    intros r. rewrite in_map_iff. split.
    + intros (x & <- & Hin). apply filter_In in Hin as [Hin Hx].
      apply andb_prop in Hx as [_ Hx]. split; [by apply nonempty_spec|]. eauto.
    + intros (Hr & x & Hin & ->). exists x. split; [done|]. apply filter_In. split; [done|].
      apply nonempty_spec in Hr. rewrite Hr, andb_true_r.
      destruct x; [by rewrite strip_empty in Hr | done].
  - intros Hnone.
    assert (Heq : rpc_list_of args env = load_rpcs_from_env env).
    { unfold rpc_list_of. destruct Hnone as [H | H]; rewrite H; cbv zeta beta iota;
        apply clean_again; intros r Hin; apply load_rpcs_clean in Hin; tauto. }
    split; [done|]. rewrite Heq. intros r Hin. exact (proj2 (proj2 (load_rpcs_clean env r Hin))).
Qed.

Lemma rpc_list_clean_witness :
  let env := String (Ascii.ascii_of_nat 160) " a , ,b " in
  rpc_list_of {| args_rpc := None; args_blocks := 10; args_step := 5;
                 args_tolerance_pct := 30; args_timeout := 20; args_json := false |} env
  = load_rpcs_from_env env /\
  load_rpcs_from_env env = ["a"; "b"].
Proof.
  intros env. split; [|reflexivity].
  apply (proj2 (proj2 (rpc_list_clean
                         {| args_rpc := None; args_blocks := 10; args_step := 5;
                            args_tolerance_pct := 30; args_timeout := 20; args_json := false |}
                         env))).
  left. reflexivity.
Defined.
